(** * The per-call session bridge of the voice assistant (index.js)

    A shallow embedding of the bridge's retry adapter, e-mail reconstruction,
    booking state machine, event router and conversation finalizer, with the
    properties the specification states about them; and of the greeting of a
    returning caller, the knowledge lookup and the greeting of the earlier
    server (server.js), with further properties of the code.

    Conventions of the embedding:
    - a JavaScript string is the list of its UTF-16 code units;
    - an [async] function is a computation over the session and the outside
      world that may throw.  It is embedded twice: as a whole, run to its end
      with nothing in between ([handle], [run]), which is how a handler runs
      that no other handler overlaps; and with its awaits ([Async.handle],
      [Async.exec]), the handlers of a call overlapping as the route lets
      them;
    - everything a handler does that can be observed from outside (frames
      sent, external operations invoked, console entries, waits, assignments
      to the session) is recorded, in order, in the list of effects the
      computation returns. *)

From Stdlib Require Import ZArith NArith List String Ascii Bool Lia Arith.
Import ListNotations.

Set Implicit Arguments.

(** ** JavaScript strings *)

Module JsString.

Local Open Scope N_scope.

Definition codeunit := N.
Definition jsstring := list codeunit.

(** A literal of the source, all of whose characters are ASCII. *)
Definition js (s : string) : jsstring :=
  map N_of_ascii (list_ascii_of_string s).
Arguments js s%_string.

Fixpoint jseqb (a b : jsstring) : bool :=
  match a, b with
  | [], [] => true
  | x :: a', y :: b' => (x =? y) && jseqb a' b'
  | _, _ => false
  end.

(** The class [\s] of a regular expression without the [u] flag, which is
    also what [String.prototype.trim] strips: WhiteSpace and LineTerminator. *)
Definition isSpace (c : codeunit) : bool :=
  ((9 <=? c) && (c <=? 13)) || (c =? 32) || (c =? 160) || (c =? 5760)
  || ((8192 <=? c) && (c <=? 8202)) || (c =? 8232) || (c =? 8233)
  || (c =? 8239) || (c =? 8287) || (c =? 12288) || (c =? 65279).

(** The class [\w]: [A-Za-z0-9_]. *)
Definition isWordChar (c : codeunit) : bool :=
  ((48 <=? c) && (c <=? 57)) || ((65 <=? c) && (c <=? 90))
  || (c =? 95) || ((97 <=? c) && (c <=? 122)).

Definition AT_SIGN : codeunit := 64.
Definition FULL_STOP : codeunit := 46.
Definition SPACE : codeunit := 32.

Fixpoint trimStart (s : jsstring) : jsstring :=
  match s with
  | [] => []
  | c :: s' => if isSpace c then trimStart s' else s
  end.

Definition trimEnd (s : jsstring) : jsstring := rev (trimStart (rev s)).

Definition trim (s : jsstring) : jsstring := trimEnd (trimStart s).

Fixpoint startsWith (p s : jsstring) : bool :=
  match p, s with
  | [], _ => true
  | x :: p', y :: s' => (x =? y) && startsWith p' s'
  | _ :: _, [] => false
  end.

(** [hay.includes(needle)] *)
Fixpoint includes (needle hay : jsstring) : bool :=
  startsWith needle hay
  || match hay with
     | [] => false
     | _ :: hay' => includes needle hay'
     end.

(** [s.split('').join(' ')] *)
Fixpoint splitJoinSpace (s : jsstring) : jsstring :=
  match s with
  | [] => []
  | [c] => [c]
  | c :: s' => c :: SPACE :: splitJoinSpace s'
  end.

(** [s.replace(/\bWORD\b/g, BY)] for a non-empty WORD made of word
    characters.  The scan goes left to right; a match at a position needs a
    word boundary before it (the previous code unit of the subject is not a
    word character, or there is none) and one after it.  After a match the
    scan resumes behind it: [skip] counts the code units of the match still to
    pass over. *)
Definition boundaryAfter (rest : jsstring) : bool :=
  match rest with
  | [] => true
  | c :: _ => negb (isWordChar c)
  end.

Definition boundaryBefore (prev : option codeunit) : bool :=
  match prev with
  | None => true
  | Some c => negb (isWordChar c)
  end.

Definition wordAt (word : jsstring) (prev : option codeunit) (s : jsstring) : bool :=
  boundaryBefore prev && startsWith word s
  && boundaryAfter (skipn (List.length word) s).

Fixpoint replaceWordFrom (word by_ : jsstring) (skip : nat)
  (prev : option codeunit) (s : jsstring) : jsstring :=
  match s with
  | [] => []
  | c :: s' =>
      match skip with
      | S k => replaceWordFrom word by_ k (Some c) s'
      | O =>
          if wordAt word prev s
          then by_ ++ replaceWordFrom word by_ (List.length word - 1) (Some c) s'
          else c :: replaceWordFrom word by_ 0 (Some c) s'
      end
  end.

Definition replaceWord (word by_ s : jsstring) : jsstring :=
  replaceWordFrom word by_ 0 None s.

(** [s.replace(/\s+/g, '')] *)
Definition removeSpaces (s : jsstring) : jsstring :=
  filter (fun c => negb (isSpace c)) s.

(** [s.replace(/[\n\r]/g, ' ')] *)
Definition newlinesToSpaces (s : jsstring) : jsstring :=
  map (fun c => if (c =? 10) || (c =? 13) then SPACE else c) s.

(** Lower-casing of the ASCII letters; the concrete environments below use it
    for [String.prototype.toLowerCase]. *)
Definition asciiLower (s : jsstring) : jsstring :=
  map (fun c => if (65 <=? c) && (c <=? 90) then c + 32 else c) s.

End JsString.
Import JsString.

(** ** Regular expressions over code-unit classes

    The pattern of [validateEmail] is kept as a term; [RegExp.prototype.test]
    on an anchored pattern is membership of the whole subject in the
    pattern's language, decided here with derivatives. *)

Module Regex.

Inductive regex : Type :=
| Empty : regex
| Eps : regex
| Class : (codeunit -> bool) -> regex
| Cat : regex -> regex -> regex
| Alt : regex -> regex -> regex
| Star : regex -> regex.

Definition Plus (r : regex) : regex := Cat r (Star r).
Definition Lit (c : codeunit) : regex := Class (N.eqb c).

Fixpoint nullable (r : regex) : bool :=
  match r with
  | Empty => false
  | Eps => true
  | Class _ => false
  | Cat a b => nullable a && nullable b
  | Alt a b => nullable a || nullable b
  | Star _ => true
  end.

Fixpoint deriv (c : codeunit) (r : regex) : regex :=
  match r with
  | Empty => Empty
  | Eps => Empty
  | Class p => if p c then Eps else Empty
  | Cat a b =>
      if nullable a
      then Alt (Cat (deriv c a) b) (deriv c b)
      else Cat (deriv c a) b
  | Alt a b => Alt (deriv c a) (deriv c b)
  | Star a => Cat (deriv c a) (Star a)
  end.

(** [/^r$/.test(s)] *)
Fixpoint test (r : regex) (s : jsstring) : bool :=
  match s with
  | [] => nullable r
  | c :: s' => test (deriv c r) s'
  end.

(** The language of a pattern. *)
Inductive lang : regex -> jsstring -> Prop :=
| lang_eps : lang Eps []
| lang_class p c : p c = true -> lang (Class p) [c]
| lang_cat a b s t : lang a s -> lang b t -> lang (Cat a b) (s ++ t)
| lang_alt_l a b s : lang a s -> lang (Alt a b) s
| lang_alt_r a b s : lang b s -> lang (Alt a b) s
| lang_star_nil a : lang (Star a) []
| lang_star_cons a s t : lang a s -> lang (Star a) t -> lang (Star a) (s ++ t).

End Regex.

(** ** E-mail reconstruction and validation (index.js, 897-925) *)

Module Email.

Import Regex.

(** [[^\s@]] *)
Definition notSpaceNorAt (c : codeunit) : bool :=
  negb (isSpace c || N.eqb c AT_SIGN).

(** [/^[^\s@]+@[^\s@]+\.[^\s@]+$/] *)
Definition emailPattern : regex :=
  Cat (Plus (Class notSpaceNorAt))
    (Cat (Lit AT_SIGN)
      (Cat (Plus (Class notSpaceNorAt))
        (Cat (Lit FULL_STOP) (Plus (Class notSpaceNorAt))))).

Definition validateEmail (email : jsstring) : bool := test emailPattern email.

Section Reconstruct.

(** [String.prototype.toLowerCase], which is the engine's. *)
Variable toLowerCase : jsstring -> jsstring.

Definition reconstructEmail (spelledOutEmail : jsstring) : jsstring :=
  let email := toLowerCase spelledOutEmail in
  removeSpaces
    (replaceWord (js "dot") [FULL_STOP] (replaceWord (js "at") [AT_SIGN] email)).

End Reconstruct.

Definition spellOutEmail (email : jsstring) : jsstring := splitJoinSpace email.

(** The shape that the pattern accepts: three non-empty parts, each free of
    white space and of ['@'], joined by ['@'] and ['.']. *)
Definition part (s : jsstring) : Prop :=
  s <> [] /\ Forall (fun c => isSpace c = false /\ c <> AT_SIGN) s.

Definition emailShape (s : jsstring) : Prop :=
  exists local domain tld,
    part local /\ part domain /\ part tld
    /\ s = local ++ [AT_SIGN] ++ domain ++ [FULL_STOP] ++ tld.

End Email.

(** *** The reconstruction in the specification's words

    The words of a text are its maximal runs of word characters; every other
    code unit stands by itself.  The reconstruction lower-cases the text,
    puts ['@'] for each word [at] and ['.'] for each word [dot], and drops
    the white space. *)

Module Spelled.

(** A word character joins the word that follows it, if one does. *)
Definition joinWord (c : codeunit) (next : option codeunit)
  (ts : list jsstring) : list jsstring :=
  match next, ts with
  | Some d, t :: ts' => if isWordChar d then (c :: t) :: ts' else [c] :: ts
  | _, _ => [c] :: ts
  end.

Fixpoint tokens (s : jsstring) : list jsstring :=
  match s with
  | [] => []
  | c :: s' =>
      if isWordChar c
      then joinWord c (hd_error s') (tokens s')
      else [c] :: tokens s'
  end.

Definition substitute (word by_ token : jsstring) : jsstring :=
  if jseqb token word then by_ else token.

Definition spelledToken (token : jsstring) : jsstring :=
  if jseqb token (js "at") then [AT_SIGN]
  else if jseqb token (js "dot") then [FULL_STOP]
  else token.

Definition reconstruction (toLowerCase : jsstring -> jsstring)
  (spelledOutEmail : jsstring) : jsstring :=
  removeSpaces (List.concat (map spelledToken (tokens (toLowerCase spelledOutEmail)))).

(** The shape [local@domain.tld] with the local part alone barred from white
    space and from ['@'], the domain and the top-level part being any
    non-empty texts. *)
Definition shapeWithAnyDomain (s : jsstring) : Prop :=
  exists local domain tld,
    Email.part local /\ domain <> [] /\ tld <> []
    /\ s = local ++ [AT_SIGN] ++ domain ++ [FULL_STOP] ++ tld.

End Spelled.

Example reconstruct_john :
  Email.reconstructEmail asciiLower (js "J o h n at Example dot com")
  = js "john@example.com".
Proof. reflexivity. Qed.

Example validate_john : Email.validateEmail (js "john@example.com") = true.
Proof. reflexivity. Qed.

Example validate_two_ats : Email.validateEmail (js "a@b@c.d") = false.
Proof. reflexivity. Qed.

Example reconstruct_inner_at :
  Email.reconstructEmail asciiLower (js "pat at cat dot at") = js "pat@cat.@".
Proof. reflexivity. Qed.

(** ** Exceptions and results of a call *)

Inductive Err : Type :=
| Undefined
| SyntaxError
| TypeError
| RangeError
| ReferenceError
| ErrorObject (message : jsstring).

Inductive Res (A : Type) : Type :=
| Ok (a : A)
| Throw (e : Err).
Arguments Ok {A} a.
Arguments Throw {A} e.

(** ** The retry adapter (index.js, 164-190) *)

Module Retry.

Record Options : Type := {
  maxRetries : nat;
  baseDelay : Z;
  maxDelay : Z }.

Definition RETRY_OPTIONS : Options :=
  {| maxRetries := 3; baseDelay := 1000; maxDelay := 5000 |}.

Section WithRetry.

(** The state the operation works on, its result, and what it reports of
    its own doing. *)
Variables (S A Ev : Type).

(** What the adapter does, in order.  [Attempt k s] marks the [k]-th call
    [operation()], made on the state [s]; [Failed] is the console entry of the
    [catch] block; [Wait] is the awaited timer. *)
Inductive RetryEvent : Type :=
| Attempt (k : nat) (s : S)
| OfOperation (e : Ev)
| Failed (k : nat) (total : nat) (error : Err)
| Wait (delay : Z).

Variable operation : S -> Res A * S * list Ev.
Variable options : Options.

(** [Math.min(options.baseDelay * Math.pow(2, i), options.maxDelay)] *)
Definition delayAfter (i : nat) : Z :=
  Z.min (baseDelay options * 2 ^ Z.of_nat i) (maxDelay options).

(** The [for] loop from the index [i] on, with [n] iterations left. *)
Fixpoint retryLoop (n i : nat) (lastError : Err) (s : S)
  : Res A * S * list RetryEvent :=
  match n with
  | O => (Throw lastError, s, [])
  | Datatypes.S n' =>
      let '(r, s1, evs) := operation s in
      let called := Attempt (Datatypes.S i) s :: map OfOperation evs in
      match r with
      | Ok a => (Ok a, s1, called)
      | Throw error =>
          let logged := [Failed (Datatypes.S i) (maxRetries options) error] in
          let waited :=
            if (Z.of_nat i <? Z.of_nat (maxRetries options) - 1)%Z
            then [Wait (delayAfter i)] else [] in
          let '(r', s2, rest) := retryLoop n' (Datatypes.S i) error s1 in
          (r', s2, called ++ logged ++ waited ++ rest)
      end
  end.

Definition withRetry (s : S) : Res A * S * list RetryEvent :=
  retryLoop (maxRetries options) 0 Undefined s.

(** The numbers of the calls made, in order. *)
Fixpoint attemptsOf (evs : list RetryEvent) : list nat :=
  match evs with
  | [] => []
  | Attempt k _ :: evs' => k :: attemptsOf evs'
  | _ :: evs' => attemptsOf evs'
  end.

Definition isAttempt (e : RetryEvent) : bool :=
  match e with
  | Attempt _ _ => true
  | _ => false
  end.

(** The delay the specification gives for the wait before call [k], [k >= 2]. *)
Definition specDelay (k : nat) : Z :=
  Z.min (baseDelay options * 2 ^ (Z.of_nat k - 2)) (maxDelay options).

End WithRetry.

Arguments Attempt {S Ev} k s.
Arguments OfOperation {S Ev} e.
Arguments Failed {S Ev} k total error.
Arguments Wait {S Ev} delay.
Arguments isAttempt {S Ev} e.

End Retry.

(** ** Data of the bridge *)

Inductive BookingState : Type :=
| idle
| awaiting_time
| awaiting_email
| confirm_email
| confirm_existing_email.

Inductive ReadyState : Type := CONNECTING | OPEN | CLOSING | CLOSED.

(** The fields the bridge keeps on the model connection's socket object
    (index.js, 243-253, and [callSid], 737). *)
Record Session : Type := {
  fullDialogue : jsstring;
  awaitingName : bool;
  phoneNumber : option jsstring;
  lastUserMessage : option jsstring;
  conversationId : option jsstring;
  sessionReady : bool;
  sendingFunctionCallOutput : bool;
  bookingState : BookingState;
  preferred_time : option jsstring;
  email : option jsstring;
  callSid : option jsstring;
  readyState : ReadyState }.

Inductive Field : Type :=
| F_fullDialogue
| F_phoneNumber
| F_lastUserMessage
| F_conversationId
| F_sessionReady
| F_sendingFunctionCallOutput
| F_bookingState
| F_preferred_time
| F_email
| F_callSid
| F_readyState.

Record User : Type := {
  user_name : option jsstring;
  user_email : option jsstring }.

Record Conversation : Type := {
  conversation_id : option jsstring;
  summary : option jsstring }.

(** The part of the calendar event that depends on the call. *)
Record CalendarEvent : Type := {
  start_dateTime : jsstring;
  end_dateTime : jsstring;
  attendee_email : option jsstring;
  requestId : jsstring }.

(** [response.status] and [response.data.id] of [calendar.events.insert]. *)
Record InsertResponse : Type := {
  status : Z;
  data_id : option jsstring }.

(** A chat completion: [response.ok], and [choices[0].message.content] of
    its body, whose reading throws when the body has another shape. *)
Record ChatResponse : Type := {
  ok : bool;
  message_content : Res jsstring }.

(** Frames the bridge sends to the model connection. *)
Inductive OpenAiFrame : Type :=
| session_update
| response_cancel
| item_create_assistant (content : jsstring)
| item_create_function_call_output (output : jsstring)
| response_create (instructions : jsstring) (temperature_tenths max_output_tokens : Z)
| input_audio_buffer_append (audio : option jsstring).

(** Frames the bridge sends to the telephony connection. *)
Inductive TwilioFrame : Type :=
| twilio_clear (streamSid : option jsstring)
| twilio_media (streamSid : option jsstring) (payload : jsstring).

(** External operations. *)
Inductive Operation : Type :=
| op_dbCreateOrGetUser
| op_dbUpdateUserName
| op_dbUpdateUserEmail
| op_dbCreateConversation
| op_dbUpdateConversation
| op_dbFinalizeConversation
| op_dbGetLastConversation
| op_dbCreateBooking
| op_dbUpdateBookingState
| op_extractEmailFromSummary
| op_calendarEventsInsert
| op_twilioCallFetch
| op_askSupabaseAssistant
| op_fetchSummary
| op_fetchUserName
| op_uuidv4.

Inductive Effect : Type :=
| ToOpenAi (f : OpenAiFrame)
| ToTwilio (f : TwilioFrame)
| CloseOpenAi
| Invoke (op : Operation)
| Delay (ms : Z)
| ConsoleLog (text : string)
| ConsoleError (text : string)
| Assign (f : Field) (before after : Session).

(** ** Inbound events *)

(** What [JSON.parse] makes of a raw frame: it throws, or yields [null], or
    a value whose properties can be read. *)
Inductive Parsed (A : Type) : Type :=
| unparseable
| json_null
| json_value (v : A).
Arguments unparseable {A}.
Arguments json_null {A}.
Arguments json_value {A} v.

(** A model event.  A property is [None] when the object has none of that
    name, and a string otherwise.  [arguments] is kept with what the inner
    [JSON.parse(response.arguments)] makes of it ([unparseable] also when the
    property is missing). *)
Record FunctionArgs : Type := {
  question : option jsstring;
  arg_preferred_time : option jsstring;
  arg_email : option jsstring }.

Record Message : Type := {
  type : option jsstring;
  name : option jsstring;
  arguments : Parsed FunctionArgs;
  delta : option jsstring;
  content : option jsstring;
  transcript : option jsstring }.

(** A telephony event: [data.event], [data.media] with its [payload], and
    [data.start]. *)
Record StartInfo : Type := {
  start_streamSid : option jsstring;
  start_callSid : option jsstring }.

Record TwilioMessage : Type := {
  event : option jsstring;
  media : option (option jsstring);
  start : option StartInfo }.

(** ** The collaborators of the bridge

    The storage functions of database-utils.js, the calendar, the telephony
    API, the chat-completion endpoint, the knowledge lookup, the date parser
    and the engine's own string and date functions.  [Ext] is the state of
    the outside world; an operation may change it and may throw. *)

Record Env : Type := {
  Ext : Type;
  toLowerCase : jsstring -> jsstring;
  chrono_parseDate : Ext -> option jsstring -> Res (option Z);
  Date_parse : jsstring -> option Z;
  toISOString : Z -> jsstring;
  uuidv4 : Ext -> jsstring * Ext;
  dbCreateOrGetUser : option jsstring -> Ext -> Res (option User) * Ext;
  dbUpdateUserName : option jsstring -> jsstring -> Ext -> Res unit * Ext;
  dbUpdateUserEmail : option jsstring -> option jsstring -> Ext -> Res unit * Ext;
  dbCreateConversation :
    option jsstring -> jsstring -> Ext -> Res (option Conversation) * Ext;
  dbUpdateConversation :
    option jsstring -> jsstring -> option jsstring -> Ext -> Res unit * Ext;
  dbFinalizeConversation :
    option jsstring -> jsstring -> jsstring -> Ext -> Res unit * Ext;
  dbGetLastConversation : option jsstring -> Ext -> Res (option Conversation) * Ext;
  dbCreateBooking :
    option jsstring -> option jsstring -> option jsstring -> jsstring
    -> option jsstring -> Ext -> Res bool * Ext;
  dbUpdateBookingState : option jsstring -> BookingState -> Ext -> Res unit * Ext;
  extractEmailFromSummary : jsstring -> Ext -> Res (option jsstring) * Ext;
  calendar_events_insert : CalendarEvent -> Ext -> Res InsertResponse * Ext;
  twilio_calls_fetch_from : jsstring -> Ext -> Res (option jsstring) * Ext;
  askSupabaseAssistant : option jsstring -> Ext -> option jsstring * Ext;
  fetchChatCompletion : Operation -> jsstring -> Ext -> Res ChatResponse * Ext;
  (** The text of the returning caller's greeting, from the stored name and
      the summary of the last conversation ([summarizeLastTopic] and the two
      [replace] calls on the template). *)
  returningUserPrompt : jsstring -> option jsstring -> jsstring }.

(** ** Truthiness and string conversion *)

Definition truthy (v : option jsstring) : bool :=
  match v with
  | Some (_ :: _) => true
  | _ => false
  end.

(** A value inside a template literal. *)
Definition toString (v : option jsstring) : jsstring :=
  match v with
  | Some s => s
  | None => js "undefined"
  end.

(** [new Date(t)] keeps a time value only within 8.64e15 ms of the epoch. *)
Definition timeClip (t : Z) : option Z :=
  if (Z.abs t <=? 8640000000000000)%Z then Some t else None.

Definition LOG_EVENT_TYPES : list jsstring :=
  [ js "response.content.done";
    js "response.function_call_arguments.done";
    js "input_audio_buffer.committed";
    js "input_audio_buffer.speech_stopped";
    js "input_audio_buffer.speech_started";
    js "session.created";
    js "response.audio_transcript.done" ].

(** [response.type === t] *)
Definition typeIs (response : Message) (t : string) : bool :=
  match type response with
  | Some x => jseqb x (js t)
  | None => false
  end.

Definition nameIs (response : Message) (t : string) : bool :=
  match name response with
  | Some x => jseqb x (js t)
  | None => false
  end.

(** [data.event === t] *)
Definition eventIs (data : TwilioMessage) (t : string) : bool :=
  match event data with
  | Some x => jseqb x (js t)
  | None => false
  end.

(** ** Assignments to the session *)

Definition set_fullDialogue (v : jsstring) (s : Session) : Session :=
  {| fullDialogue := v; awaitingName := awaitingName s;
     phoneNumber := phoneNumber s; lastUserMessage := lastUserMessage s;
     conversationId := conversationId s; sessionReady := sessionReady s;
     sendingFunctionCallOutput := sendingFunctionCallOutput s;
     bookingState := bookingState s; preferred_time := preferred_time s;
     email := email s; callSid := callSid s; readyState := readyState s |}.

Definition set_phoneNumber (v : option jsstring) (s : Session) : Session :=
  {| fullDialogue := fullDialogue s; awaitingName := awaitingName s;
     phoneNumber := v; lastUserMessage := lastUserMessage s;
     conversationId := conversationId s; sessionReady := sessionReady s;
     sendingFunctionCallOutput := sendingFunctionCallOutput s;
     bookingState := bookingState s; preferred_time := preferred_time s;
     email := email s; callSid := callSid s; readyState := readyState s |}.

Definition set_lastUserMessage (v : option jsstring) (s : Session) : Session :=
  {| fullDialogue := fullDialogue s; awaitingName := awaitingName s;
     phoneNumber := phoneNumber s; lastUserMessage := v;
     conversationId := conversationId s; sessionReady := sessionReady s;
     sendingFunctionCallOutput := sendingFunctionCallOutput s;
     bookingState := bookingState s; preferred_time := preferred_time s;
     email := email s; callSid := callSid s; readyState := readyState s |}.

Definition set_conversationId (v : option jsstring) (s : Session) : Session :=
  {| fullDialogue := fullDialogue s; awaitingName := awaitingName s;
     phoneNumber := phoneNumber s; lastUserMessage := lastUserMessage s;
     conversationId := v; sessionReady := sessionReady s;
     sendingFunctionCallOutput := sendingFunctionCallOutput s;
     bookingState := bookingState s; preferred_time := preferred_time s;
     email := email s; callSid := callSid s; readyState := readyState s |}.

Definition set_sessionReady (v : bool) (s : Session) : Session :=
  {| fullDialogue := fullDialogue s; awaitingName := awaitingName s;
     phoneNumber := phoneNumber s; lastUserMessage := lastUserMessage s;
     conversationId := conversationId s; sessionReady := v;
     sendingFunctionCallOutput := sendingFunctionCallOutput s;
     bookingState := bookingState s; preferred_time := preferred_time s;
     email := email s; callSid := callSid s; readyState := readyState s |}.

Definition set_sendingFunctionCallOutput (v : bool) (s : Session) : Session :=
  {| fullDialogue := fullDialogue s; awaitingName := awaitingName s;
     phoneNumber := phoneNumber s; lastUserMessage := lastUserMessage s;
     conversationId := conversationId s; sessionReady := sessionReady s;
     sendingFunctionCallOutput := v;
     bookingState := bookingState s; preferred_time := preferred_time s;
     email := email s; callSid := callSid s; readyState := readyState s |}.

Definition set_bookingState (v : BookingState) (s : Session) : Session :=
  {| fullDialogue := fullDialogue s; awaitingName := awaitingName s;
     phoneNumber := phoneNumber s; lastUserMessage := lastUserMessage s;
     conversationId := conversationId s; sessionReady := sessionReady s;
     sendingFunctionCallOutput := sendingFunctionCallOutput s;
     bookingState := v; preferred_time := preferred_time s;
     email := email s; callSid := callSid s; readyState := readyState s |}.

Definition set_preferred_time (v : option jsstring) (s : Session) : Session :=
  {| fullDialogue := fullDialogue s; awaitingName := awaitingName s;
     phoneNumber := phoneNumber s; lastUserMessage := lastUserMessage s;
     conversationId := conversationId s; sessionReady := sessionReady s;
     sendingFunctionCallOutput := sendingFunctionCallOutput s;
     bookingState := bookingState s; preferred_time := v;
     email := email s; callSid := callSid s; readyState := readyState s |}.

Definition set_email (v : option jsstring) (s : Session) : Session :=
  {| fullDialogue := fullDialogue s; awaitingName := awaitingName s;
     phoneNumber := phoneNumber s; lastUserMessage := lastUserMessage s;
     conversationId := conversationId s; sessionReady := sessionReady s;
     sendingFunctionCallOutput := sendingFunctionCallOutput s;
     bookingState := bookingState s; preferred_time := preferred_time s;
     email := v; callSid := callSid s; readyState := readyState s |}.

Definition set_callSid (v : option jsstring) (s : Session) : Session :=
  {| fullDialogue := fullDialogue s; awaitingName := awaitingName s;
     phoneNumber := phoneNumber s; lastUserMessage := lastUserMessage s;
     conversationId := conversationId s; sessionReady := sessionReady s;
     sendingFunctionCallOutput := sendingFunctionCallOutput s;
     bookingState := bookingState s; preferred_time := preferred_time s;
     email := email s; callSid := v; readyState := readyState s |}.

Definition set_readyState (v : ReadyState) (s : Session) : Session :=
  {| fullDialogue := fullDialogue s; awaitingName := awaitingName s;
     phoneNumber := phoneNumber s; lastUserMessage := lastUserMessage s;
     conversationId := conversationId s; sessionReady := sessionReady s;
     sendingFunctionCallOutput := sendingFunctionCallOutput s;
     bookingState := bookingState s; preferred_time := preferred_time s;
     email := email s; callSid := callSid s; readyState := v |}.

(** [initializeOpenAiWebSocket] (index.js, 233-257): the fresh session. *)
Definition initialSession : Session :=
  {| fullDialogue := []; awaitingName := true; phoneNumber := None;
     lastUserMessage := None; conversationId := None; sessionReady := false;
     sendingFunctionCallOutput := false; bookingState := idle;
     preferred_time := None; email := None; callSid := None;
     readyState := CONNECTING |}.

(** ** Fixed texts *)

Definition QUOTE : codeunit := 34%N.
Definition E_ACUTE : codeunit := 233%N.

Definition NEW_USER_PROMPT : jsstring :=
  js "You are Marcus, a friendly Pok" ++ [E_ACUTE]
  ++ js "mon trainer AI assistant. Introduce yourself briefly and ask for the user's name.".

Definition checkingMessage : jsstring :=
  js "Give me a second, I'm checking my knowledge.".

Definition fallbackMessage : jsstring :=
  js "I'm sorry, I couldn't access the knowledge base at this time.".

Definition summaryInstructions (answer : jsstring) : jsstring :=
  js "Based on the knowledge base, provide a concise summary of the following information: "
  ++ answer.

Definition bookedPrompt : jsstring :=
  js "Your training session has been booked successfully! I've sent the meeting details to your email. Looking forward to your training session!".

Definition bookedPromptExisting : jsstring := js "Perfect! " ++ bookedPrompt.

Definition bookingFailedPrompt : jsstring :=
  js "I'm sorry, I encountered an issue while booking your training session. Please try again later.".

Definition timeNotUnderstoodPrompt : jsstring :=
  js "I'm sorry, I couldn't understand the time you provided. Could you please specify a different time that suits you?".

Definition invalidEmailPrompt : jsstring :=
  js "The email address you provided doesn't seem to be valid. Could you please spell it out again?".

Definition suitableTimePrompt : jsstring :=
  js "Sure! I'd be happy to book a training session for you. What time would suit you best for the training session?".

Definition storedEmailPrompt (spelled : jsstring) : jsstring :=
  js "I see that I have your email address on file (" ++ spelled
  ++ js "). Would you like me to use this email for the booking? Please say yes or no.".

Definition newEmailPrompt : jsstring :=
  js "Please provide your email address so I can send you the meeting details. Please spell it out for me.".

Definition confirmEmailPrompt (spelled : jsstring) : jsstring :=
  js "Thank you! Just to confirm, your email address is spelled as: " ++ spelled
  ++ js ". Is that correct? Please say " ++ [QUOTE] ++ js "yes" ++ [QUOTE]
  ++ js " or " ++ [QUOTE] ++ js "no" ++ [QUOTE] ++ js ".".

Definition anotherEmailPrompt : jsstring :=
  js "No problem! Please spell out the email address you'd like to use for this booking.".

(** ** The bridge *)

Set Maximal Implicit Insertion.

Section Bridge.

Variable E : Env.

(** One call: the session on the model connection's socket, the two locals
    of the media-stream route, and the outside world. *)
Record World : Type := {
  openAiWs : Session;
  streamSid : option jsstring;
  route_callSid : option jsstring;
  external : Ext E }.

Definition with_session (s : Session) (w : World) : World :=
  {| openAiWs := s; streamSid := streamSid w;
     route_callSid := route_callSid w; external := external w |}.

Definition with_external (x : Ext E) (w : World) : World :=
  {| openAiWs := openAiWs w; streamSid := streamSid w;
     route_callSid := route_callSid w; external := x |}.

(** *** Computations: state, exceptions and the effects in order *)

Definition M (A : Type) : Type := World -> Res A * World * list Effect.

Definition ret {A} (a : A) : M A := fun w => (Ok a, w, []).

Definition throw {A} (e : Err) : M A := fun w => (Throw e, w, []).

Definition bind {A B} (m : M A) (k : A -> M B) : M B :=
  fun w =>
    let '(r, w1, o1) := m w in
    match r with
    | Ok a => let '(r2, w2, o2) := k a w1 in (r2, w2, o1 ++ o2)
    | Throw e => (Throw e, w1, o1)
    end.

(** [try { m } catch (error) { handler }] *)
Definition tryCatch {A} (m : M A) (handler : Err -> M A) : M A :=
  fun w =>
    let '(r, w1, o1) := m w in
    match r with
    | Ok a => (Ok a, w1, o1)
    | Throw e => let '(r2, w2, o2) := handler e w1 in (r2, w2, o1 ++ o2)
    end.

Notation "x <- m ;; k" := (bind m (fun x => k))
  (at level 61, m at next level, right associativity).
Notation "m ;; k" := (bind m (fun _ => k))
  (at level 61, right associativity).

Definition emit (e : Effect) : M unit := fun w => (Ok tt, w, [e]).

Definition when (b : bool) (m : M unit) : M unit := if b then m else ret tt.

Definition getSession : M Session := fun w => (Ok (openAiWs w), w, []).

Definition getStreamSid : M (option jsstring) := fun w => (Ok (streamSid w), w, []).

Definition getExternal : M (Ext E) := fun w => (Ok (external w), w, []).

(** [openAiWs.f = v] *)
Definition assign (f : Field) (update : Session -> Session) : M unit :=
  fun w =>
    let s := openAiWs w in
    (Ok tt, with_session (update s) w, [Assign f s (update s)]).

Definition console_log (text : string) : M unit := emit (ConsoleLog text).
Definition console_error (text : string) : M unit := emit (ConsoleError text).
Definition openAiWs_send (f : OpenAiFrame) : M unit := emit (ToOpenAi f).
Definition connection_send (f : TwilioFrame) : M unit := emit (ToTwilio f).

(** A call of a collaborator. *)
Definition invoke {A} (op : Operation) (f : Ext E -> Res A * Ext E) : M A :=
  fun w =>
    let '(r, x) := f (external w) in
    (r, with_external x w, [Invoke op]).

(** *** The retry adapter on the bridge's computations *)

Definition ofRetryEvent (e : Retry.RetryEvent World Effect) : list Effect :=
  match e with
  | Retry.Attempt _ _ => []
  | Retry.OfOperation e' => [e']
  | Retry.Failed _ _ _ => [ConsoleError "Operation failed"]
  | Retry.Wait d => [Delay d]
  end.

Definition withRetry {A} (operation : M A) : M A :=
  fun w =>
    let '(r, w', evs) := Retry.withRetry operation Retry.RETRY_OPTIONS w in
    (r, w', flat_map ofRetryEvent evs).

Definition createOrGetUserWithRetry (phoneNumber : option jsstring) : M (option User) :=
  withRetry (invoke op_dbCreateOrGetUser (dbCreateOrGetUser E phoneNumber)).

Definition updateUserNameWithRetry (phoneNumber : option jsstring) (n : jsstring) : M unit :=
  withRetry (invoke op_dbUpdateUserName (dbUpdateUserName E phoneNumber n)).

Definition updateUserEmailWithRetry (phoneNumber : option jsstring)
  (e : option jsstring) : M unit :=
  withRetry (invoke op_dbUpdateUserEmail (dbUpdateUserEmail E phoneNumber e)).

Definition createConversationWithRetry (phoneNumber : option jsstring)
  (sid : jsstring) : M (option Conversation) :=
  withRetry (invoke op_dbCreateConversation (dbCreateConversation E phoneNumber sid)).

Definition updateConversationWithRetry (id : option jsstring)
  (last_question : jsstring) (last_answer : option jsstring) : M unit :=
  withRetry (invoke op_dbUpdateConversation
               (dbUpdateConversation E id last_question last_answer)).

Definition finalizeConversationInDbWithRetry (id : option jsstring)
  (dialogue summary_ : jsstring) : M unit :=
  withRetry (invoke op_dbFinalizeConversation
               (dbFinalizeConversation E id dialogue summary_)).

Definition getLastConversationWithRetry (phoneNumber : option jsstring)
  : M (option Conversation) :=
  withRetry (invoke op_dbGetLastConversation (dbGetLastConversation E phoneNumber)).

Definition createBookingWithRetry (phoneNumber id eventId : option jsstring)
  (time : jsstring) (e : option jsstring) : M bool :=
  withRetry (invoke op_dbCreateBooking (dbCreateBooking E phoneNumber id eventId time e)).

Definition updateBookingStateWithRetry (phoneNumber : option jsstring)
  (state : BookingState) : M unit :=
  withRetry (invoke op_dbUpdateBookingState (dbUpdateBookingState E phoneNumber state)).

(** *** Small helpers of index.js *)

(** [sanitizeInput] (662-665) *)
Definition sanitizeInput (input : jsstring) : jsstring :=
  trim (newlinesToSpaces input).

(** [parseUserTime] (888-895) *)
Definition parseUserTime (userInput : option jsstring) : M (option jsstring) :=
  x <- getExternal ;;
  match chrono_parseDate E x userInput with
  | Throw e => throw e
  | Ok (Some parsedDate) => ret (Some (toISOString E parsedDate))
  | Ok None => ret None
  end.

Definition reconstructEmail (spelledOutEmail : jsstring) : jsstring :=
  Email.reconstructEmail (toLowerCase E) spelledOutEmail.

(** A method call on a property that may be missing throws a TypeError. *)
Definition required (v : option jsstring) : M jsstring :=
  match v with
  | Some s => ret s
  | None => throw TypeError
  end.

(** [date.toISOString()], a RangeError on an invalid date. *)
Definition isoString (date : option Z) : M jsstring :=
  match date with
  | Some t => ret (toISOString E t)
  | None => throw RangeError
  end.

Definition sendPrompt (prompt : jsstring) : M unit :=
  openAiWs_send (response_create prompt 7 150).

(** [updateLastConversation] (260-274) *)
Definition updateLastConversation (question answer : option jsstring) : M unit :=
  ws <- getSession ;;
  if negb (truthy (conversationId ws))
  then console_error "No conversation ID available"
  else
    console_log "Updating conversation for" ;;
    console_log "Question:" ;;
    console_log "Answer:" ;;
    updateConversationWithRetry (conversationId ws)
      (if truthy question then toString question else js "No question") answer.

(** [sendSessionUpdate] (277-337) *)
Definition sendSessionUpdate : M unit :=
  console_log "Sending session update:" ;;
  openAiWs_send session_update.

(** [sendUserMessage] (815-829) *)
Definition sendUserMessage (prompt : jsstring) : M unit :=
  console_log "Sending AI prompt:" ;;
  openAiWs_send (response_create prompt 7 300).

(** [handleIncomingCall] (758-812) *)
Definition handleIncomingCall (sid : option jsstring) : M unit :=
  match sid with
  | None | Some [] => console_error "Call SID is undefined"
  | Some sid' =>
      tryCatch
        (phone <- invoke op_twilioCallFetch (twilio_calls_fetch_from E sid') ;;
         assign F_phoneNumber (set_phoneNumber phone) ;;
         user <- createOrGetUserWithRetry phone ;;
         match user with
         | None => throw (ErrorObject (js "Failed to create or get user"))
         | Some user' =>
             conversation <- createConversationWithRetry phone sid' ;;
             match conversation with
             | None => throw (ErrorObject (js "Failed to create conversation"))
             | Some conversation' =>
                 assign F_conversationId
                   (set_conversationId (conversation_id conversation')) ;;
                 console_log "Handling incoming call from" ;;
                 lastConversation <- getLastConversationWithRetry phone ;;
                 console_log "Last conversation data:" ;;
                 console_log "User details:" ;;
                 if truthy (user_name user')
                 then
                   console_log "Generated returning user prompt:" ;;
                   sendUserMessage
                     (returningUserPrompt E (toString (user_name user'))
                        (match lastConversation with
                         | Some c => summary c
                         | None => None
                         end))
                 else
                   console_log "Generated new user prompt:" ;;
                   sendUserMessage NEW_USER_PROMPT
             end
         end)
        (fun _ => console_error "Error handling incoming call:")
  end.

(** *** The booking dialogue *)

(** [askForSuitableTime] (929-943) *)
Definition askForSuitableTime : M unit :=
  sendPrompt suitableTimePrompt ;;
  assign F_bookingState (set_bookingState awaiting_time) ;;
  ws <- getSession ;;
  updateBookingStateWithRetry (phoneNumber ws) awaiting_time.

(** [askForEmail] (946-996) *)
Definition askForEmail : M unit :=
  tryCatch
    (ws <- getSession ;;
     user <- createOrGetUserWithRetry (phoneNumber ws) ;;
     match user with
     | Some user' =>
         if truthy (user_email user')
         then
           sendPrompt
             (storedEmailPrompt (Email.spellOutEmail (toString (user_email user')))) ;;
           assign F_email (set_email (user_email user')) ;;
           assign F_bookingState (set_bookingState confirm_existing_email)
         else
           sendPrompt newEmailPrompt ;;
           assign F_bookingState (set_bookingState awaiting_email)
     | None =>
         sendPrompt newEmailPrompt ;;
         assign F_bookingState (set_bookingState awaiting_email)
     end)
    (fun _ =>
       console_error "Error in askForEmail:" ;;
       sendPrompt newEmailPrompt ;;
       assign F_bookingState (set_bookingState awaiting_email)).

(** [confirmEmail] (999-1013) *)
Definition confirmEmail (e : jsstring) : M unit :=
  openAiWs_send (response_create (confirmEmailPrompt (Email.spellOutEmail e)) 5 150) ;;
  assign F_bookingState (set_bookingState confirm_email) ;;
  ws <- getSession ;;
  updateBookingStateWithRetry (phoneNumber ws) confirm_email.

(** [bookTrainingSession] (1060-1127) *)
Definition bookTrainingSession (preferredTime e : option jsstring) : M bool :=
  tryCatch
    (if negb (truthy preferredTime)
     then console_error "Preferred time is not set." ;; ret false
     else
       let startTime := Date_parse E (toString preferredTime) in
       let endTime :=
         match startTime with
         | Some t => timeClip (t + 30 * 60 * 1000)%Z
         | None => None
         end in
       startIso <- isoString startTime ;;
       endIso <- isoString endTime ;;
       rid <- invoke op_uuidv4 (fun x => let '(u, x') := uuidv4 E x in (Ok u, x')) ;;
       response <- invoke op_calendarEventsInsert
                     (calendar_events_insert E
                        {| start_dateTime := startIso; end_dateTime := endIso;
                           attendee_email := e; requestId := rid |}) ;;
       created <-
         (if (status response =? 200)%Z || (status response =? 201)%Z
          then
            console_log "Event created:" ;;
            ws <- getSession ;;
            startIso' <- isoString startTime ;;
            booking <- createBookingWithRetry (phoneNumber ws) (conversationId ws)
                         (data_id response) startIso' e ;;
            if booking : bool
            then updateUserEmailWithRetry (phoneNumber ws) e ;; ret true
            else ret false
          else ret false) ;;
       if created : bool
       then ret true
       else console_error "Failed to create event:" ;; ret false)
    (fun _ => console_error "Error booking training session:" ;; ret false).

(** The two outcomes of a commit attempt, alike in the three places that make
    one (476-504, 1019-1047, 1257-1285). *)
Definition afterBooking (bookingSuccess : bool) (successPrompt : jsstring) : M unit :=
  (if bookingSuccess
   then sendPrompt successPrompt
   else sendPrompt bookingFailedPrompt) ;;
  assign F_bookingState (set_bookingState idle) ;;
  ws <- getSession ;;
  updateBookingStateWithRetry (phoneNumber ws) idle.

(** [handleEmailConfirmation] (1016-1051) *)
Definition handleEmailConfirmation (confirmation : jsstring)
  (e : option jsstring) : M unit :=
  if jseqb confirmation (js "yes")
  then
    ws <- getSession ;;
    bookingSuccess <- bookTrainingSession (preferred_time ws) e ;;
    afterBooking bookingSuccess bookedPrompt
  else askForEmail.

(** [handleExistingEmailConfirmation] (1253-1302) *)
Definition handleExistingEmailConfirmation (confirmation : jsstring) : M unit :=
  if includes (js "yes") confirmation
  then
    ws <- getSession ;;
    bookingSuccess <- bookTrainingSession (preferred_time ws) (email ws) ;;
    afterBooking bookingSuccess bookedPromptExisting
  else
    sendPrompt anotherEmailPrompt ;;
    assign F_bookingState (set_bookingState awaiting_email) ;;
    ws <- getSession ;;
    updateBookingStateWithRetry (phoneNumber ws) awaiting_email.

(** *** The conversation finalizer *)

(** [extractUserNameFromSummary] (1191-1235) *)
Definition extractUserNameFromSummary (summary_ : jsstring) : M (option jsstring) :=
  tryCatch
    (response <- invoke op_fetchUserName (fetchChatCompletion E op_fetchUserName summary_) ;;
     if negb (ok response)
     then console_error "Error extracting user name:" ;; ret None
     else
       match message_content response with
       | Throw e => throw e
       | Ok text =>
           let extractedName := trim text in
           if jseqb (toLowerCase E extractedName) (js "name not found")
           then ret None
           else console_log "Extracted user name:" ;; ret (Some extractedName)
       end)
    (fun _ => console_error "Error in extractUserNameFromSummary:" ;; ret None).

(** [finalizeConversation] (1130-1184) *)
Definition finalizeConversation : M unit :=
  ws <- getSession ;;
  if negb (truthy (conversationId ws))
  then console_log "No conversation ID, skipping finalization"
  else
    console_log "Finalizing conversation:" ;;
    tryCatch
      (summaryResponse <-
         invoke op_fetchSummary (fetchChatCompletion E op_fetchSummary (fullDialogue ws)) ;;
       if negb (ok summaryResponse)
       then throw (ErrorObject (js "Error generating summary: "))
       else
         match message_content summaryResponse with
         | Throw e => throw e
         | Ok text =>
             let summary_ := trim text in
             extractedName <- extractUserNameFromSummary summary_ ;;
             when (truthy extractedName)
               (updateUserNameWithRetry (phoneNumber ws) (toString extractedName)) ;;
             extractedEmail <-
               invoke op_extractEmailFromSummary (extractEmailFromSummary E summary_) ;;
             when (truthy extractedEmail)
               (updateUserEmailWithRetry (phoneNumber ws) extractedEmail) ;;
             finalizeConversationInDbWithRetry (conversationId ws)
               (fullDialogue ws) summary_
         end)
      (fun _ => console_error "Error finalizing conversation:").

(** *** The event router *)

(** [JSON.parse(response.arguments)] and the first reading of a property of
    the result. *)
Definition parseArguments (response : Message) : M FunctionArgs :=
  match arguments response with
  | unparseable => throw SyntaxError
  | json_null => throw TypeError
  | json_value a => ret a
  end.

(** index.js, 344-347 *)
Definition onSessionCreated : M unit :=
  console_log "Session created:" ;;
  sendSessionUpdate.

(** index.js, 349-357 *)
Definition onSessionUpdated : M unit :=
  console_log "Session updated successfully:" ;;
  assign F_sessionReady (set_sessionReady true) ;;
  ws <- getSession ;;
  if truthy (callSid ws)
  then handleIncomingCall (callSid ws)
  else console_log "Call SID not set, waiting for incoming call".

(** index.js, 360-376: the interruption. *)
Definition onSpeechStarted (sid : option jsstring) : M unit :=
  console_log "Speech Start:" ;;
  connection_send (twilio_clear sid) ;;
  console_log "Cancelling AI speech from the server" ;;
  openAiWs_send response_cancel.

Definition appendDialogue (line : jsstring) : M unit :=
  ws <- getSession ;;
  assign F_fullDialogue (set_fullDialogue (fullDialogue ws ++ line)).

(** index.js, 387-463 *)
Definition onAccessKnowledgeBase (response : Message) : M unit :=
  functionArgs <- parseArguments response ;;
  console_log "AI is accessing knowledge base for question:" ;;
  openAiWs_send (item_create_assistant checkingMessage) ;;
  appendDialogue (js "AI: " ++ checkingMessage ++ [10%N]) ;;
  answer <- invoke op_askSupabaseAssistant
              (fun x => let '(a, x') := askSupabaseAssistant E (question functionArgs) x in
                        (Ok a, x')) ;;
  if truthy answer
  then
    console_log "Sending knowledge base answer to OpenAI:" ;;
    openAiWs_send (item_create_function_call_output (toString answer)) ;;
    openAiWs_send (response_create (summaryInstructions (toString answer)) 7 150) ;;
    console_log "Knowledge base answer provided to OpenAI" ;;
    assign F_sendingFunctionCallOutput (set_sendingFunctionCallOutput true)
  else
    console_log "No answer from knowledge base, AI will use its general knowledge." ;;
    openAiWs_send (item_create_assistant fallbackMessage) ;;
    appendDialogue (js "AI: " ++ fallbackMessage ++ [10%N]).

(** index.js, 465-505 *)
Definition onScheduleTrainingSession (response : Message) : M unit :=
  functionArgs <- parseArguments response ;;
  console_log "Scheduling training session for:" ;;
  bookingSuccess <-
    bookTrainingSession (arg_preferred_time functionArgs) (arg_email functionArgs) ;;
  afterBooking bookingSuccess bookedPrompt.

(** index.js, 382-506 *)
Definition onFunctionCall (response : Message) : M unit :=
  console_log "Function called successfully:" ;;
  when (nameIs response "access_knowledge_base") (onAccessKnowledgeBase response) ;;
  when (nameIs response "schedule_training_session") (onScheduleTrainingSession response).

(** index.js, 508-518 *)
Definition onAudioDelta (response : Message) (sid : option jsstring) : M unit :=
  connection_send (twilio_media sid (toString (delta response))).

(** The handling of an utterance while a time is awaited (536-553, 597-615). *)
Definition onTimeInput (text : option jsstring) (logged : bool) : M unit :=
  parsedTime <- parseUserTime text ;;
  if truthy parsedTime
  then
    assign F_preferred_time (set_preferred_time parsedTime) ;;
    ws <- getSession ;;
    updateBookingStateWithRetry (phoneNumber ws) awaiting_email ;;
    askForEmail
  else
    sendPrompt timeNotUnderstoodPrompt ;;
    when logged
      (console_log "Appended AI prompt for time clarification to fullDialogue:").

(** index.js, 520-564 *)
Definition onContentDone (response : Message) : M unit :=
  ws <- getSession ;;
  if negb (sendingFunctionCallOutput ws)
  then
    console_log "AI final response:" ;;
    appendDialogue (js "AI: " ++ toString (content response) ++ [10%N]) ;;
    ws1 <- getSession ;;
    updateLastConversation (lastUserMessage ws1) (content response) ;;
    ws2 <- getSession ;;
    match bookingState ws2 with
    | idle =>
        text <- required (content response) ;;
        let lower := toLowerCase E text in
        when (includes (js "training session") lower
              || includes (js "book a training") lower
              || includes (js "schedule a training") lower)
          askForSuitableTime
    | awaiting_time => onTimeInput (content response) false
    | confirm_email =>
        text <- required (content response) ;;
        let confirmation := toLowerCase E (trim text) in
        handleEmailConfirmation confirmation (email ws2)
    | _ => ret tt
    end
  else
    console_log "Skipping appending AI function call output to fullDialogue" ;;
    assign F_sendingFunctionCallOutput (set_sendingFunctionCallOutput false).

(** index.js, 567-577 *)
Definition onAudioTranscriptDone (response : Message) : M unit :=
  console_log "AI transcription completed:" ;;
  appendDialogue (js "AI: " ++ toString (transcript response) ++ [10%N]) ;;
  console_log "AI message from transcription:" ;;
  ws <- getSession ;;
  updateLastConversation (lastUserMessage ws) (transcript response).

(** index.js, 580-649 *)
Definition onInputTranscription (response : Message) : M unit :=
  console_log "Transcription completed:" ;;
  let transcribedText := transcript response in
  (if truthy transcribedText && negb (jseqb (trim (toString transcribedText)) [])
   then
     let sanitizedText := sanitizeInput (toString transcribedText) in
     console_log "Appending User message:" ;;
     appendDialogue (js "User: " ++ sanitizedText ++ [10%N]) ;;
     assign F_lastUserMessage (set_lastUserMessage (Some sanitizedText))
   else console_log "Received empty or invalid User message. Skipping append.") ;;
  ws <- getSession ;;
  match bookingState ws with
  | idle => ret tt
  | awaiting_time => onTimeInput transcribedText true
  | awaiting_email =>
      text <- required transcribedText ;;
      let e := reconstructEmail text in
      if Email.validateEmail e
      then
        assign F_email (set_email (Some e)) ;;
        updateBookingStateWithRetry (phoneNumber ws) confirm_email ;;
        confirmEmail e
      else
        sendPrompt invalidEmailPrompt ;;
        console_log "Appended AI prompt for email re-entry to fullDialogue:"
  | confirm_email =>
      text <- required transcribedText ;;
      let confirmation := toLowerCase E (trim text) in
      handleEmailConfirmation confirmation (email ws)
  | confirm_existing_email =>
      text <- required transcribedText ;;
      let confirmation := toLowerCase E (trim text) in
      handleExistingEmailConfirmation confirmation
  end ;;
  ws' <- getSession ;;
  updateLastConversation (lastUserMessage ws') None.

(** The chain of tests on [response.type] (344-649). *)
Definition dispatch (response : Message) (sid : option jsstring) : M unit :=
  when (typeIs response "session.created") onSessionCreated ;;
  when (typeIs response "session.updated") onSessionUpdated ;;
  when (typeIs response "input_audio_buffer.speech_started") (onSpeechStarted sid) ;;
  when (match type response with
        | Some t => existsb (jseqb t) LOG_EVENT_TYPES
        | None => false
        end)
    (console_log "Received event:") ;;
  when (typeIs response "response.function_call_arguments.done")
    (onFunctionCall response) ;;
  when (typeIs response "response.audio.delta" && truthy (delta response))
    (onAudioDelta response sid) ;;
  when (typeIs response "response.content.done") (onContentDone response) ;;
  when (typeIs response "response.audio_transcript.done")
    (onAudioTranscriptDone response) ;;
  when (typeIs response "conversation.item.input_audio_transcription.completed")
    (onInputTranscription response).

(** [handleOpenAiMessage] (340-659) *)
Definition handleOpenAiMessage (data : Parsed Message) (sid : option jsstring) : M unit :=
  tryCatch
    (response <- match data with
                 | unparseable => throw SyntaxError
                 | json_null => throw TypeError
                 | json_value r => ret r
                 end ;;
     dispatch response sid)
    (fun _ => console_error "Error processing OpenAI message:").

(** [handleTwilioMessage] (720-752); the two setters are the route's. *)
Definition handleTwilioMessage (message : Parsed TwilioMessage)
  (setStreamSid setCallSid : option jsstring -> M unit) : M unit :=
  tryCatch
    (data <- match message with
             | unparseable => throw SyntaxError
             | json_null => throw TypeError
             | json_value d => ret d
             end ;;
     if eventIs data "media" then
       ws <- getSession ;;
       match readyState ws with
       | OPEN =>
           match media data with
           | None => throw TypeError
           | Some payload => openAiWs_send (input_audio_buffer_append payload)
           end
       | _ => ret tt
       end
     else if eventIs data "start" then
       match start data with
       | None => throw TypeError
       | Some info =>
           setStreamSid (start_streamSid info) ;;
           setCallSid (start_callSid info) ;;
           assign F_callSid (set_callSid (start_callSid info)) ;;
           console_log "Incoming stream started:" ;;
           console_log "Call SID:"
       end
     else if eventIs data "stop" then
       console_log "Call ended" ;;
       finalizeConversation
     else console_log "Received non-media event:")
    (fun _ => console_error "Error parsing Twilio message:").

(** *** The media-stream route (index.js, 126-161) and the socket's own
    listeners (204-230) *)

Inductive Event : Type :=
| openAi_open
| settle_timer
| openAi_message (data : Parsed Message)
| openAi_close
| openAi_error
| twilio_message (message : Parsed TwilioMessage)
| twilio_close.

Definition setStreamSid (sid : option jsstring) : M unit :=
  fun w =>
    (Ok tt,
     {| openAiWs := openAiWs w; streamSid := sid;
        route_callSid := route_callSid w; external := external w |}, []).

Definition setCallSid (cid : option jsstring) : M unit :=
  fun w =>
    (Ok tt,
     {| openAiWs := openAiWs w; streamSid := streamSid w;
        route_callSid := cid; external := external w |}, []).

Definition handle (ev : Event) : M unit :=
  match ev with
  | openAi_open =>
      assign F_readyState (set_readyState OPEN) ;;
      console_log "Connected to OpenAI Realtime API"
  | settle_timer => sendSessionUpdate
  | openAi_message data =>
      sid <- getStreamSid ;;
      handleOpenAiMessage data sid
  | twilio_message message => handleTwilioMessage message setStreamSid setCallSid
  | twilio_close =>
      ws <- getSession ;;
      match readyState ws with
      | OPEN =>
          emit CloseOpenAi ;;
          assign F_readyState (set_readyState CLOSING)
      | _ => ret tt
      end ;;
      console_log "Client disconnected."
  | openAi_close =>
      assign F_readyState (set_readyState CLOSED) ;;
      tryCatch
        (ws <- getSession ;;
         when (truthy (conversationId ws)) finalizeConversation)
        (fun _ => console_error "Error handling WebSocket close:") ;;
      console_log "Disconnected from OpenAI Realtime API"
  | openAi_error =>
      console_error "WebSocket error:" ;;
      tryCatch
        (ws <- getSession ;;
         when (truthy (conversationId ws)) (throw ReferenceError))
        (fun _ => console_error "Error handling WebSocket error:") ;;
      console_error "OpenAI WebSocket error:"
  end.

(** The events of a call, each handled to its end before the next arrives:
    the call as it goes when no two handlers overlap ([run_in_turn]).
    [Async.exec] below has the handlers overlap as the route lets them. *)
Fixpoint run (evs : list Event) (w : World) : World * list Effect :=
  match evs with
  | [] => (w, [])
  | ev :: evs' =>
      let '(_, w1, o1) := handle ev w in
      let '(w2, o2) := run evs' w1 in
      (w2, o1 ++ o2)
  end.

End Bridge.

(** ** The bridge with its awaits

    The route starts a handler for every message and does not wait for it
    (index.js, 139-146): a handler runs until its first [await], and what is
    left of it goes on later, when other handlers may have run.  Here an
    [async] function is a computation that runs up to its next [await] and
    then is finished or paused; the functions are those of the bridge above,
    with every [await] of the source in its place and every reading of the
    session at the point where the source reads it. *)

Module Async.

Section Handlers.

Variable E : Env.

(** What is left of a computation: nothing but its result, or the rest, to
    be resumed in the world as it then is. *)
#[local] Unset Elimination Schemes.
Inductive Task (A : Type) : Type :=
| Done (r : Res A)
| Paused (rest : World E -> Task A * World E * list Effect).
#[local] Set Elimination Schemes.
Arguments Done {A} r.
Arguments Paused {A} rest.

(** Induction on what is left of a computation. *)
Fixpoint Task_ind (A : Type) (P : Task A -> Prop)
  (done : forall r, P (Done r))
  (paused : forall rest, (forall w, P (fst (fst (rest w)))) -> P (Paused rest))
  (t : Task A) : P t :=
  match t with
  | Done r => done r
  | Paused rest => paused rest (fun w => Task_ind P done paused (fst (fst (rest w))))
  end.

Definition Co (A : Type) : Type := World E -> Task A * World E * list Effect.

(** A computation without an [await]. *)
Definition now {A} (m : M E A) : Co A :=
  fun w => let '(r, w', o) := m w in (Done r, w', o).

(** The point at which an [await] gives way to other handlers. *)
Definition pause : Co unit :=
  fun w => (Paused (fun w' => (Done (Ok tt), w', [])), w, []).

Fixpoint thenT {A B} (t : Task A) (k : A -> Co B) (w : World E)
  : Task B * World E * list Effect :=
  match t with
  | Done (Ok a) => k a w
  | Done (Throw e) => (Done (Throw e), w, [])
  | Paused rest =>
      (Paused (fun w1 =>
                 let '(t', w', o) := rest w1 in
                 let '(t2, w2, o2) := thenT t' k w' in
                 (t2, w2, o ++ o2)),
       w, [])
  end.

Definition bind {A B} (m : Co A) (k : A -> Co B) : Co B :=
  fun w =>
    let '(t, w1, o1) := m w in
    let '(t2, w2, o2) := thenT t k w1 in
    (t2, w2, o1 ++ o2).

Fixpoint catchT {A} (t : Task A) (handler : Err -> Co A) (w : World E)
  : Task A * World E * list Effect :=
  match t with
  | Done (Ok a) => (Done (Ok a), w, [])
  | Done (Throw e) => handler e w
  | Paused rest =>
      (Paused (fun w1 =>
                 let '(t', w', o) := rest w1 in
                 let '(t2, w2, o2) := catchT t' handler w' in
                 (t2, w2, o ++ o2)),
       w, [])
  end.

(** [try { m } catch (error) { handler }] *)
Definition tryCatch {A} (m : Co A) (handler : Err -> Co A) : Co A :=
  fun w =>
    let '(t, w1, o1) := m w in
    let '(t2, w2, o2) := catchT t handler w1 in
    (t2, w2, o1 ++ o2).

Fixpoint awaitT {A} (t : Task A) (w : World E) : Task A * World E * list Effect :=
  match t with
  | Done r => (Paused (fun w1 => (Done r, w1, [])), w, [])
  | Paused rest =>
      (Paused (fun w1 =>
                 let '(t', w', o) := rest w1 in
                 let '(t2, w2, o2) := awaitT t' w' in
                 (t2, w2, o ++ o2)),
       w, [])
  end.

(** [await m]: [m] is started; when it has finished, with a value or an
    exception, the caller is resumed, not before the handlers waiting at
    that time had their turn. *)
Definition await {A} (m : Co A) : Co A :=
  fun w =>
    let '(t, w1, o1) := m w in
    let '(t2, w2, o2) := awaitT t w1 in
    (t2, w2, o1 ++ o2).

Notation "x <- m ;; k" := (bind m (fun x => k))
  (at level 61, m at next level, right associativity).
Notation "m ;; k" := (bind m (fun _ => k))
  (at level 61, right associativity).

(** *** What the bridge does between two awaits *)

Definition ret {A} (a : A) : Co A := now (ret a).
Definition throw {A} (e : Err) : Co A := now (throw e).
Definition when (b : bool) (m : Co unit) : Co unit := if b then m else ret tt.
Definition getSession : Co Session := now getSession.
Definition assign (f : Field) (update : Session -> Session) : Co unit :=
  now (assign f update).
Definition console_log (text : string) : Co unit := now (console_log text).
Definition console_error (text : string) : Co unit := now (console_error text).
Definition openAiWs_send (f : OpenAiFrame) : Co unit := now (openAiWs_send f).
Definition invoke {A} (op : Operation) (f : Ext E -> Res A * Ext E) : Co A :=
  now (invoke op f).
Definition parseUserTime (userInput : option jsstring) : Co (option jsstring) :=
  now (parseUserTime userInput).
Definition required (v : option jsstring) : Co jsstring := now (required v).
Definition isoString (date : option Z) : Co jsstring := now (isoString date).
Definition sendPrompt (prompt : jsstring) : Co unit := now (sendPrompt prompt).
Definition sendSessionUpdate : Co unit := now sendSessionUpdate.
Definition sendUserMessage (prompt : jsstring) : Co unit := now (sendUserMessage prompt).
Definition appendDialogue (line : jsstring) : Co unit := now (appendDialogue line).
Definition parseArguments (response : Message) : Co FunctionArgs :=
  now (parseArguments response).
Definition onSessionCreated : Co unit := now onSessionCreated.
Definition onSpeechStarted (sid : option jsstring) : Co unit := now (onSpeechStarted sid).
Definition onAudioDelta (response : Message) (sid : option jsstring) : Co unit :=
  now (onAudioDelta response sid).

(** *** The retry adapter (171-190)

    [return await operation()] and, after a failure that is not the last,
    [await new Promise(resolve => setTimeout(resolve, delay))]. *)
Fixpoint retryLoop {A} (operation : Co A) (n i : nat) (lastError : Err) : Co A :=
  match n with
  | O => throw lastError
  | S n' =>
      tryCatch (await operation)
        (fun error =>
           console_error "Operation failed" ;;
           (if (Z.of_nat i <? Z.of_nat (Retry.maxRetries Retry.RETRY_OPTIONS) - 1)%Z
            then await (now (emit (Delay (Retry.delayAfter Retry.RETRY_OPTIONS i))))
            else ret tt) ;;
           retryLoop operation n' (S i) error)
  end.

Definition withRetry {A} (operation : Co A) : Co A :=
  retryLoop operation (Retry.maxRetries Retry.RETRY_OPTIONS) 0 Undefined.

Definition createOrGetUserWithRetry (phoneNumber : option jsstring) : Co (option User) :=
  withRetry (invoke op_dbCreateOrGetUser (dbCreateOrGetUser E phoneNumber)).

Definition updateUserNameWithRetry (phoneNumber : option jsstring) (n : jsstring) : Co unit :=
  withRetry (invoke op_dbUpdateUserName (dbUpdateUserName E phoneNumber n)).

Definition updateUserEmailWithRetry (phoneNumber : option jsstring)
  (e : option jsstring) : Co unit :=
  withRetry (invoke op_dbUpdateUserEmail (dbUpdateUserEmail E phoneNumber e)).

Definition createConversationWithRetry (phoneNumber : option jsstring)
  (sid : jsstring) : Co (option Conversation) :=
  withRetry (invoke op_dbCreateConversation (dbCreateConversation E phoneNumber sid)).

Definition updateConversationWithRetry (id : option jsstring)
  (last_question : jsstring) (last_answer : option jsstring) : Co unit :=
  withRetry (invoke op_dbUpdateConversation
               (dbUpdateConversation E id last_question last_answer)).

Definition finalizeConversationInDbWithRetry (id : option jsstring)
  (dialogue summary_ : jsstring) : Co unit :=
  withRetry (invoke op_dbFinalizeConversation
               (dbFinalizeConversation E id dialogue summary_)).

Definition getLastConversationWithRetry (phoneNumber : option jsstring)
  : Co (option Conversation) :=
  withRetry (invoke op_dbGetLastConversation (dbGetLastConversation E phoneNumber)).

Definition createBookingWithRetry (phoneNumber id eventId : option jsstring)
  (time : jsstring) (e : option jsstring) : Co bool :=
  withRetry (invoke op_dbCreateBooking (dbCreateBooking E phoneNumber id eventId time e)).

Definition updateBookingStateWithRetry (phoneNumber : option jsstring)
  (state : BookingState) : Co unit :=
  withRetry (invoke op_dbUpdateBookingState (dbUpdateBookingState E phoneNumber state)).

(** [updateLastConversation] (260-274) *)
Definition updateLastConversation (question answer : option jsstring) : Co unit :=
  ws <- getSession ;;
  if negb (truthy (conversationId ws))
  then console_error "No conversation ID available"
  else
    console_log "Updating conversation for" ;;
    console_log "Question:" ;;
    console_log "Answer:" ;;
    await (updateConversationWithRetry (conversationId ws)
             (if truthy question then toString question else js "No question") answer).

(** [handleIncomingCall] (758-812) *)
Definition handleIncomingCall (sid : option jsstring) : Co unit :=
  match sid with
  | None | Some [] => console_error "Call SID is undefined"
  | Some sid' =>
      tryCatch
        (phone <- await (invoke op_twilioCallFetch (twilio_calls_fetch_from E sid')) ;;
         assign F_phoneNumber (set_phoneNumber phone) ;;
         user <- await (createOrGetUserWithRetry phone) ;;
         match user with
         | None => throw (ErrorObject (js "Failed to create or get user"))
         | Some user' =>
             conversation <- await (createConversationWithRetry phone sid') ;;
             match conversation with
             | None => throw (ErrorObject (js "Failed to create conversation"))
             | Some conversation' =>
                 assign F_conversationId
                   (set_conversationId (conversation_id conversation')) ;;
                 console_log "Handling incoming call from" ;;
                 lastConversation <- await (getLastConversationWithRetry phone) ;;
                 console_log "Last conversation data:" ;;
                 console_log "User details:" ;;
                 if truthy (user_name user')
                 then
                   console_log "Generated returning user prompt:" ;;
                   sendUserMessage
                     (returningUserPrompt E (toString (user_name user'))
                        (match lastConversation with
                         | Some c => summary c
                         | None => None
                         end))
                 else
                   console_log "Generated new user prompt:" ;;
                   sendUserMessage NEW_USER_PROMPT
             end
         end)
        (fun _ => console_error "Error handling incoming call:")
  end.

(** [askForSuitableTime] (929-943) *)
Definition askForSuitableTime : Co unit :=
  sendPrompt suitableTimePrompt ;;
  assign F_bookingState (set_bookingState awaiting_time) ;;
  ws <- getSession ;;
  await (updateBookingStateWithRetry (phoneNumber ws) awaiting_time).

(** [askForEmail] (946-996) *)
Definition askForEmail : Co unit :=
  tryCatch
    (ws <- getSession ;;
     user <- await (createOrGetUserWithRetry (phoneNumber ws)) ;;
     match user with
     | Some user' =>
         if truthy (user_email user')
         then
           sendPrompt
             (storedEmailPrompt (Email.spellOutEmail (toString (user_email user')))) ;;
           assign F_email (set_email (user_email user')) ;;
           assign F_bookingState (set_bookingState confirm_existing_email)
         else
           sendPrompt newEmailPrompt ;;
           assign F_bookingState (set_bookingState awaiting_email)
     | None =>
         sendPrompt newEmailPrompt ;;
         assign F_bookingState (set_bookingState awaiting_email)
     end)
    (fun _ =>
       console_error "Error in askForEmail:" ;;
       sendPrompt newEmailPrompt ;;
       assign F_bookingState (set_bookingState awaiting_email)).

(** [confirmEmail] (999-1013) *)
Definition confirmEmail (e : jsstring) : Co unit :=
  openAiWs_send (response_create (confirmEmailPrompt (Email.spellOutEmail e)) 5 150) ;;
  assign F_bookingState (set_bookingState confirm_email) ;;
  ws <- getSession ;;
  await (updateBookingStateWithRetry (phoneNumber ws) confirm_email).

(** [bookTrainingSession] (1060-1127) *)
Definition bookTrainingSession (preferredTime e : option jsstring) : Co bool :=
  tryCatch
    (if negb (truthy preferredTime)
     then console_error "Preferred time is not set." ;; ret false
     else
       let startTime := Date_parse E (toString preferredTime) in
       let endTime :=
         match startTime with
         | Some t => timeClip (t + 30 * 60 * 1000)%Z
         | None => None
         end in
       startIso <- isoString startTime ;;
       endIso <- isoString endTime ;;
       rid <- invoke op_uuidv4 (fun x => let '(u, x') := uuidv4 E x in (Ok u, x')) ;;
       response <- await (invoke op_calendarEventsInsert
                            (calendar_events_insert E
                               {| start_dateTime := startIso; end_dateTime := endIso;
                                  attendee_email := e; requestId := rid |})) ;;
       created <-
         (if (status response =? 200)%Z || (status response =? 201)%Z
          then
            console_log "Event created:" ;;
            ws <- getSession ;;
            startIso' <- isoString startTime ;;
            booking <- await (createBookingWithRetry (phoneNumber ws) (conversationId ws)
                                (data_id response) startIso' e) ;;
            if booking : bool
            then
              ws' <- getSession ;;
              await (updateUserEmailWithRetry (phoneNumber ws') e) ;; ret true
            else ret false
          else ret false) ;;
       if created : bool
       then ret true
       else console_error "Failed to create event:" ;; ret false)
    (fun _ => console_error "Error booking training session:" ;; ret false).

(** The two outcomes of a commit attempt (476-504, 1019-1047, 1257-1285). *)
Definition afterBooking (bookingSuccess : bool) (successPrompt : jsstring) : Co unit :=
  (if bookingSuccess
   then sendPrompt successPrompt
   else sendPrompt bookingFailedPrompt) ;;
  assign F_bookingState (set_bookingState idle) ;;
  ws <- getSession ;;
  await (updateBookingStateWithRetry (phoneNumber ws) idle).

(** [handleEmailConfirmation] (1016-1051) *)
Definition handleEmailConfirmation (confirmation : jsstring)
  (e : option jsstring) : Co unit :=
  if jseqb confirmation (js "yes")
  then
    ws <- getSession ;;
    bookingSuccess <- await (bookTrainingSession (preferred_time ws) e) ;;
    afterBooking bookingSuccess bookedPrompt
  else await askForEmail.

(** [handleExistingEmailConfirmation] (1253-1302) *)
Definition handleExistingEmailConfirmation (confirmation : jsstring) : Co unit :=
  if includes (js "yes") confirmation
  then
    ws <- getSession ;;
    bookingSuccess <- await (bookTrainingSession (preferred_time ws) (email ws)) ;;
    afterBooking bookingSuccess bookedPromptExisting
  else
    sendPrompt anotherEmailPrompt ;;
    assign F_bookingState (set_bookingState awaiting_email) ;;
    ws <- getSession ;;
    await (updateBookingStateWithRetry (phoneNumber ws) awaiting_email).

(** [extractUserNameFromSummary] (1191-1235); the second [await] is the one
    of [response.json()]. *)
Definition extractUserNameFromSummary (summary_ : jsstring) : Co (option jsstring) :=
  tryCatch
    (response <- await (invoke op_fetchUserName
                          (fetchChatCompletion E op_fetchUserName summary_)) ;;
     if negb (ok response)
     then console_error "Error extracting user name:" ;; ret None
     else
       pause ;;
       match message_content response with
       | Throw e => throw e
       | Ok text =>
           let extractedName := trim text in
           if jseqb (toLowerCase E extractedName) (js "name not found")
           then ret None
           else console_log "Extracted user name:" ;; ret (Some extractedName)
       end)
    (fun _ => console_error "Error in extractUserNameFromSummary:" ;; ret None).

(** [finalizeConversation] (1130-1184) *)
Definition finalizeConversation : Co unit :=
  ws <- getSession ;;
  if negb (truthy (conversationId ws))
  then console_log "No conversation ID, skipping finalization"
  else
    console_log "Finalizing conversation:" ;;
    tryCatch
      (summaryResponse <-
         await (invoke op_fetchSummary
                  (fetchChatCompletion E op_fetchSummary (fullDialogue ws))) ;;
       if negb (ok summaryResponse)
       then throw (ErrorObject (js "Error generating summary: "))
       else
         pause ;;
         match message_content summaryResponse with
         | Throw e => throw e
         | Ok text =>
             let summary_ := trim text in
             extractedName <- await (extractUserNameFromSummary summary_) ;;
             when (truthy extractedName)
               (ws1 <- getSession ;;
                await (updateUserNameWithRetry (phoneNumber ws1)
                         (toString extractedName))) ;;
             extractedEmail <-
               await (invoke op_extractEmailFromSummary
                        (extractEmailFromSummary E summary_)) ;;
             when (truthy extractedEmail)
               (ws2 <- getSession ;;
                await (updateUserEmailWithRetry (phoneNumber ws2) extractedEmail)) ;;
             ws3 <- getSession ;;
             await (finalizeConversationInDbWithRetry (conversationId ws3)
                      (fullDialogue ws3) summary_)
         end)
      (fun _ => console_error "Error finalizing conversation:").

(** index.js, 349-357 *)
Definition onSessionUpdated : Co unit :=
  console_log "Session updated successfully:" ;;
  assign F_sessionReady (set_sessionReady true) ;;
  ws <- getSession ;;
  if truthy (callSid ws)
  then await (handleIncomingCall (callSid ws))
  else console_log "Call SID not set, waiting for incoming call".

(** index.js, 387-463 *)
Definition onAccessKnowledgeBase (response : Message) : Co unit :=
  functionArgs <- parseArguments response ;;
  console_log "AI is accessing knowledge base for question:" ;;
  openAiWs_send (item_create_assistant checkingMessage) ;;
  appendDialogue (js "AI: " ++ checkingMessage ++ [10%N]) ;;
  answer <- await (invoke op_askSupabaseAssistant
                     (fun x =>
                        let '(a, x') := askSupabaseAssistant E (question functionArgs) x in
                        (Ok a, x'))) ;;
  if truthy answer
  then
    console_log "Sending knowledge base answer to OpenAI:" ;;
    openAiWs_send (item_create_function_call_output (toString answer)) ;;
    openAiWs_send (response_create (summaryInstructions (toString answer)) 7 150) ;;
    console_log "Knowledge base answer provided to OpenAI" ;;
    assign F_sendingFunctionCallOutput (set_sendingFunctionCallOutput true)
  else
    console_log "No answer from knowledge base, AI will use its general knowledge." ;;
    openAiWs_send (item_create_assistant fallbackMessage) ;;
    appendDialogue (js "AI: " ++ fallbackMessage ++ [10%N]).

(** index.js, 465-505 *)
Definition onScheduleTrainingSession (response : Message) : Co unit :=
  functionArgs <- parseArguments response ;;
  console_log "Scheduling training session for:" ;;
  bookingSuccess <-
    await (bookTrainingSession (arg_preferred_time functionArgs)
             (arg_email functionArgs)) ;;
  afterBooking bookingSuccess bookedPrompt.

(** index.js, 382-506 *)
Definition onFunctionCall (response : Message) : Co unit :=
  console_log "Function called successfully:" ;;
  when (nameIs response "access_knowledge_base") (onAccessKnowledgeBase response) ;;
  when (nameIs response "schedule_training_session") (onScheduleTrainingSession response).

(** The handling of an utterance while a time is awaited (536-553, 597-615). *)
Definition onTimeInput (text : option jsstring) (logged : bool) : Co unit :=
  parsedTime <- parseUserTime text ;;
  if truthy parsedTime
  then
    assign F_preferred_time (set_preferred_time parsedTime) ;;
    ws <- getSession ;;
    await (updateBookingStateWithRetry (phoneNumber ws) awaiting_email) ;;
    await askForEmail
  else
    sendPrompt timeNotUnderstoodPrompt ;;
    when logged
      (console_log "Appended AI prompt for time clarification to fullDialogue:").

(** index.js, 520-564 *)
Definition onContentDone (response : Message) : Co unit :=
  ws <- getSession ;;
  if negb (sendingFunctionCallOutput ws)
  then
    console_log "AI final response:" ;;
    appendDialogue (js "AI: " ++ toString (content response) ++ [10%N]) ;;
    ws1 <- getSession ;;
    await (updateLastConversation (lastUserMessage ws1) (content response)) ;;
    ws2 <- getSession ;;
    match bookingState ws2 with
    | idle =>
        text <- required (content response) ;;
        let lower := toLowerCase E text in
        when (includes (js "training session") lower
              || includes (js "book a training") lower
              || includes (js "schedule a training") lower)
          (await askForSuitableTime)
    | awaiting_time => onTimeInput (content response) false
    | confirm_email =>
        text <- required (content response) ;;
        let confirmation := toLowerCase E (trim text) in
        await (handleEmailConfirmation confirmation (email ws2))
    | _ => ret tt
    end
  else
    console_log "Skipping appending AI function call output to fullDialogue" ;;
    assign F_sendingFunctionCallOutput (set_sendingFunctionCallOutput false).

(** index.js, 567-577 *)
Definition onAudioTranscriptDone (response : Message) : Co unit :=
  console_log "AI transcription completed:" ;;
  appendDialogue (js "AI: " ++ toString (transcript response) ++ [10%N]) ;;
  console_log "AI message from transcription:" ;;
  ws <- getSession ;;
  await (updateLastConversation (lastUserMessage ws) (transcript response)).

(** index.js, 580-649 *)
Definition onInputTranscription (response : Message) : Co unit :=
  console_log "Transcription completed:" ;;
  let transcribedText := transcript response in
  (if truthy transcribedText && negb (jseqb (trim (toString transcribedText)) [])
   then
     let sanitizedText := sanitizeInput (toString transcribedText) in
     console_log "Appending User message:" ;;
     appendDialogue (js "User: " ++ sanitizedText ++ [10%N]) ;;
     assign F_lastUserMessage (set_lastUserMessage (Some sanitizedText))
   else console_log "Received empty or invalid User message. Skipping append.") ;;
  ws <- getSession ;;
  match bookingState ws with
  | idle => ret tt
  | awaiting_time => onTimeInput transcribedText true
  | awaiting_email =>
      text <- required transcribedText ;;
      let e := reconstructEmail E text in
      if Email.validateEmail e
      then
        assign F_email (set_email (Some e)) ;;
        await (updateBookingStateWithRetry (phoneNumber ws) confirm_email) ;;
        await (confirmEmail e)
      else
        sendPrompt invalidEmailPrompt ;;
        console_log "Appended AI prompt for email re-entry to fullDialogue:"
  | confirm_email =>
      text <- required transcribedText ;;
      let confirmation := toLowerCase E (trim text) in
      await (handleEmailConfirmation confirmation (email ws))
  | confirm_existing_email =>
      text <- required transcribedText ;;
      let confirmation := toLowerCase E (trim text) in
      await (handleExistingEmailConfirmation confirmation)
  end ;;
  ws' <- getSession ;;
  await (updateLastConversation (lastUserMessage ws') None).

(** The chain of tests on [response.type] (344-649). *)
Definition dispatch (response : Message) (sid : option jsstring) : Co unit :=
  when (typeIs response "session.created") onSessionCreated ;;
  when (typeIs response "session.updated") onSessionUpdated ;;
  when (typeIs response "input_audio_buffer.speech_started") (onSpeechStarted sid) ;;
  when (match type response with
        | Some t => existsb (jseqb t) LOG_EVENT_TYPES
        | None => false
        end)
    (console_log "Received event:") ;;
  when (typeIs response "response.function_call_arguments.done")
    (onFunctionCall response) ;;
  when (typeIs response "response.audio.delta" && truthy (delta response))
    (onAudioDelta response sid) ;;
  when (typeIs response "response.content.done") (onContentDone response) ;;
  when (typeIs response "response.audio_transcript.done")
    (onAudioTranscriptDone response) ;;
  when (typeIs response "conversation.item.input_audio_transcription.completed")
    (onInputTranscription response).

(** [handleOpenAiMessage] (340-659) *)
Definition handleOpenAiMessage (data : Parsed Message) (sid : option jsstring) : Co unit :=
  tryCatch
    (response <- match data with
                 | unparseable => throw SyntaxError
                 | json_null => throw TypeError
                 | json_value r => ret r
                 end ;;
     dispatch response sid)
    (fun _ => console_error "Error processing OpenAI message:").

(** [handleTwilioMessage] (720-752).  The function has no [await]: the
    finalization that the stop event starts (743) goes on by itself. *)
Definition handleTwilioMessage (message : Parsed TwilioMessage)
  (setStreamSid setCallSid : option jsstring -> M E unit) : Co unit :=
  tryCatch
    (data <- match message with
             | unparseable => throw SyntaxError
             | json_null => throw TypeError
             | json_value d => ret d
             end ;;
     if eventIs data "media" then
       ws <- getSession ;;
       match readyState ws with
       | OPEN =>
           match media data with
           | None => throw TypeError
           | Some payload => openAiWs_send (input_audio_buffer_append payload)
           end
       | _ => ret tt
       end
     else if eventIs data "start" then
       match start data with
       | None => throw TypeError
       | Some info =>
           now (setStreamSid (start_streamSid info)) ;;
           now (setCallSid (start_callSid info)) ;;
           assign F_callSid (set_callSid (start_callSid info)) ;;
           console_log "Incoming stream started:" ;;
           console_log "Call SID:"
       end
     else if eventIs data "stop" then
       console_log "Call ended" ;;
       finalizeConversation
     else console_log "Received non-media event:")
    (fun _ => console_error "Error parsing Twilio message:").

(** *** The listeners (index.js, 126-161, 204-230)

    The two listeners of the model connection's close event are called one
    after the other: the first (219-227) is started and runs to its first
    [await], then the second (155-157) writes its console entry. *)
Definition alongside {A} (first : Co A) (second : M E unit) : Co A :=
  fun w =>
    let '(t, w1, o1) := first w in
    let '(_, w2, o2) := second w1 in
    (t, w2, o1 ++ o2).

(** The listeners without an [await]. *)
Definition listener (ev : Event) : M E unit := handle ev.

Definition handle (ev : Event) : Co unit :=
  match ev with
  | openAi_message data =>
      sid <- now getStreamSid ;;
      handleOpenAiMessage data sid
  | twilio_message message => handleTwilioMessage message setStreamSid setCallSid
  | openAi_close =>
      assign F_readyState (set_readyState CLOSED) ;;
      alongside
        (tryCatch
           (ws <- getSession ;;
            when (truthy (conversationId ws)) (await finalizeConversation))
           (fun _ => console_error "Error handling WebSocket close:"))
        (emit (ConsoleLog "Disconnected from OpenAI Realtime API"))
  | openAi_open | settle_timer | openAi_error | twilio_close => now (listener ev)
  end.

(** *** The handlers of a call, overlapping

    At any time an event may arrive, whose handler is started and runs to
    its first [await], or one of the paused handlers may go on to its next
    [await]. *)
Definition Pool : Type := list (Co unit).

Inductive Action : Type :=
| arrive (ev : Event)
| resume (i : nat).

Definition keep (t : Task unit) (pool : Pool) : Pool :=
  match t with
  | Done _ => pool
  | Paused rest => pool ++ [rest]
  end.

Fixpoint without {X : Type} (i : nat) (l : list X) : list X :=
  match l, i with
  | [], _ => []
  | _ :: l', O => l'
  | x :: l', S i' => x :: without i' l'
  end.

Definition step (a : Action) (w : World E) (pool : Pool)
  : World E * Pool * list Effect :=
  match a with
  | arrive ev => let '(t, w', o) := handle ev w in (w', keep t pool, o)
  | resume i =>
      match nth_error pool i with
      | Some rest => let '(t, w', o) := rest w in (w', keep t (without i pool), o)
      | None => (w, pool, [])
      end
  end.

Fixpoint exec (actions : list Action) (w : World E) (pool : Pool)
  : World E * Pool * list Effect :=
  match actions with
  | [] => (w, pool, [])
  | a :: actions' =>
      let '(w1, pool1, o1) := step a w pool in
      let '(w2, pool2, o2) := exec actions' w1 pool1 in
      (w2, pool2, o1 ++ o2)
  end.

(** No handler is started while another is paused. *)
Fixpoint overlapFree (actions : list Action) (w : World E) (pool : Pool) : bool :=
  match actions with
  | [] => true
  | a :: actions' =>
      match a, pool with
      | arrive _, _ :: _ => false
      | _, _ => let '(w1, pool1, _) := step a w pool in overlapFree actions' w1 pool1
      end
  end.

(** A handler run to its end with nothing in between. *)
Fixpoint settle {A} (t : Task A) (w : World E) : Res A * World E * list Effect :=
  match t with
  | Done r => (r, w, [])
  | Paused rest =>
      let '(t', w', o) := rest w in
      let '(r, w2, o2) := settle t' w' in
      (r, w2, o ++ o2)
  end.

Definition uninterrupted {A} (m : Co A) : M E A :=
  fun w =>
    let '(t, w1, o1) := m w in
    let '(r, w2, o2) := settle t w1 in
    (r, w2, o1 ++ o2).

End Handlers.

Arguments Done {E A} r.
Arguments Paused {E A} rest.

End Async.

(** ** The greeting of a returning caller (index.js, 93, 793-800, 831-848) *)

Module Greeting.

Local Open Scope N_scope.

Definition DOLLAR : codeunit := 36.
Definition AMPERSAND : codeunit := 38.
Definition APOSTROPHE : codeunit := 39.
Definition GRAVE : codeunit := 96.
Definition LEFT_BRACE : codeunit := 123.

(** [s.replace(/^P1|^P2|.../, '')]: the first of the prefixes that the
    subject begins with is cut off. *)
Fixpoint dropPrefix (prefixes : list jsstring) (s : jsstring) : jsstring :=
  match prefixes with
  | [] => s
  | p :: rest =>
      if startsWith p s then skipn (List.length p) s else dropPrefix rest s
  end.

(** [s.replace(/P1|P2|.../, '')] for literal alternatives: the leftmost
    match is cut out. *)
Fixpoint dropFirst (alternatives : list jsstring) (s : jsstring) : jsstring :=
  if existsb (fun p => startsWith p s) alternatives
  then dropPrefix alternatives s
  else match s with
       | [] => []
       | c :: s' => c :: dropFirst alternatives s'
       end.

(** [s.split(sep)[0]] for a separator of one code unit. *)
Fixpoint beforeFirst (sep : codeunit) (s : jsstring) : jsstring :=
  match s with
  | [] => []
  | c :: s' => if c =? sep then [] else c :: beforeFirst sep s'
  end.

(** [summarizeLastTopic] (831-848) *)
Definition summarizeLastTopic (summary_ : jsstring) : jsstring :=
  let cleanSummary :=
    dropPrefix [js "The conversation was about "]
      (dropFirst [js "asked about "; js "asked for "]
         (dropPrefix [js "The user "; js "User "; js "The AI "; js "AI "] summary_)) in
  let mainTopic := trim (beforeFirst FULL_STOP cleanSummary) in
  if (50 <? List.length mainTopic)%nat
  then firstn 47 mainTopic ++ js "..."
  else mainTopic.

(** The replacement text of [String.prototype.replace] with a string
    pattern: [$$], [$&], [$`] and [$'] stand for a dollar sign, the match, and
    what is before and after it; there are no captures, so every other
    [$] is kept. *)
Fixpoint getSubstitution (matched before after replacement : jsstring) : jsstring :=
  match replacement with
  | [] => []
  | c :: rest =>
      match rest with
      | d :: rest' =>
          if (c =? DOLLAR) && (d =? DOLLAR)
          then DOLLAR :: getSubstitution matched before after rest'
          else if (c =? DOLLAR) && (d =? AMPERSAND)
          then matched ++ getSubstitution matched before after rest'
          else if (c =? DOLLAR) && (d =? GRAVE)
          then before ++ getSubstitution matched before after rest'
          else if (c =? DOLLAR) && (d =? APOSTROPHE)
          then after ++ getSubstitution matched before after rest'
          else c :: getSubstitution matched before after rest
      | [] => [c]
      end
  end.

(** [s.replace(search, replacement)] for a string [search]: the first
    occurrence is replaced; [before] is what of the subject lies behind. *)
Fixpoint replaceFrom (search replacement before s : jsstring) : jsstring :=
  if startsWith search s
  then
    let after := skipn (List.length search) s in
    before ++ getSubstitution search before after replacement ++ after
  else
    match s with
    | [] => before
    | c :: s' => replaceFrom search replacement (before ++ [c]) s'
    end.

Definition replace (search replacement s : jsstring) : jsstring :=
  replaceFrom search replacement [] s.

Definition RETURNING_USER_MESSAGE_TEMPLATE : jsstring :=
  js "Nice to see you again, {name}! Your last conversation was about {lastTopic}. Do you want to continue that topic or do you have another question?".

(** The prompt of [handleIncomingCall] for a caller with a stored name
    (793-800). *)
Definition returningUserPrompt (name_ : jsstring) (lastSummary : option jsstring)
  : jsstring :=
  let lastTopic :=
    if truthy lastSummary
    then summarizeLastTopic (toString lastSummary)
    else js "our introduction" in
  replace (js "{lastTopic}") lastTopic
    (replace (js "{name}") name_ RETURNING_USER_MESSAGE_TEMPLATE).

End Greeting.

(** ** The knowledge lookup (index.js, 668-717) *)

Module Knowledge.

(** A row of [search_documents]: [item.context] as a template literal shows
    it, and the entries of [item.metadata], which [Object.entries] cannot list
    when the property is missing or [null]. *)
Record Document : Type := {
  doc_context : option jsstring;
  doc_metadata : option (list (jsstring * jsstring)) }.

(** The answer of the embedding endpoint: [response.ok], and
    [data[0].embedding] of its body, whose reading throws when the body has
    another shape. *)
Record EmbeddingResponse (Embedding : Type) : Type := {
  embedding_ok : bool;
  embedding : Res Embedding }.

(** [{ data, error }] of the remote procedure call. *)
Record SearchResult : Type := {
  search_data : option (list Document);
  search_error : bool }.

Record Sources : Type := {
  Ext : Type;
  Embedding : Type;
  fetchEmbedding :
    option jsstring -> Ext -> Res (EmbeddingResponse Embedding) * Ext;
  search_documents : Embedding -> Ext -> Res SearchResult * Ext }.

Inductive Step : Type :=
| Log (text : string)
| Failure (text : string)
| CallEmbedding
| CallSearch.

(** [parts.join(sep)] *)
Fixpoint join (sep : jsstring) (parts : list jsstring) : jsstring :=
  match parts with
  | [] => []
  | [p] => p
  | p :: rest => p ++ sep ++ join sep rest
  end.

Definition renderMetadata (entries : list (jsstring * jsstring)) : jsstring :=
  join (js ", ") (map (fun entry => fst entry ++ js ": " ++ snd entry) entries).

Definition renderDocument (item : Document) : Res jsstring :=
  match doc_metadata item with
  | None => Throw TypeError
  | Some entries =>
      Ok (toString (doc_context item) ++ js " (" ++ renderMetadata entries ++ js ")")
  end.

(** [data.map(item => ...)], which stops at the first item that throws. *)
Fixpoint renderAll (data : list Document) : Res (list jsstring) :=
  match data with
  | [] => Ok []
  | item :: rest =>
      match renderDocument item with
      | Throw e => Throw e
      | Ok text =>
          match renderAll rest with
          | Throw e => Throw e
          | Ok texts => Ok (text :: texts)
          end
      end
  end.

Section Ask.

Variable K : Sources.

Definition caught (x : Ext K) (done : list Step) : option jsstring * Ext K * list Step :=
  (None, x, done ++ [Failure "Error in askSupabaseAssistant:"]).

Definition askSupabaseAssistant (question : option jsstring) (x : Ext K)
  : option jsstring * Ext K * list Step :=
  let asked := [Log "Querying knowledge base for:"; CallEmbedding] in
  match fetchEmbedding K question x with
  | (Throw _, x1) => caught x1 asked
  | (Ok embeddingResponse, x1) =>
      if negb (embedding_ok embeddingResponse)
      then (None, x1, asked ++ [Failure "Error fetching embedding from Azure OpenAI:"])
      else
        match embedding embeddingResponse with
        | Throw _ => caught x1 asked
        | Ok queryEmbedding =>
            let searched := asked ++ [CallSearch] in
            match search_documents K queryEmbedding x1 with
            | (Throw _, x2) => caught x2 searched
            | (Ok result, x2) =>
                if search_error result
                then (None, x2, searched ++ [Failure "Error querying Supabase:"])
                else
                  match search_data result with
                  | Some (item :: rest) =>
                      let found := searched ++ [Log "Knowledge base answers found:"] in
                      match renderAll (item :: rest) with
                      | Throw _ => caught x2 found
                      | Ok texts => (Some (join [10%N] texts), x2, found)
                      end
                  | _ =>
                      (None, x2,
                       searched ++ [Log "No relevant documents found in Supabase."])
                  end
            end
        end
  end.

End Ask.

Definition isFailure (s : Step) : bool :=
  match s with
  | Failure _ => true
  | _ => false
  end.

End Knowledge.

(** ** The greeting of the earlier server (server.js, 200-209, 443-526)

    The earlier variant of the bridge greets the caller itself; whether the
    configuration was applied is kept in a variable of the module, shared by
    all connections. *)

Module Server.

Record Session : Type := {
  fullDialogue : jsstring;
  awaitingName : bool;
  phoneNumber : option jsstring;
  lastUserMessage : option jsstring;
  conversationId : option jsstring;
  callSid : option jsstring }.

(** A row of [user_conversations]. *)
Record UserRow : Type := {
  user_name : option jsstring;
  last_question : option jsstring }.

(** [{ data, error }] of the lookup, [error] with its code. *)
Record SelectResult : Type := {
  data : option UserRow;
  error : option jsstring }.

(** The telephony API, the identifier generator and the two storage calls;
    [invalidSid error] is [error.message.includes("Parameter 'sid' is not
    valid")]. *)
Record Outside : Type := {
  Ext : Type;
  calls_fetch_from : jsstring -> Ext -> Res (option jsstring) * Ext;
  uuidv4 : Ext -> jsstring * Ext;
  select_user : option jsstring -> Ext -> Res SelectResult * Ext;
  insert_user : option jsstring -> Ext -> Res bool * Ext;
  invalidSid : Err -> bool }.

Inductive Frame : Type :=
| item_create_assistant (content : jsstring)
| response_create (content : jsstring).

Inductive Step : Type :=
| Send (f : Frame)
| Log (text : string)
| Failure (text : string)
| CallFetch
| NewId
| SelectUser
| InsertUser.

Definition INITIAL_GREETING : jsstring :=
  js "Hey trainer! My name is Marcus, it's nice to meet you. What is your name?".

Definition RETURNING_GREETING : jsstring :=
  js "Welcome back, {name}! Last time we talked about {lastTopic}. Would you like to continue that discussion or do you have a new question?".

(** [a || b] on strings *)
Definition orElse (a : option jsstring) (b : jsstring) : jsstring :=
  if truthy a then toString a else b.

Section Call.

Variable O : Outside.

(** The socket's fields, the module's [sessionReady], the outside world. *)
Record World : Type := {
  openAiWs : Session;
  sessionReady : bool;
  external : Ext O }.

Definition with_external (x : Ext O) (w : World) : World :=
  {| openAiWs := openAiWs w; sessionReady := sessionReady w; external := x |}.

(** [sendAIMessage] (507-526) *)
Definition sendAIMessage (message : jsstring) : list Step :=
  [ Log "Sending AI message:";
    Send (item_create_assistant message);
    Send (response_create message) ].

(** [sendInitialGreeting] (496-505) *)
Definition sendInitialGreeting (greeting : jsstring) (w : World) : World * list Step :=
  if sessionReady w && truthy (Some greeting)
  then
    let ws := openAiWs w in
    ({| openAiWs :=
          {| fullDialogue := js "AI: " ++ greeting ++ [10%N];
             awaitingName := jseqb greeting INITIAL_GREETING;
             phoneNumber := phoneNumber ws;
             lastUserMessage := lastUserMessage ws;
             conversationId := conversationId ws;
             callSid := callSid ws |};
        sessionReady := sessionReady w;
        external := external w |},
     Log "Sending initial greeting:" :: sendAIMessage greeting)
  else (w, [Log "Session not ready or greeting not set, delaying initial greeting"]).

(** The [catch] block of [handleIncomingCall] (485-490). *)
Definition caught (e : Err) (w : World) (done : list Step) : World * list Step :=
  (w, done ++ Failure "Error handling incoming call:"
           :: if invalidSid O e then [Failure "Invalid Call SID:"] else []).

(** [handleIncomingCall] (443-493) *)
Definition handleIncomingCall (sid : option jsstring) (w : World) : World * list Step :=
  match sid with
  | None | Some [] => (w, [Failure "Call SID is undefined"])
  | Some sid' =>
      let '(call, x1) := calls_fetch_from O sid' (external w) in
      match call with
      | Throw e => caught e (with_external x1 w) [CallFetch]
      | Ok phone =>
          let '(id, x2) := uuidv4 O x1 in
          let ws := openAiWs w in
          let w2 :=
            {| openAiWs :=
                 {| fullDialogue := fullDialogue ws;
                    awaitingName := awaitingName ws;
                    phoneNumber := phone;
                    lastUserMessage := lastUserMessage ws;
                    conversationId := Some id;
                    callSid := callSid ws |};
               sessionReady := sessionReady w;
               external := x2 |} in
          let '(selected, x3) := select_user O phone x2 in
          match selected with
          | Throw e => caught e (with_external x3 w2) [CallFetch; NewId; SelectUser]
          | Ok result =>
              let looked :=
                [CallFetch; NewId; SelectUser]
                ++ match error result with
                   | Some code =>
                       if jseqb code (js "PGRST116") then []
                       else [Failure "Error fetching user data:"]
                   | None => []
                   end in
              match data result with
              | Some userData =>
                  let greeting :=
                    Greeting.replace (js "{lastTopic}")
                      (orElse (last_question userData)
                         (js "Pok" ++ [E_ACUTE] ++ js "mon"))
                      (Greeting.replace (js "{name}")
                         (orElse (user_name userData) (js "trainer"))
                         RETURNING_GREETING) in
                  let '(w', sent) := sendInitialGreeting greeting (with_external x3 w2) in
                  (w', looked ++ sent)
              | None =>
                  let '(inserted, x4) := insert_user O phone x3 in
                  match inserted with
                  | Throw e => caught e (with_external x4 w2) (looked ++ [InsertUser])
                  | Ok failed =>
                      let '(w', sent) :=
                        sendInitialGreeting INITIAL_GREETING (with_external x4 w2) in
                      (w',
                       looked ++ InsertUser
                       :: (if failed : bool
                           then [Failure "Error creating new user:"] else [])
                       ++ sent)
                  end
              end
          end
      end
  end.

(** The [session.updated] branch of [handleOpenAiMessage] (200-209). *)
Definition onSessionUpdated (w : World) : World * list Step :=
  let ready :=
    {| openAiWs := openAiWs w; sessionReady := true; external := external w |} in
  if truthy (callSid (openAiWs w))
  then
    let '(w', done) := handleIncomingCall (callSid (openAiWs w)) ready in
    (w', Log "Session updated successfully:" :: done)
  else
    (ready,
     [ Log "Session updated successfully:";
       Log "Call SID not set, waiting for incoming call" ]).

End Call.

Definition frames (steps : list Step) : list Frame :=
  flat_map (fun s => match s with
                     | Send f => [f]
                     | _ => []
                     end) steps.

(** The console entry of a greeting put off. *)
Definition delayed : Step :=
  Log "Session not ready or greeting not set, delaying initial greeting".

(** What a call of [handleIncomingCall] leaves when the configuration has
    been applied: no greeting and the dialogue as it was, or the two frames
    of a greeting, the dialogue begun anew with it, and the caller's name
    awaited exactly when the greeting is the one of a new caller. *)
Definition greeted {O : Outside} (w w' : World O) (steps : list Step) : Prop :=
  sessionReady w' = true
  /\ ~ In delayed steps
  /\ (frames steps = []
      /\ fullDialogue (openAiWs w') = fullDialogue (openAiWs w)
      /\ awaitingName (openAiWs w') = awaitingName (openAiWs w)
      \/ exists greeting,
           frames steps = [item_create_assistant greeting; response_create greeting]
           /\ fullDialogue (openAiWs w') = js "AI: " ++ greeting ++ [10%N]
           /\ (awaitingName (openAiWs w') = true <-> greeting = INITIAL_GREETING)
           /\ (In InsertUser steps <-> greeting = INITIAL_GREETING)).

End Server.

(** ** What the statements are about *)

Section Post.

Variable E : Env.

(** [post m w Q]: running [m] on [w] ends with a result, a world and effects
    that satisfy [Q]. *)
Definition post {A} (m : M E A) (w : World E)
  (Q : Res A -> World E -> list Effect -> Prop) : Prop :=
  Q (fst (fst (m w))) (snd (fst (m w))) (snd (m w)).

End Post.

(** What a retried collaborator call leaves in the effects: its calls, the
    console entries of the failures, the waits. *)
Definition retryEffect (op : Operation) (e : Effect) : Prop :=
  e = Invoke op \/ e = ConsoleError "Operation failed" \/ exists d, e = Delay d.

(** Effects that neither send a frame nor assign to the session. *)
Definition quiet (e : Effect) : Prop :=
  match e with
  | Invoke _ | Delay _ | ConsoleLog _ | ConsoleError _ => True
  | _ => False
  end.

Scheme Equality for Field.

(** An effect that assigns to the field [f] of the session. *)
Definition assignsTo (f : Field) (e : Effect) : bool :=
  match e with
  | Assign f' _ _ => Field_beq f f'
  | _ => false
  end.

Scheme Equality for Operation.

(** An effect that calls the collaborator [op]. *)
Definition invokes (op : Operation) (e : Effect) : bool :=
  match e with
  | Invoke op' => Operation_beq op op'
  | _ => false
  end.

Definition isCall (e : Effect) : bool :=
  match e with
  | Invoke _ => true
  | _ => false
  end.

(** What of the effects went out on the two connections. *)
Definition isSend (e : Effect) : bool :=
  match e with
  | ToOpenAi _ | ToTwilio _ => true
  | _ => false
  end.

Definition isSessionUpdate (e : Effect) : bool :=
  match e with
  | ToOpenAi session_update => true
  | _ => false
  end.

Definition count (p : Effect -> bool) (o : list Effect) : nat :=
  List.length (filter p o).

(** The booking states assigned, in order. *)
Definition statesEntered (o : list Effect) : list BookingState :=
  flat_map (fun e => match e with
                     | Assign F_bookingState _ after => [bookingState after]
                     | _ => []
                     end) o.

(** The tags the router has a branch for. *)
Definition handledTypes : list string :=
  [ "session.created"; "session.updated"; "input_audio_buffer.speech_started";
    "response.function_call_arguments.done"; "response.audio.delta";
    "response.content.done"; "response.audio_transcript.done";
    "conversation.item.input_audio_transcription.completed" ]%string.

(** The events that make the bridge send the configuration. *)
Definition sendsConfiguration (ev : Event) : bool :=
  match ev with
  | settle_timer => true
  | openAi_message (json_value r) => typeIs r "session.created"
  | _ => false
  end.

(** [after] is [before] but for the field [f]. *)
Definition changesOnly (f : Field) (before after : Session) : Prop :=
  match f with
  | F_fullDialogue => after = set_fullDialogue (fullDialogue after) before
  | F_phoneNumber => after = set_phoneNumber (phoneNumber after) before
  | F_lastUserMessage => after = set_lastUserMessage (lastUserMessage after) before
  | F_conversationId => after = set_conversationId (conversationId after) before
  | F_sessionReady => after = set_sessionReady (sessionReady after) before
  | F_sendingFunctionCallOutput =>
      after = set_sendingFunctionCallOutput (sendingFunctionCallOutput after) before
  | F_bookingState => after = set_bookingState (bookingState after) before
  | F_preferred_time => after = set_preferred_time (preferred_time after) before
  | F_email => after = set_email (email after) before
  | F_callSid => after = set_callSid (callSid after) before
  | F_readyState => after = set_readyState (readyState after) before
  end.

(** The assignments among the effects [o] lead from the session [s] to the
    session [s']: each one is made on the session the previous one left and
    changes its own field only. *)
Fixpoint accountsFor (s : Session) (o : list Effect) (s' : Session) : Prop :=
  match o with
  | [] => s' = s
  | Assign f before after :: o' =>
      before = s /\ changesOnly f before after /\ accountsFor after o' s'
  | _ :: o' => accountsFor s o' s'
  end.

(** An assignment to [preferred_time] or [email] is made while the booking
    state is not [idle]; an assignment of [confirm_email] to the booking state
    is made while the session holds a non-empty e-mail. *)
Definition guarded (e : Effect) : Prop :=
  match e with
  | Assign F_preferred_time before _ => bookingState before <> idle
  | Assign F_email before _ => bookingState before <> idle
  | Assign F_bookingState before after =>
      bookingState after = confirm_email -> truthy (email before) = true
  | _ => True
  end.

Definition routerError : Effect := ConsoleError "Error processing OpenAI message:".

(** What the handler of one event that assigns [preferred_time] does: it
    finds the session in [awaiting_time] and leaves it in [awaiting_email] or
    in [confirm_existing_email], or, when a call failed on the way, in
    [awaiting_time] with the router's console error. *)
Definition timeStored {E : Env} (w w' : World E) (o : list Effect) : Prop :=
  bookingState (openAiWs w) = awaiting_time
  /\ (bookingState (openAiWs w') = awaiting_email
      \/ bookingState (openAiWs w') = confirm_existing_email
      \/ (bookingState (openAiWs w') = awaiting_time /\ In routerError o)).

(** What the handler of one event that assigns [email] does: it finds the
    session in [awaiting_time], [awaiting_email] or [confirm_email], and
    leaves it in [confirm_email] or in [confirm_existing_email], or, when a
    call failed on the way, in [awaiting_email] with the router's console
    error. *)
Definition emailStored {E : Env} (w w' : World E) (o : list Effect) : Prop :=
  bookingState (openAiWs w) <> idle
  /\ (bookingState (openAiWs w') = confirm_email
      \/ bookingState (openAiWs w') = confirm_existing_email
      \/ (bookingState (openAiWs w') = awaiting_email /\ In routerError o)).

(** The request with which [bookTrainingSession], called in the world [w]
    with a time and an address, calls the calendar, and the outside world at
    the call; none when the time is missing or no valid date (1062-1093). *)
Definition calendarCall {E : Env} (w : World E) (preferredTime e : option jsstring)
  : option (CalendarEvent * Ext E) :=
  if negb (truthy preferredTime) then None
  else
    let startTime := Date_parse E (toString preferredTime) in
    let endTime :=
      match startTime with
      | Some t => timeClip (t + 30 * 60 * 1000)%Z
      | None => None
      end in
    match startTime, endTime with
    | Some t, Some t' =>
        let '(u, x) := uuidv4 E (external w) in
        Some ({| start_dateTime := toISOString E t; end_dateTime := toISOString E t';
                 attendee_email := e; requestId := u |}, x)
    | _, _ => None
    end.

(** The calendar call of a commit attempt fails: the call that the attempt
    makes throws, or is answered with a status other than 200 and 201.  An
    attempt that makes no call has none that succeeds. *)
Definition calendarCallFails {E : Env} (w : World E)
  (preferredTime e : option jsstring) : Prop :=
  match calendarCall w preferredTime e with
  | Some (request, x) =>
      match fst (calendar_events_insert E request x) with
      | Ok response => status response <> 200%Z /\ status response <> 201%Z
      | Throw _ => True
      end
  | None => True
  end.

(** What a failed commit attempt leaves: the session in [idle], the spoken
    failure message sent, the calendar called at most once, and no booking
    record created. *)
Definition failedCommit {E : Env} (w' : World E) (o : list Effect) : Prop :=
  bookingState (openAiWs w') = idle
  /\ In (ToOpenAi (response_create bookingFailedPrompt 7 150)) o
  /\ (count (invokes op_calendarEventsInsert) o <= 1)%nat
  /\ count (invokes op_dbCreateBooking) o = 0%nat.

(** A text that does not begin with white space. *)
Definition noSpaceAtHead (s : jsstring) : Prop :=
  match s with
  | [] => True
  | c :: _ => isSpace c = false
  end.

(** The moves of the booking state that the handlers make. *)
Definition moves (from to : BookingState) : bool :=
  match to, from with
  | idle, _ => true
  | awaiting_time, idle => true
  | awaiting_email, (awaiting_time | confirm_email | confirm_existing_email) => true
  | confirm_email, awaiting_email => true
  | confirm_existing_email, (awaiting_time | confirm_email) => true
  | _, _ => false
  end.

(** An assignment to the booking state makes one of these moves. *)
Definition alongEdge (e : Effect) : Prop :=
  match e with
  | Assign F_bookingState before after =>
      moves (bookingState before) (bookingState after) = true
  | _ => True
  end.

(** A line of the dialogue: the speaker's label, a text, a line feed. *)
Definition dialogueLine (line : jsstring) : Prop :=
  exists text,
    line = js "AI: " ++ text ++ [10%N] \/ line = js "User: " ++ text ++ [10%N].

(** An assignment to the dialogue appends a line to it; one to the e-mail,
    the preferred time or the readiness flag stores a value that counts as
    true. *)
Definition keeps (e : Effect) : Prop :=
  match e with
  | Assign F_fullDialogue before after =>
      exists line,
        fullDialogue after = fullDialogue before ++ line /\ dialogueLine line
  | Assign F_email _ after => truthy (email after) = true
  | Assign F_preferred_time _ after => truthy (preferred_time after) = true
  | Assign F_sessionReady _ after => sessionReady after = true
  | _ => True
  end.

Definition isModelEvent (ev : Event) (t : string) : bool :=
  match ev with
  | openAi_message (json_value r) => typeIs r t
  | _ => false
  end.

Definition isTelephonyEvent (ev : Event) (t : string) : bool :=
  match ev with
  | twilio_message (json_value d) => eventIs d t
  | _ => false
  end.

(** The fields of the session that the handler of an event may assign. *)
Definition mayAssign (ev : Event) (f : Field) : bool :=
  match f with
  | F_readyState =>
      match ev with
      | openAi_open | openAi_close | twilio_close => true
      | _ => false
      end
  | F_callSid => isTelephonyEvent ev "start"
  | F_sessionReady | F_phoneNumber | F_conversationId =>
      isModelEvent ev "session.updated"
  | F_lastUserMessage =>
      isModelEvent ev "conversation.item.input_audio_transcription.completed"
  | F_sendingFunctionCallOutput =>
      isModelEvent ev "response.function_call_arguments.done"
      || isModelEvent ev "response.content.done"
  | F_fullDialogue =>
      isModelEvent ev "response.function_call_arguments.done"
      || isModelEvent ev "response.content.done"
      || isModelEvent ev "response.audio_transcript.done"
      || isModelEvent ev "conversation.item.input_audio_transcription.completed"
  | F_bookingState =>
      isModelEvent ev "response.function_call_arguments.done"
      || isModelEvent ev "response.content.done"
      || isModelEvent ev "conversation.item.input_audio_transcription.completed"
  | F_preferred_time | F_email =>
      isModelEvent ev "response.content.done"
      || isModelEvent ev "conversation.item.input_audio_transcription.completed"
  end.

Definition assignsAllowed (ev : Event) (e : Effect) : Prop :=
  match e with
  | Assign f _ _ => mayAssign ev f = true
  | _ => True
  end.

(** The greeting of [sendUserMessage] is the response request with 300
    output tokens; the prompts of the booking dialogue and the request to
    summarize a knowledge answer have 150. *)
Definition isGreeting (max_output_tokens : Z) : bool :=
  (max_output_tokens =? 300)%Z.

(** The frames that the handler of an event may send, the event being
    handled on the world [w]. *)
Definition sendsAllowed {E : Env} (ev : Event) (w : World E) (e : Effect) : Prop :=
  match e with
  | ToTwilio (twilio_clear sid) =>
      isModelEvent ev "input_audio_buffer.speech_started" = true /\ sid = streamSid w
  | ToTwilio (twilio_media sid payload) =>
      isModelEvent ev "response.audio.delta" = true /\ sid = streamSid w
      /\ payload <> []
  | ToOpenAi (input_audio_buffer_append _) =>
      isTelephonyEvent ev "media" = true /\ readyState (openAiWs w) = OPEN
  | ToOpenAi response_cancel =>
      isModelEvent ev "input_audio_buffer.speech_started" = true
  | ToOpenAi session_update => sendsConfiguration ev = true
  | ToOpenAi (item_create_assistant _)
  | ToOpenAi (item_create_function_call_output _) =>
      isModelEvent ev "response.function_call_arguments.done" = true
  | ToOpenAi (response_create _ _ max_output_tokens) =>
      if isGreeting max_output_tokens
      then
        isModelEvent ev "session.updated" = true
        /\ truthy (callSid (openAiWs w)) = true
      else
        isModelEvent ev "response.function_call_arguments.done"
        || isModelEvent ev "response.content.done"
        || isModelEvent ev "conversation.item.input_audio_transcription.completed"
        = true
  | CloseOpenAi => ev = twilio_close /\ readyState (openAiWs w) = OPEN
  | _ => True
  end.

(** The booking states in which a commit is being prepared: a preferred
    time has been understood; an e-mail is waiting to be confirmed. *)
Definition needsTime (b : BookingState) : bool :=
  match b with
  | awaiting_email | confirm_email | confirm_existing_email => true
  | _ => false
  end.

Definition needsEmail (b : BookingState) : bool :=
  match b with
  | confirm_email | confirm_existing_email => true
  | _ => false
  end.

(** The session holds what its booking state stands for. *)
Definition prepared (s : Session) : Prop :=
  (needsTime (bookingState s) = true -> truthy (preferred_time s) = true)
  /\ (needsEmail (bookingState s) = true -> truthy (email s) = true).

(** An assignment to the booking state enters a state whose fields the
    session holds. *)
Definition entersPrepared (e : Effect) : Prop :=
  match e with
  | Assign F_bookingState before after =>
      prepared (set_bookingState (bookingState after) before)
  | _ => True
  end.

(** The greeting among the effects. *)
Definition greetingFrame (e : Effect) : bool :=
  match e with
  | ToOpenAi (response_create _ _ max_output_tokens) => isGreeting max_output_tokens
  | _ => false
  end.

(** The tools that the configuration declares to the model (index.js,
    290-327). *)
Definition declaredTools : list string :=
  ["access_knowledge_base"; "schedule_training_session"]%string.

(** What a commit attempt leaves: the dialogue back in [idle], and one
    frame, which tells of the booking only when the calendar was called and
    the booking and the caller's e-mail were handed to the store. *)
Definition committed {E : Env} (success : jsstring) (w' : World E)
  (o : list Effect) : Prop :=
  bookingState (openAiWs w') = idle
  /\ (filter isSend o = [ToOpenAi (response_create success 7 150)]
      /\ count (invokes op_calendarEventsInsert) o = 1%nat
      /\ (1 <= count (invokes op_dbCreateBooking) o)%nat
      /\ (1 <= count (invokes op_dbUpdateUserEmail) o)%nat
      \/ filter isSend o = [ToOpenAi (response_create bookingFailedPrompt 7 150)]).

(** The events that end a call: the telephony stop event and the closing
    of the model connection. *)
Definition endsCall (ev : Event) : bool :=
  isTelephonyEvent ev "stop"
  || match ev with
     | openAi_close => true
     | _ => false
     end.

(** The collaborators that the handler of an event may call. *)
Definition mayCall (ev : Event) (op : Operation) : bool :=
  match op with
  | op_twilioCallFetch | op_dbCreateConversation | op_dbGetLastConversation =>
      isModelEvent ev "session.updated"
  | op_dbCreateOrGetUser =>
      isModelEvent ev "session.updated"
      || isModelEvent ev "response.content.done"
      || isModelEvent ev "conversation.item.input_audio_transcription.completed"
  | op_askSupabaseAssistant =>
      isModelEvent ev "response.function_call_arguments.done"
  | op_uuidv4 | op_calendarEventsInsert | op_dbCreateBooking
  | op_dbUpdateBookingState =>
      isModelEvent ev "response.function_call_arguments.done"
      || isModelEvent ev "response.content.done"
      || isModelEvent ev "conversation.item.input_audio_transcription.completed"
  | op_dbUpdateUserEmail =>
      isModelEvent ev "response.function_call_arguments.done"
      || isModelEvent ev "response.content.done"
      || isModelEvent ev "conversation.item.input_audio_transcription.completed"
      || endsCall ev
  | op_dbUpdateConversation =>
      isModelEvent ev "response.content.done"
      || isModelEvent ev "response.audio_transcript.done"
      || isModelEvent ev "conversation.item.input_audio_transcription.completed"
  | op_fetchSummary | op_fetchUserName | op_dbUpdateUserName
  | op_extractEmailFromSummary | op_dbFinalizeConversation => endsCall ev
  end.

Definition callsAllowed (ev : Event) (e : Effect) : Prop :=
  match e with
  | Invoke op => mayCall ev op = true
  | _ => True
  end.

(** Effects that neither send nor assign, with calls of the collaborators
    [ops] only. *)
Definition calling (ops : list Operation) (e : Effect) : Prop :=
  match e with
  | Invoke op => In op ops
  | Delay _ | ConsoleLog _ | ConsoleError _ => True
  | _ => False
  end.

Definition bookingCalls : list Operation :=
  [op_uuidv4; op_calendarEventsInsert; op_dbCreateBooking; op_dbUpdateUserEmail].

Definition finalizingCalls : list Operation :=
  [ op_fetchSummary; op_fetchUserName; op_dbUpdateUserName;
    op_extractEmailFromSummary; op_dbUpdateUserEmail; op_dbFinalizeConversation ].

(** The test of the caller's transcript before it is entered in the
    dialogue (index.js, 585). *)
Definition spoken (response : Message) : bool :=
  truthy (transcript response)
  && negb (jseqb (trim (toString (transcript response))) []).


(** The waits of the retry adapter, in order. *)
Fixpoint waitsOf {S Ev : Type} (evs : list (Retry.RetryEvent S Ev)) : list Z :=
  match evs with
  | [] => []
  | Retry.Wait d :: evs' => d :: waitsOf evs'
  | _ :: evs' => waitsOf evs'
  end.

(** The summary request of the finalizer fails: it throws, the endpoint
    answers with an error status, or the answer has not the shape of a
    completion. *)
Definition summaryFails {E : Env} (w : World E) : Prop :=
  match fetchChatCompletion E op_fetchSummary (fullDialogue (openAiWs w)) (external w) with
  | (Ok response, _) =>
      ok response = false \/ exists e, message_content response = Throw e
  | (Throw _, _) => True
  end.

(** *** The terms under which handlers overlap

    What every effect is to satisfy; what a paused handler takes for granted
    of the world it is resumed in, given the world it paused in; and what a
    handler warrants of the world it leaves at an await, given the world it
    was resumed in. *)
Record Terms (E : Env) : Type := {
  effectOk : Effect -> Prop;
  rely : World E -> World E -> Prop;
  guar : World E -> World E -> Prop }.

Section Ok.

Variable E : Env.
Variable T : Terms E.

(** [abidesT T t w Q]: what is left of a computation, paused in the world [w],
    keeps the terms [T] and ends with a result and a world that satisfy
    [Q]. *)
Fixpoint abidesT {A} (t : Async.Task E A) (w : World E)
  (Q : Res A -> World E -> Prop) : Prop :=
  match t with
  | Async.Done r => Q r w
  | Async.Paused rest =>
      forall w1, rely T w w1 ->
        let '(t', w', o) := rest w1 in
        Forall (effectOk T) o /\ guar T w1 w' /\ abidesT t' w' Q
  end.

Definition abides {A} (m : Async.Co E A) (w : World E)
  (Q : Res A -> World E -> Prop) : Prop :=
  let '(t, w', o) := m w in
  Forall (effectOk T) o /\ guar T w w' /\ abidesT t w' Q.

(** The terms can be kept: both relations are preorders that hold across a
    change of the outside world, and an effect that neither sends nor assigns
    is all right. *)
Record fair : Prop := {
  rely_refl : forall w, rely T w w;
  rely_trans : forall a b c, rely T a b -> rely T b c -> rely T a c;
  rely_ext : forall w x, rely T w (with_external x w);
  guar_refl : forall w, guar T w w;
  guar_trans : forall a b c, guar T a b -> guar T b c -> guar T a c;
  guar_ext : forall w x, guar T w (with_external x w);
  quiet_ok : forall e, quiet e -> effectOk T e }.

End Ok.

(** A paused handler finds the session as it left it. *)
Definition sameSession {E : Env} (w w' : World E) : Prop :=
  openAiWs w' = openAiWs w.

(** An e-mail that the session holds stays one. *)
Definition emailKept {E : Env} (w w' : World E) : Prop :=
  truthy (email (openAiWs w)) = true -> truthy (email (openAiWs w')) = true.

(** What of [guarded] holds however the handlers overlap: an assignment to
    [preferred_time] is made while the booking state is not [idle], and one
    of [confirm_email] to the booking state while the session holds a
    non-empty e-mail. *)
Definition guardedUnderOverlap (e : Effect) : Prop :=
  match e with
  | Assign F_preferred_time before _ => bookingState before <> idle
  | Assign F_bookingState before after =>
      bookingState after = confirm_email -> truthy (email before) = true
  | _ => True
  end.

(** The booking state becomes [awaiting_time] from [idle] only. *)
Definition startsFromIdle (e : Effect) : Prop :=
  match e with
  | Assign F_bookingState before after =>
      bookingState after = awaiting_time -> bookingState before = idle
  | _ => True
  end.

(** The terms of a call whose handlers do not overlap. *)
Definition aloneTerms (E : Env) : Terms E :=
  {| effectOk := fun e => guarded e /\ alongEdge e;
     rely := sameSession;
     guar := fun _ _ => True |}.

(** The terms of a call whose handlers overlap in any way. *)
Definition overlapTerms (E : Env) : Terms E :=
  {| effectOk := fun e => guardedUnderOverlap e /\ startsFromIdle e;
     rely := emailKept;
     guar := emailKept |}.

(** A computation that leaves the session as it finds it. *)
Definition keepsSession {E : Env} {A : Type} (m : M E A) : Prop :=
  forall w, openAiWs (snd (fst (m w))) = openAiWs w.

(** An assignment to the field [f] made while the booking state is [idle]. *)
Definition assignedWhileIdle (f : Field) (e : Effect) : bool :=
  match e with
  | Assign f' before _ =>
      Field_beq f f'
      && match bookingState before with
         | idle => true
         | _ => false
         end
  | _ => false
  end.

(** ** A concrete outside world

    Storage that fails a given number of times before it answers, one stored
    user, a calendar that answers with a given status or throws, a date
    parser and a chat endpoint with fixed answers. *)

Module Demo.

Record Outside : Type := {
  failures : nat;
  stored_user : option User;
  calendar_status : option Z;
  chrono_result : option Z;
  chat_text : option jsstring }.

Definition failing (n : nat) (x : Outside) : Outside :=
  {| failures := n; stored_user := stored_user x;
     calendar_status := calendar_status x; chrono_result := chrono_result x;
     chat_text := chat_text x |}.

Definition storage {A} (a : A) (x : Outside) : Res A * Outside :=
  match failures x with
  | O => (Ok a, x)
  | S n => (Throw (ErrorObject (js "storage timeout")), failing n x)
  end.

Definition envWith
  (calendar : CalendarEvent -> Outside -> Res InsertResponse * Outside) : Env :=
  {| Ext := Outside;
     toLowerCase := asciiLower;
     chrono_parseDate := fun x _ => Ok (chrono_result x);
     Date_parse := fun _ => Some 0%Z;
     toISOString := fun _ => js "1970-01-01T00:00:00.000Z";
     uuidv4 := fun x => (js "00000000-0000-4000-8000-000000000000", x);
     dbCreateOrGetUser := fun _ x => storage (stored_user x) x;
     dbUpdateUserName := fun _ _ => storage tt;
     dbUpdateUserEmail := fun _ _ => storage tt;
     dbCreateConversation := fun _ sid =>
       storage (Some {| conversation_id := Some sid; summary := None |});
     dbUpdateConversation := fun _ _ _ => storage tt;
     dbFinalizeConversation := fun _ _ _ => storage tt;
     dbGetLastConversation := fun _ => storage None;
     dbCreateBooking := fun _ _ _ _ _ => storage true;
     dbUpdateBookingState := fun _ _ => storage tt;
     extractEmailFromSummary := fun _ x => (Ok None, x);
     calendar_events_insert := calendar;
     twilio_calls_fetch_from := fun _ x => (Ok (Some (js "+15550100")), x);
     askSupabaseAssistant := fun _ x => (None, x);
     fetchChatCompletion := fun _ _ x =>
       match chat_text x with
       | Some t => (Ok {| ok := true; message_content := Ok t |}, x)
       | None => (Throw (ErrorObject (js "fetch failed")), x)
       end;
     returningUserPrompt := fun n _ => js "Nice to see you again, " ++ n |}.

(** A calendar that answers with the status the outside world holds. *)
Definition env : Env :=
  envWith (fun _ x =>
             match calendar_status x with
             | Some st => (Ok {| status := st; data_id := Some (js "evt1") |}, x)
             | None => (Throw (ErrorObject (js "calendar unavailable")), x)
             end).

(** A calendar that is down. *)
Definition envDown : Env :=
  envWith (fun _ x => (Throw (ErrorObject (js "calendar unavailable")), x)).

(** A caller known by the number alone, and collaborators that answer. *)
Definition outside : Outside :=
  {| failures := 0;
     stored_user := Some {| user_name := None; user_email := None |};
     calendar_status := Some 200%Z;
     chrono_result := Some 0%Z; chat_text := Some (js "Name not found") |}.

Definition world (s : Session) (x : Outside) : World env :=
  {| openAiWs := s; streamSid := Some (js "MZ1"); route_callSid := Some (js "CA1");
     external := (x : Ext env) |}.

Definition worldDown (s : Session) (x : Outside) : World envDown :=
  {| openAiWs := s; streamSid := Some (js "MZ1"); route_callSid := Some (js "CA1");
     external := (x : Ext envDown) |}.

(** A model event of a given type, with a transcript, a content or a delta. *)
Definition message (t : string) (text : option jsstring) : Message :=
  {| type := Some (js t); name := None; arguments := unparseable;
     delta := text; content := text; transcript := text |}.

Definition toolCall (n : string) (args : Parsed FunctionArgs) : Message :=
  {| type := Some (js "response.function_call_arguments.done"); name := Some (js n);
     arguments := args; delta := None; content := None; transcript := None |}.


End Demo.

(** The outside world of [Demo.outside] with a calendar that refuses the
    request. *)
Definition refusingOutside : Demo.Outside :=
  {| Demo.failures := 0;
     Demo.stored_user := Some {| user_name := None; user_email := None |};
     Demo.calendar_status := Some 500%Z;
     Demo.chrono_result := Some 0%Z;
     Demo.chat_text := Some (js "Name not found") |}.

(** *** A call in which two handlers overlap

    The caller, asked for a time, names one; the handler of the
    transcription stores it and looks the caller up, who has an e-mail on
    file.  While the lookup is under way the model calls
    [schedule_training_session]; that handler runs to its end.  Then the
    lookup returns. *)

Definition onFile : Demo.Outside :=
  {| Demo.failures := 0;
     Demo.stored_user :=
       Some {| user_name := None; user_email := Some (js "john@example.com") |};
     Demo.calendar_status := Some 200%Z;
     Demo.chrono_result := Some 0%Z;
     Demo.chat_text := Some (js "Name not found") |}.

Definition timeNamed : Event :=
  openAi_message
    (json_value
       (Demo.message "conversation.item.input_audio_transcription.completed"
          (Some (js "tomorrow at five")))).

Definition toolCalled : Event :=
  openAi_message
    (json_value
       (Demo.toolCall "schedule_training_session"
          (json_value {| question := None;
                         arg_preferred_time := Some (js "2026-11-10T15:00:00.000Z");
                         arg_email := Some (js "john@example.com") |}))).

Definition overlappingCall : list Async.Action :=
  [ Async.arrive timeNamed; Async.resume 0; Async.resume 0; Async.arrive toolCalled ]
  ++ repeat (Async.resume 1) 8
  ++ [ Async.resume 0; Async.resume 0 ].

(** The same events, the second arriving when the handler of the first has
    finished. *)
Definition callInTurn : list Async.Action :=
  Async.arrive timeNamed :: repeat (Async.resume 0) 6
  ++ Async.arrive toolCalled :: repeat (Async.resume 0) 8.

(** The outside world of [Demo.env], with a knowledge base that answers. *)
Definition knowingEnv (answer : jsstring) : Env :=
  {| Ext := Demo.Outside;
     toLowerCase := toLowerCase Demo.env;
     chrono_parseDate := chrono_parseDate Demo.env;
     Date_parse := Date_parse Demo.env;
     toISOString := toISOString Demo.env;
     uuidv4 := uuidv4 Demo.env;
     dbCreateOrGetUser := dbCreateOrGetUser Demo.env;
     dbUpdateUserName := dbUpdateUserName Demo.env;
     dbUpdateUserEmail := dbUpdateUserEmail Demo.env;
     dbCreateConversation := dbCreateConversation Demo.env;
     dbUpdateConversation := dbUpdateConversation Demo.env;
     dbFinalizeConversation := dbFinalizeConversation Demo.env;
     dbGetLastConversation := dbGetLastConversation Demo.env;
     dbCreateBooking := dbCreateBooking Demo.env;
     dbUpdateBookingState := dbUpdateBookingState Demo.env;
     extractEmailFromSummary := extractEmailFromSummary Demo.env;
     calendar_events_insert := calendar_events_insert Demo.env;
     twilio_calls_fetch_from := twilio_calls_fetch_from Demo.env;
     askSupabaseAssistant := fun _ x => (Some answer, x);
     fetchChatCompletion := fetchChatCompletion Demo.env;
     returningUserPrompt := returningUserPrompt Demo.env |}.

(** * Properties *)

(** ** Strings *)

Lemma jseqb_eq (a b : jsstring) : jseqb a b = true <-> a = b.
Proof.
  revert b; induction a as [|x a IH]; intros [|y b]; simpl; split;
    try congruence; try reflexivity.
  - intros H. apply andb_prop in H as [H1 H2].
    apply N.eqb_eq in H1. apply IH in H2. congruence.
  - intros H. injection H as -> ->.
    rewrite N.eqb_refl. simpl. now apply IH.
Qed.

Lemma jseqb_refl (a : jsstring) : jseqb a a = true.
Proof. now apply jseqb_eq. Qed.

(** ** The pattern matcher decides the language *)

Module RegexFacts.
Import Regex.

Lemma nullable_lang (r : regex) : nullable r = true <-> lang r [].
Proof.
  induction r as [| |p|a IHa b IHb|a IHa b IHb|a IHa]; simpl.
  - split; [discriminate | intros H; inversion H].
  - split; [constructor | reflexivity].
  - split; [discriminate | intros H; inversion H].
  - rewrite andb_true_iff, IHa, IHb. split.
    + intros [Ha Hb].
      change (@nil codeunit) with (@nil codeunit ++ []). now constructor.
    + intros H. inversion H; subst.
      match goal with
      | Heq : _ ++ _ = [] |- _ => apply app_eq_nil in Heq as [-> ->]
      end.
      now split.
  - rewrite orb_true_iff, IHa, IHb. split.
    + intros [H|H]; [now apply lang_alt_l | now apply lang_alt_r].
    + intros H; inversion H; subst; auto.
  - split; [constructor | reflexivity].
Qed.

Lemma lang_cat_inv (a b : regex) (s : jsstring) :
  lang (Cat a b) s <-> exists u t, s = u ++ t /\ lang a u /\ lang b t.
Proof.
  split.
  - intros H. inversion H; subst. eauto.
  - intros (u & t & -> & Hu & Ht). now constructor.
Qed.

Lemma lang_cat_cons (a b : regex) (c : codeunit) (s : jsstring) :
  lang (Cat a b) (c :: s) ->
  (exists s1 s2, s = s1 ++ s2 /\ lang a (c :: s1) /\ lang b s2)
  \/ (lang a [] /\ lang b (c :: s)).
Proof.
  intros H. apply lang_cat_inv in H as (u & t & Heq & Hu & Ht).
  destruct u as [|x u]; simpl in Heq.
  - right. subst t. now split.
  - left. injection Heq as -> ->. now exists u, t.
Qed.

Lemma lang_star_cons_inv (a : regex) (c : codeunit) (s : jsstring) :
  lang (Star a) (c :: s) ->
  exists s1 s2, s = s1 ++ s2 /\ lang a (c :: s1) /\ lang (Star a) s2.
Proof.
  intros H. remember (Star a) as r eqn:Hr. remember (c :: s) as w eqn:Hw.
  revert Hr Hw.
  induction H as [| | | | | |a' u t Hu _ Ht IHt]; intros Hr Hw;
    try discriminate.
  injection Hr as ->.
  destruct u as [|x u]; simpl in Hw.
  - now apply IHt.
  - injection Hw as <- <-. now exists u, t.
Qed.

Lemma deriv_lang (r : regex) :
  forall c s, lang (deriv c r) s <-> lang r (c :: s).
Proof.
  induction r as [| |p|a IHa b IHb|a IHa b IHb|a IHa]; intros c s; simpl.
  - split; intros H; inversion H.
  - split; intros H; inversion H.
  - destruct (p c) eqn:Hp; split; intros H.
    + inversion H; subst. now constructor.
    + inversion H; subst. constructor.
    + inversion H.
    + inversion H; subst. congruence.
  - split.
    + intros H. destruct (nullable a) eqn:Hn.
      * inversion H as [| | |a' b' s' H1|a' b' s' H1| |]; subst.
        -- inversion H1 as [| |a' b' u t Hu Ht| | | |]; subst.
           change (c :: u ++ t) with ((c :: u) ++ t).
           constructor; [now apply IHa | assumption].
        -- change (c :: s) with ([] ++ c :: s).
           constructor; [now apply nullable_lang | now apply IHb].
      * inversion H as [| |a' b' u t Hu Ht| | | |]; subst.
        change (c :: u ++ t) with ((c :: u) ++ t).
        constructor; [now apply IHa | assumption].
    + intros H. apply lang_cat_cons in H as [(s1 & s2 & -> & H1 & H2)|[H1 H2]].
      * assert (Hc : lang (Cat (deriv c a) b) (s1 ++ s2))
          by (constructor; [now apply IHa | assumption]).
        destruct (nullable a); [now apply lang_alt_l | assumption].
      * apply nullable_lang in H1. rewrite H1.
        apply lang_alt_r. now apply IHb.
  - split; intros H.
    + inversion H; subst;
        [apply lang_alt_l; now apply IHa | apply lang_alt_r; now apply IHb].
    + inversion H; subst;
        [apply lang_alt_l; now apply IHa | apply lang_alt_r; now apply IHb].
  - split; intros H.
    + inversion H as [| |a' b' u t Hu Ht| | | |]; subst.
      change (c :: u ++ t) with ((c :: u) ++ t).
      constructor; [now apply IHa | assumption].
    + apply lang_star_cons_inv in H as (s1 & s2 & -> & H1 & H2).
      constructor; [now apply IHa | assumption].
Qed.

Lemma test_lang (s : jsstring) : forall r, test r s = true <-> lang r s.
Proof.
  induction s as [|c s IH]; intros r; simpl.
  - apply nullable_lang.
  - rewrite IH. apply deriv_lang.
Qed.

Lemma lang_class_inv (p : codeunit -> bool) (s : jsstring) :
  lang (Class p) s <-> exists c, s = [c] /\ p c = true.
Proof.
  split.
  - intros H. inversion H; subst. eauto.
  - intros (c & -> & Hc). now constructor.
Qed.

Lemma lang_star_class (p : codeunit -> bool) (s : jsstring) :
  lang (Star (Class p)) s <-> Forall (fun c => p c = true) s.
Proof.
  split.
  - intros H. remember (Star (Class p)) as r eqn:Hr. revert Hr.
    induction H as [| | | | | |a u t Hu _ Ht IHt]; intros Hr; try discriminate.
    + constructor.
    + injection Hr as ->. inversion Hu; subst. simpl.
      constructor; [assumption | now apply IHt].
  - induction 1 as [|c s Hc _ IH].
    + constructor.
    + change (c :: s) with ([c] ++ s). constructor; [now constructor | exact IH].
Qed.

Lemma lang_plus_class (p : codeunit -> bool) (s : jsstring) :
  lang (Plus (Class p)) s <-> s <> [] /\ Forall (fun c => p c = true) s.
Proof.
  unfold Plus. split.
  - intros H. inversion H as [| |a b u t Hu Ht| | | |]; subst.
    inversion Hu; subst. simpl. split; [discriminate|].
    constructor; [assumption | now apply lang_star_class].
  - intros [Hne Hall]. destruct s as [|c s]; [congruence|].
    inversion Hall; subst.
    change (c :: s) with ([c] ++ s).
    constructor; [now constructor | now apply lang_star_class].
Qed.

Lemma lang_lit (c : codeunit) (s : jsstring) : lang (Lit c) s <-> s = [c].
Proof.
  unfold Lit. rewrite lang_class_inv. split.
  - intros (x & -> & Hx). apply N.eqb_eq in Hx. now subst.
  - intros ->. exists c. split; [reflexivity | apply N.eqb_refl].
Qed.

End RegexFacts.

(** ** E-mail validation *)

Lemma part_iff (s : jsstring) :
  Email.part s <-> s <> [] /\ Forall (fun c => Email.notSpaceNorAt c = true) s.
Proof.
  unfold Email.part, Email.notSpaceNorAt.
  split; intros [Hne Hall]; (split; [exact Hne|]);
    eapply Forall_impl; try exact Hall; simpl; intros c Hc.
  - destruct Hc as [Hs Ha]. rewrite Hs. simpl.
    apply negb_true_iff. now apply N.eqb_neq.
  - apply negb_true_iff in Hc. apply orb_false_elim in Hc as [Hs Ha].
    split; [exact Hs | now apply N.eqb_neq].
Qed.

Lemma validateEmail_shape (e : jsstring) :
  Email.validateEmail e = true <-> Email.emailShape e.
Proof.
  unfold Email.validateEmail, Email.emailShape, Email.emailPattern.
  rewrite RegexFacts.test_lang.
  split.
  - intros H.
    apply RegexFacts.lang_cat_inv in H as (l & r1 & -> & Hl & H).
    apply RegexFacts.lang_cat_inv in H as (a & r2 & -> & Ha & H).
    apply RegexFacts.lang_cat_inv in H as (d & r3 & -> & Hd & H).
    apply RegexFacts.lang_cat_inv in H as (p & t & -> & Hp & Ht).
    apply RegexFacts.lang_lit in Ha, Hp. subst.
    apply RegexFacts.lang_plus_class in Hl, Hd, Ht.
    exists l, d, t. repeat split; try (apply part_iff; assumption).
  - intros (l & d & t & Hl & Hd & Ht & ->).
    apply part_iff in Hl, Hd, Ht.
    repeat (apply RegexFacts.lang_cat_inv; do 2 eexists; split; [reflexivity|split]).
    + now apply RegexFacts.lang_plus_class.
    + now apply RegexFacts.lang_lit.
    + now apply RegexFacts.lang_plus_class.
    + now apply RegexFacts.lang_lit.
    + now apply RegexFacts.lang_plus_class.
Qed.

Lemma validateEmail_needs_at (e : jsstring) :
  ~ In AT_SIGN e -> Email.validateEmail e = false.
Proof.
  intros Hno. destruct (Email.validateEmail e) eqn:Hv; [|reflexivity].
  apply validateEmail_shape in Hv as (l & d & t & _ & _ & _ & ->).
  exfalso. apply Hno. apply in_or_app. right. now left.
Qed.

(** ** The retry adapter *)

Section RetryFacts.

Import Retry.

Variables (S A Ev : Type).
Variable operation : S -> Res A * S * list Ev.
Variable options : Options.

Let Evs : Type := list (RetryEvent S Ev).

Lemma attemptsOf_app (l1 l2 : Evs) :
  attemptsOf (l1 ++ l2) = attemptsOf l1 ++ attemptsOf l2.
Proof.
  induction l1 as [|e l1 IH]; simpl; [reflexivity|].
  destruct e; simpl; now rewrite IH.
Qed.

Lemma attemptsOf_none (l : Evs) :
  forallb (fun e => negb (isAttempt e)) l = true -> attemptsOf l = [].
Proof.
  induction l as [|e l IH]; simpl; [reflexivity|].
  destruct e; simpl; intros H; try discriminate; now apply IH.
Qed.

Lemma no_attempt_ofOperation (o : list Ev) :
  forallb (fun e => negb (isAttempt e)) (map (@OfOperation S Ev) o) = true.
Proof. induction o; simpl; auto. Qed.

(** An attempt found behind a prefix free of attempts lies in the rest. *)
Lemma attempt_behind (l1 l2 pre post : Evs) (k : nat) (st : S) :
  forallb (fun e => negb (isAttempt e)) l1 = true ->
  l1 ++ l2 = pre ++ Attempt k st :: post ->
  exists pre2, pre = l1 ++ pre2 /\ l2 = pre2 ++ Attempt k st :: post.
Proof.
  revert pre. induction l1 as [|e l1 IH]; simpl; intros pre Hno Heq.
  - now exists pre.
  - apply andb_prop in Hno as [He Hno].
    destruct pre as [|p pre]; simpl in Heq.
    + injection Heq as -> _. discriminate.
    + injection Heq as -> Heq.
      destruct (IH pre Hno Heq) as (pre2 & -> & ->).
      now exists pre2.
Qed.

Lemma delayAfter_specDelay (i : nat) :
  delayAfter options i = specDelay options (Datatypes.S (Datatypes.S i)).
Proof.
  unfold delayAfter, specDelay.
  replace (Z.of_nat (Datatypes.S (Datatypes.S i)) - 2)%Z with (Z.of_nat i) by lia.
  reflexivity.
Qed.

(** Every iteration of the loop calls the operation once. *)
Lemma retryLoop_head (n i : nat) (e : Err) (s : S) :
  snd (retryLoop operation options n i e s) = []
  \/ exists rest,
       snd (retryLoop operation options n i e s) = Attempt (Datatypes.S i) s :: rest.
Proof.
  destruct n as [|n]; simpl; [now left|right].
  destruct (operation s) as [[r s1] o]. destruct r as [a|err].
  - simpl. eauto.
  - destruct (retryLoop operation options n (Datatypes.S i) err s1) as [[r' s2] rest].
    simpl. eauto.
Qed.

Lemma retryLoop_nil (n i : nat) (e : Err) (s : S) :
  snd (retryLoop operation options n i e s) = [] -> n = 0%nat.
Proof.
  destruct n as [|n]; simpl; [reflexivity|].
  destruct (operation s) as [[r s1] o]. destruct r as [a|err].
  - discriminate.
  - destruct (retryLoop operation options n (Datatypes.S i) err s1) as [[r' s2] rest].
    discriminate.
Qed.

(** The loop from the index [i] on, [n] iterations before the bound. *)
Lemma retryLoop_spec (n : nat) :
  forall (i : nat) (e0 : Err) (s : S),
    (n + i = maxRetries options)%nat ->
    let '(r, s', evs) := retryLoop operation options n i e0 s in
    (exists m, (m <= n)%nat /\ attemptsOf evs = seq (Datatypes.S i) m)
    /\ (forall pre k st post a s1 o,
          evs = pre ++ Attempt k st :: post ->
          operation st = (Ok a, s1, o) ->
          post = map (@OfOperation S Ev) o /\ r = Ok a /\ s' = s1)
    /\ (forall pre k st post,
          evs = pre ++ Attempt k st :: post ->
          (pre = [] /\ k = Datatypes.S i)
          \/ ((i + 2 <= k)%nat
              /\ exists pre', pre = pre' ++ [Wait (specDelay options k)]))
    /\ ((forall k st, In (Attempt k st) evs ->
           exists err, fst (fst (operation st)) = Throw err) ->
        (1 <= n)%nat ->
        attemptsOf evs = seq (Datatypes.S i) n
        /\ exists pre st post err s1 o,
             evs = pre ++ Attempt (i + n) st :: post
             /\ operation st = (Throw err, s1, o)
             /\ r = Throw err).
Proof.
  induction n as [|n IH]; intros i e0 s Hn; simpl.
  - split; [|split; [|split]].
    + exists 0%nat. now split.
    + intros pre k st post a s1 o Heq. now destruct pre.
    + intros pre k st post Heq. now destruct pre.
    + lia.
  - destruct (operation s) as [[r s1] o] eqn:Hop. destruct r as [a|err].
    + (* the call succeeds *)
      assert (Honly : forall pre k st post,
                 Attempt (Datatypes.S i) s :: map (@OfOperation S Ev) o
                 = pre ++ Attempt k st :: post ->
                 pre = [] /\ k = Datatypes.S i /\ st = s
                 /\ post = map (@OfOperation S Ev) o).
      { intros pre k st post Heq.
        destruct pre as [|p pre]; simpl in Heq.
        - injection Heq as <- <- <-. now repeat split.
        - injection Heq as _ Heq.
          rewrite <- (app_nil_r (map _ o)) in Heq.
          apply (attempt_behind _ [] _ _ _ _ (no_attempt_ofOperation o)) in Heq.
          destruct Heq as (pre2 & _ & H'). now destruct pre2. }
      split; [|split; [|split]].
      * exists 1%nat. split; [lia|]. simpl.
        now rewrite attemptsOf_none by apply no_attempt_ofOperation.
      * intros pre k st post a' s3 o3 Heq Hok.
        destruct (Honly _ _ _ _ Heq) as (_ & _ & -> & ->).
        rewrite Hop in Hok. now injection Hok as <- <- <-.
      * intros pre k st post Heq.
        destruct (Honly _ _ _ _ Heq) as (-> & -> & _ & _). now left.
      * intros Hall _. exfalso.
        destruct (Hall (Datatypes.S i) s) as [err Herr]; [now left|].
        rewrite Hop in Herr. discriminate.
    + (* the call fails *)
      pose proof (IH (Datatypes.S i) err s1 ltac:(lia)) as IHn.
      pose proof (retryLoop_head n (Datatypes.S i) err s1) as Hhead.
      pose proof (retryLoop_nil n (Datatypes.S i) err s1) as Hnil.
      destruct (retryLoop operation options n (Datatypes.S i) err s1)
        as [[r' s2] rest] eqn:Hrest.
      simpl in Hhead, Hnil.
      destruct IHn as (Hcount & Hstop & Hdelay & Hexhaust).
      set (waited := if (Z.of_nat i <? Z.of_nat (maxRetries options) - 1)%Z
                     then [Wait (delayAfter options i)] else []) in *.
      set (mid := map (@OfOperation S Ev) o
                  ++ [Failed (Datatypes.S i) (maxRetries options) err] ++ waited).
      assert (Hmid : forallb (fun e => negb (isAttempt e)) mid = true).
      { unfold mid, waited. rewrite !forallb_app, no_attempt_ofOperation.
        simpl. now destruct (_ <? _)%Z. }
      assert (Hevs : map (@OfOperation S Ev) o
                     ++ Failed (Datatypes.S i) (maxRetries options) err
                        :: waited ++ rest = mid ++ rest).
      { unfold mid. now rewrite <- !app_assoc. }
      rewrite Hevs. clear Hevs.
      split; [|split; [|split]].
      * destruct Hcount as (m & Hm & Hseq).
        exists (Datatypes.S m). split; [lia|]. simpl.
        now rewrite attemptsOf_app, (attemptsOf_none _ Hmid), Hseq.
      * intros pre k st post a s3 o3 Heq Hok.
        destruct pre as [|p pre]; simpl in Heq.
        -- injection Heq as <- <- _. congruence.
        -- injection Heq as _ Heq.
           destruct (attempt_behind _ _ _ _ _ _ Hmid Heq) as (pre2 & _ & Hin).
           exact (Hstop _ _ _ _ _ _ _ Hin Hok).
      * intros pre k st post Heq.
        destruct pre as [|p pre]; simpl in Heq.
        -- left. injection Heq as <- _ _. now split.
        -- right. injection Heq as <- Heq.
           destruct (attempt_behind _ _ _ _ _ _ Hmid Heq) as (pre2 & -> & Hin).
           destruct (Hdelay _ _ _ _ Hin) as [[-> ->]|[Hk (pre' & ->)]].
           ++ split; [lia|].
              assert (Hn0 : n <> 0%nat) by (intros ->; now destruct rest).
              exists (Attempt (Datatypes.S i) s :: map (@OfOperation S Ev) o
                      ++ [Failed (Datatypes.S i) (maxRetries options) err]).
              rewrite app_nil_r. unfold mid, waited.
              destruct (Z.ltb_spec (Z.of_nat i) (Z.of_nat (maxRetries options) - 1));
                [|lia].
              rewrite delayAfter_specDelay. simpl.
              now rewrite <- !app_assoc.
           ++ split; [lia|].
              exists (Attempt (Datatypes.S i) s :: mid ++ pre').
              simpl. now rewrite <- !app_assoc.
      * intros Hall _.
        destruct n as [|n].
        -- (* the last iteration *)
           simpl in Hrest. injection Hrest as <- <- <-.
           split.
           ++ simpl. now rewrite app_nil_r, (attemptsOf_none _ Hmid).
           ++ exists [], s, (mid ++ []), err, s1, o.
              replace (i + 1)%nat with (Datatypes.S i) by lia. now repeat split.
        -- destruct Hexhaust as (Hseq & pre & st & post & err' & s3 & o3 & -> & Hop' & ->).
           ++ intros k st Hin. apply (Hall k). right.
              apply in_or_app. now right.
           ++ lia.
           ++ split.
              ** change (attemptsOf (Attempt (Datatypes.S i) s :: ?l))
                   with (Datatypes.S i :: attemptsOf l).
                 now rewrite attemptsOf_app, (attemptsOf_none _ Hmid), Hseq.
              ** exists (Attempt (Datatypes.S i) s :: mid ++ pre), st, post, err', s3, o3.
                 replace (i + Datatypes.S (Datatypes.S n))%nat
                   with (Datatypes.S i + Datatypes.S n)%nat by lia.
                 repeat split; [|assumption].
                 simpl. now rewrite <- !app_assoc.
Qed.

End RetryFacts.

(** ** Reasoning about the bridge's computations *)

Section BridgeFacts.

Variable E : Env.

Lemma post_ret {A} (a : A) (w : World E) Q : Q (Ok a) w [] -> post (ret a) w Q.
Proof. exact (fun H => H). Qed.

Lemma post_throw {A} (e : Err) (w : World E) (Q : Res A -> _) :
  Q (Throw e) w [] -> post (throw e) w Q.
Proof. exact (fun H => H). Qed.

Lemma post_emit e (w : World E) Q : Q (Ok tt) w [e] -> post (emit (E:=E) e) w Q.
Proof. exact (fun H => H). Qed.

Lemma post_getSession (w : World E) Q : Q (Ok (openAiWs w)) w [] -> post (getSession (E:=E)) w Q.
Proof. exact (fun H => H). Qed.

Lemma post_getStreamSid (w : World E) Q :
  Q (Ok (streamSid w)) w [] -> post (getStreamSid (E:=E)) w Q.
Proof. exact (fun H => H). Qed.

Lemma post_getExternal (w : World E) Q :
  Q (Ok (external w)) w [] -> post (getExternal (E:=E)) w Q.
Proof. exact (fun H => H). Qed.

Lemma post_assign f update (w : World E) Q :
  Q (Ok tt) (with_session (update (openAiWs w)) w)
    [Assign f (openAiWs w) (update (openAiWs w))] ->
  post (assign f update) w Q.
Proof. exact (fun H => H). Qed.

Lemma post_setStreamSid sid (w : World E) Q :
  Q (Ok tt)
    {| openAiWs := openAiWs w; streamSid := sid;
       route_callSid := route_callSid w; external := external w |} [] ->
  post (setStreamSid sid) w Q.
Proof. exact (fun H => H). Qed.

Lemma post_setCallSid cid (w : World E) Q :
  Q (Ok tt)
    {| openAiWs := openAiWs w; streamSid := streamSid w;
       route_callSid := cid; external := external w |} [] ->
  post (setCallSid cid) w Q.
Proof. exact (fun H => H). Qed.

Lemma post_bind {A B} (m : M E A) (k : A -> M E B) (w : World E) Q :
  post m w (fun r w1 o1 =>
              match r with
              | Ok a => post (k a) w1 (fun r2 w2 o2 => Q r2 w2 (o1 ++ o2))
              | Throw e => Q (Throw e) w1 o1
              end) ->
  post (bind m k) w Q.
Proof.
  unfold post, bind. destruct (m w) as [[r w1] o1]. simpl.
  destruct r as [a|e]; [|exact (fun H => H)].
  destruct (k a w1) as [[r2 w2] o2]. exact (fun H => H).
Qed.

Lemma post_tryCatch {A} (m : M E A) (h : Err -> M E A) (w : World E) Q :
  post m w (fun r w1 o1 =>
              match r with
              | Ok a => Q (Ok a) w1 o1
              | Throw e => post (h e) w1 (fun r2 w2 o2 => Q r2 w2 (o1 ++ o2))
              end) ->
  post (tryCatch m h) w Q.
Proof.
  unfold post, tryCatch. destruct (m w) as [[r w1] o1]. simpl.
  destruct r as [a|e]; [exact (fun H => H)|].
  destruct (h e w1) as [[r2 w2] o2]. exact (fun H => H).
Qed.

Lemma post_invoke {A} op (f : Ext E -> Res A * Ext E) (w : World E) Q :
  (forall r x, f (external w) = (r, x) -> Q r (with_external x w) [Invoke op]) ->
  post (invoke op f) w Q.
Proof.
  intros H. unfold post, invoke.
  destruct (f (external w)) as [r x] eqn:Hf. simpl. now apply H.
Qed.

Lemma with_external_same (w : World E) : with_external (external w) w = w.
Proof. now destruct w. Qed.

Lemma with_external_twice x y (w : World E) :
  with_external x (with_external y w) = with_external x w.
Proof. reflexivity. Qed.

Lemma retryLoop_invoke {A} op (f : Ext E -> Res A * Ext E) (n : nat) :
  forall i e0 (w : World E),
    exists r x evs,
      Retry.retryLoop (invoke op f) Retry.RETRY_OPTIONS n i e0 w
      = (r, with_external x w, evs)
      /\ Forall (retryEffect op) (flat_map (@ofRetryEvent E) evs).
Proof.
  induction n as [|n IH]; intros i e0 w; simpl.
  - exists (Throw e0), (external w), []. rewrite with_external_same. now split.
  - unfold invoke at 1. destruct (f (external w)) as [r x]. destruct r as [a|err].
    + exists (Ok a), x, [Retry.Attempt (Datatypes.S i) w; Retry.OfOperation (Invoke op)].
      split; [reflexivity|]. simpl. constructor; [now left|constructor].
    + destruct (IH (Datatypes.S i) err (with_external x w)) as (r' & x' & evs & -> & Hall).
      exists r', x'. eexists. split; [reflexivity|].
      simpl. constructor; [now left|].
      constructor; [right; now left|].
      rewrite flat_map_app. apply Forall_app. split; [|exact Hall].
      destruct (_ <? _)%Z; simpl; [|constructor].
      constructor; [|constructor]. right. right. eauto.
Qed.

Lemma post_withRetry_invoke {A} op (f : Ext E -> Res A * Ext E) (w : World E) Q :
  (forall r x o, Forall (retryEffect op) o -> Q r (with_external x w) o) ->
  post (withRetry (invoke op f)) w Q.
Proof.
  intros H. unfold post, withRetry, Retry.withRetry.
  destruct (retryLoop_invoke op f (Retry.maxRetries Retry.RETRY_OPTIONS)
              0 Undefined w) as (r & x & evs & -> & Hall).
  simpl. now apply H.
Qed.

Lemma post_weaken {A} (m : M E A) (w : World E) (Q Q' : Res A -> World E -> list Effect -> Prop) :
  post m w Q -> (forall r w' o, Q r w' o -> Q' r w' o) -> post m w Q'.
Proof. unfold post. auto. Qed.

Lemma post_run (m : M E unit) (w : World E) (Q : World E -> list Effect -> Prop) :
  post m w (fun _ w' o => Q w' o) -> Q (snd (fst (m w))) (snd (m w)).
Proof. exact (fun H => H). Qed.

Lemma post_eq {A} (m : M E A) (w : World E) (v : Res A * World E * list Effect) :
  post m w (fun r w' o => (r, w', o) = v) -> m w = v.
Proof. unfold post. now destruct (m w) as [[r w'] o]. Qed.

Lemma post_let {A} (m : M E A) (w : World E) (Q : World E -> list Effect -> Prop) :
  post m w (fun _ w' o => Q w' o) -> let '(_, w', o) := m w in Q w' o.
Proof. unfold post. now destruct (m w) as [[r w'] o]. Qed.

Lemma typeIs_true (r : Message) (t : string) :
  typeIs r t = true -> type r = Some (js t).
Proof.
  unfold typeIs. destruct (type r) as [x|]; [|discriminate].
  intros H. apply jseqb_eq in H. now subst.
Qed.

Lemma nameIs_true (r : Message) (t : string) :
  nameIs r t = true -> name r = Some (js t).
Proof.
  unfold nameIs. destruct (name r) as [x|]; [|discriminate].
  intros H. apply jseqb_eq in H. now subst.
Qed.

Lemma eventIs_true (d : TwilioMessage) (t : string) :
  eventIs d t = true -> event d = Some (js t).
Proof.
  unfold eventIs. destruct (event d) as [x|]; [|discriminate].
  intros H. apply jseqb_eq in H. now subst.
Qed.

End BridgeFacts.

Create HintDb bridge.

#[global] Hint Unfold
  console_log console_error openAiWs_send connection_send when sendPrompt
  createOrGetUserWithRetry updateUserNameWithRetry updateUserEmailWithRetry
  createConversationWithRetry updateConversationWithRetry
  finalizeConversationInDbWithRetry getLastConversationWithRetry
  createBookingWithRetry updateBookingStateWithRetry
  parseUserTime required isoString updateLastConversation sendSessionUpdate
  sendUserMessage handleIncomingCall askForSuitableTime askForEmail confirmEmail
  bookTrainingSession afterBooking handleEmailConfirmation
  handleExistingEmailConfirmation extractUserNameFromSummary finalizeConversation
  parseArguments onSessionCreated onSessionUpdated onSpeechStarted appendDialogue
  onAccessKnowledgeBase onScheduleTrainingSession onFunctionCall onAudioDelta
  onTimeInput onContentDone onAudioTranscriptDone onInputTranscription
  dispatch handleOpenAiMessage handleTwilioMessage handle : bridge.

(** Projections of a world and of a session after assignments. *)
Ltac proj :=
  cbn [openAiWs streamSid route_callSid external with_session with_external
       fullDialogue awaitingName phoneNumber lastUserMessage conversationId
       sessionReady sendingFunctionCallOutput bookingState preferred_time email
       callSid readyState
       set_fullDialogue set_phoneNumber set_lastUserMessage set_conversationId
       set_sessionReady set_sendingFunctionCallOutput set_bookingState
       set_preferred_time set_email set_callSid set_readyState
       truthy toString negb andb orb] in *.

(** Comparisons of a known tag with the literals of the source. *)
Ltac literals :=
  repeat match goal with
         | |- context [jseqb (js ?a) (js ?b)] =>
             let v := eval vm_compute in (jseqb (js a) (js b)) in
             change (jseqb (js a) (js b)) with v
         | |- context [existsb (jseqb (js ?a)) LOG_EVENT_TYPES] =>
             let v := eval vm_compute in (existsb (jseqb (js a)) LOG_EVENT_TYPES) in
             change (existsb (jseqb (js a)) LOG_EVENT_TYPES) with v
         end.

(** The tests on the tag of an event whose tag is known by [H]. *)
Ltac tagged H :=
  unfold typeIs, nameIs, eventIs;
  rewrite ?H; cbv beta iota; literals; cbv beta iota; cbn [andb orb].

(** One step of a computation. *)
Ltac mstep :=
  lazymatch goal with
  | |- post (bind _ _) _ _ => apply post_bind
  | |- post (tryCatch _ _) _ _ => apply post_tryCatch
  | |- post (ret _) _ _ => apply post_ret
  | |- post (throw _) _ _ => apply post_throw
  | |- post (emit _) _ _ => apply post_emit
  | |- post (assign _ _) _ _ => apply post_assign
  | |- post (getSession (E:=_)) _ _ => apply post_getSession
  | |- post (getStreamSid (E:=_)) _ _ => apply post_getStreamSid
  | |- post (getExternal (E:=_)) _ _ => apply post_getExternal
  | |- post (setStreamSid _) _ _ => apply post_setStreamSid
  | |- post (setCallSid _) _ _ => apply post_setCallSid
  | |- post (withRetry (invoke _ _)) _ _ =>
      apply post_withRetry_invoke;
      let r := fresh "r" in let x := fresh "x" in
      let o := fresh "o" in let Ho := fresh "Ho" in
      intros r x o Ho; destruct r
  | |- post (invoke _ _) _ _ =>
      apply post_invoke;
      let r := fresh "r" in let x := fresh "x" in let Hr := fresh "Hr" in
      intros r x Hr; destruct r
  | |- post (if ?b then _ else _) _ _ =>
      first [ match goal with H : b = _ |- _ => rewrite H end | destruct b eqn:? ]
  | |- post (match ?x with _ => _ end) _ _ =>
      first [ match goal with H : x = _ |- _ => rewrite H end | destruct x eqn:? ]
  end; cbv beta iota; proj.

Ltac mrun := autounfold with bridge; cbv beta iota; proj; repeat mstep.

(** A property of every effect of a computation: the leaves are the effects
    written in the source, the variables the effects of a retried call. *)
Ltac retry_all o leaf :=
  match goal with
  | Ho : Forall (retryEffect _) o |- _ =>
      eapply Forall_impl; [|exact Ho];
      let e := fresh "e" in
      let d := fresh "d" in
      intros e [->|[->|[d ->]]]; leaf
  end.

Ltac trace_all leaf :=
  idtac;
  lazymatch goal with
  | |- Forall _ [] => apply Forall_nil
  | |- Forall _ (_ :: _) => apply Forall_cons; [leaf | trace_all leaf]
  | |- Forall _ (?o ++ _) =>
      apply Forall_app; split; [retry_all o leaf | trace_all leaf]
  | |- Forall _ ?o => retry_all o leaf
  end.

Ltac in_trace :=
  lazymatch goal with
  | |- In _ (_ :: _) => first [left; reflexivity | right; in_trace]
  | |- In _ (_ ++ _) => apply in_or_app; right; in_trace
  end.

(** The effects as one list, and tests in their plain form. *)
Ltac norm :=
  repeat rewrite <- app_assoc; cbn [app];
  repeat match goal with
         | H : negb _ = true |- _ => apply negb_true_iff in H
         | H : negb _ = false |- _ => apply negb_false_iff in H
         | u : unit |- _ => destruct u
         end.

Section Finalizer.

Variable E : Env.


End Finalizer.

(** The scenario of the specification: a caller without a stored e-mail
    spells one while the bridge awaits it. *)
Example scenario_spelled_email :
  let s := set_bookingState awaiting_email initialSession in
  let '(_, w', o) :=
    handle (openAi_message
              (json_value
                 (Demo.message "conversation.item.input_audio_transcription.completed"
                    (Some (js "j o h n at example dot com")))))
      (Demo.world s Demo.outside) in
  bookingState (openAiWs w') = confirm_email
  /\ email (openAiWs w') = Some (js "john@example.com")
  /\ filter isSend o
     = [ToOpenAi (response_create
                    (confirmEmailPrompt (js "j o h n @ e x a m p l e . c o m")) 5 150)].
Proof. vm_compute. repeat split. Qed.

(** ** The claims *)

(** C1.  The retry adapter, for every operation, state and options (the
    bridge wraps its storage calls with [RETRY_OPTIONS]: 3 calls, base delay
    1000, maximal delay 5000).  The calls made are numbered 1, 2, ..., m with m
    at most [maxRetries]; a call that succeeds is the last thing the adapter
    does, and its result and state are what the adapter returns; call [k], for
    [k >= 2], comes right after a wait of min(baseDelay * 2^(k-2), maxDelay);
    and when every call fails, [maxRetries] calls are made and the error of
    the last one is thrown to the caller. *)
Theorem withRetry_bounded_backoff
  (S A Ev : Type) (operation : S -> Res A * S * list Ev)
  (options : Retry.Options) (s : S) :
  let '(r, s', evs) := Retry.withRetry operation options s in
  (exists m, (m <= Retry.maxRetries options)%nat /\ Retry.attemptsOf evs = seq 1 m)
  /\ (forall pre k st post a s1 o,
        evs = pre ++ Retry.Attempt k st :: post ->
        operation st = (Ok a, s1, o) ->
        post = map (@Retry.OfOperation S Ev) o /\ r = Ok a /\ s' = s1)
  /\ (forall pre k st post,
        evs = pre ++ Retry.Attempt k st :: post ->
        (2 <= k)%nat ->
        exists pre',
          pre = pre' ++ [Retry.Wait
                           (Z.min (Retry.baseDelay options * 2 ^ (Z.of_nat k - 2))
                              (Retry.maxDelay options))])
  /\ ((1 <= Retry.maxRetries options)%nat ->
      (forall k st, In (Retry.Attempt k st) evs ->
         exists err, fst (fst (operation st)) = Throw err) ->
      Retry.attemptsOf evs = seq 1 (Retry.maxRetries options)
      /\ exists pre st post err s1 o,
           evs = pre ++ Retry.Attempt (Retry.maxRetries options) st :: post
           /\ operation st = (Throw err, s1, o)
           /\ r = Throw err).
Proof.
  unfold Retry.withRetry.
  pose proof (retryLoop_spec operation options (Retry.maxRetries options)
                0 Undefined s ltac:(lia)) as H.
  destruct (Retry.retryLoop operation options (Retry.maxRetries options)
              0 Undefined s) as [[r s'] evs].
  destruct H as (Hcount & Hstop & Hdelay & Hexhaust).
  split; [exact Hcount|]. split; [exact Hstop|]. split.
  - intros pre k st post Heq Hk.
    destruct (Hdelay _ _ _ _ Heq) as [[_ ->]|[_ Hpre]]; [lia|exact Hpre].
  - intros Hn Hall. exact (Hexhaust Hall Hn).
Qed.

(** With the bridge's options, an operation that fails twice and then
    succeeds is called three times, after waits of 1000 and 2000 ms. *)
Example withRetry_third_time :
  Retry.withRetry
    (fun n : nat =>
       match n with
       | O => (Ok 7%Z, O, [tt])
       | Datatypes.S n' => (Throw (ErrorObject (js "timeout")), n', [tt])
       end)
    Retry.RETRY_OPTIONS 2%nat
  = (Ok 7%Z, 0%nat,
     [ Retry.Attempt 1 2%nat; Retry.OfOperation tt;
       Retry.Failed 1 3 (ErrorObject (js "timeout")); Retry.Wait 1000;
       Retry.Attempt 2 1%nat; Retry.OfOperation tt;
       Retry.Failed 2 3 (ErrorObject (js "timeout")); Retry.Wait 2000;
       Retry.Attempt 3 0%nat; Retry.OfOperation tt ]).
Proof. reflexivity. Qed.

(** An operation that never succeeds is called three times and its last
    error is thrown; no wait follows the last call. *)
Example withRetry_exhausted :
  Retry.withRetry
    (fun n : nat => (@Throw unit (ErrorObject (js "down")), Datatypes.S n, @nil unit))
    Retry.RETRY_OPTIONS 0%nat
  = (Throw (ErrorObject (js "down")), 3%nat,
     [ Retry.Attempt 1 0%nat; Retry.Failed 1 3 (ErrorObject (js "down")); Retry.Wait 1000;
       Retry.Attempt 2 1%nat; Retry.Failed 2 3 (ErrorObject (js "down")); Retry.Wait 2000;
       Retry.Attempt 3 2%nat; Retry.Failed 3 3 (ErrorObject (js "down")) ]).
Proof. reflexivity. Qed.

(** A storage call wrapped by the adapter with the bridge's options leaves
    one of four lists of effects: success at the first, second or third call,
    or three failures. *)
Lemma wrapped_call_effects (E : Env) (A : Type) (op : Operation)
  (f : Ext E -> Res A * Ext E) (w : World E) :
  let failed := ConsoleError "Operation failed" in
  let o := snd (withRetry (invoke op f) w) in
  o = [Invoke op]
  \/ o = [Invoke op; failed; Delay 1000; Invoke op]
  \/ o = [Invoke op; failed; Delay 1000; Invoke op; failed; Delay 2000; Invoke op]
  \/ o = [Invoke op; failed; Delay 1000; Invoke op; failed; Delay 2000; Invoke op;
          failed].
Proof.
  unfold withRetry, Retry.withRetry, invoke.
  cbn [Retry.maxRetries Retry.RETRY_OPTIONS Retry.retryLoop].
  destruct (f (external w)) as [[a|e1] x1]; cbn; [now left|].
  destruct (f x1) as [[a|e2] x2]; cbn; [right; now left|].
  destruct (f x2) as [[a|e3] x3]; cbn; [right; right; now left|].
  right. right. now right.
Qed.

(** C10.  [bookTrainingSession] with no preferred time returns [false]; the
    session and the outside world are as before, and the only effect is the
    console entry: the calendar is not called, no booking is created and no
    e-mail is stored. *)
Theorem bookTrainingSession_without_time
  (E : Env) (w : World E) (e : option jsstring) :
  bookTrainingSession None e w
  = (Ok false, w, [ConsoleError "Preferred time is not set."])
  /\ (forall op, ~ In (Invoke op) (snd (bookTrainingSession None e w))).
Proof.
  split; [reflexivity|].
  intros op [H|[]]. discriminate.
Qed.

(** ** The reconstruction, word by word *)

Module SpelledFacts.

Import Spelled.

Definition wordRun (t : jsstring) : Prop :=
  t <> [] /\ Forall (fun c => isWordChar c = true) t.

Definition separator (t : jsstring) : Prop :=
  exists c, t = [c] /\ isWordChar c = false.

(** The head of a text is no word character, or the text is empty. *)
Definition breaks (s : jsstring) : Prop :=
  match s with
  | [] => True
  | c :: _ => isWordChar c = false
  end.

Lemma tokens_separator (c : codeunit) (s : jsstring) :
  isWordChar c = false -> tokens (c :: s) = [c] :: tokens s.
Proof. intros H. simpl. now rewrite H. Qed.

Lemma tokens_run (run rest : jsstring) :
  wordRun run -> breaks rest -> tokens (run ++ rest) = run :: tokens rest.
Proof.
  intros [Hne Hall] Hrest. induction run as [|c run IH]; [congruence|].
  apply Forall_cons_iff in Hall as [Hc Hall].
  change ((c :: run) ++ rest) with (c :: run ++ rest).
  cbn [tokens]. rewrite Hc.
  destruct run as [|d run].
  - cbn [app]. destruct rest as [|r rest]; [reflexivity|].
    simpl in Hrest. cbn [hd_error]. unfold joinWord.
    destruct (tokens (r :: rest)); [reflexivity|]. now rewrite Hrest.
  - assert (Hd : isWordChar d = true) by now apply Forall_cons_iff in Hall.
    rewrite (IH ltac:(discriminate) Hall).
    cbn [app hd_error joinWord]. now rewrite Hd.
Qed.

(** A text begins with a run of word characters that the rest breaks. *)
Fixpoint leadingRun (s : jsstring) : jsstring * jsstring :=
  match s with
  | [] => ([], [])
  | c :: s' =>
      if isWordChar c
      then let '(run, rest) := leadingRun s' in (c :: run, rest)
      else ([], s)
  end.

Lemma leadingRun_spec (s : jsstring) :
  let '(run, rest) := leadingRun s in
  s = run ++ rest /\ Forall (fun c => isWordChar c = true) run /\ breaks rest
  /\ (List.length rest <= List.length s)%nat.
Proof.
  induction s as [|c s IH]; simpl.
  - repeat split; constructor.
  - destruct (isWordChar c) eqn:Hc.
    + destruct (leadingRun s) as [run rest].
      destruct IH as (-> & Hall & Hb & Hlen).
      repeat split; try assumption; [now constructor | lia].
    + repeat split; try assumption; [constructor | simpl; lia].
Qed.

Section Replace.

Variables word by_ : jsstring.
Hypothesis word_is_word : wordRun word.

Lemma not_at_separator (c : codeunit) (prev : option codeunit) (s : jsstring) :
  isWordChar c = false -> wordAt word prev (c :: s) = false.
Proof.
  intros Hc. unfold wordAt.
  destruct word_is_word as [Hne Hall].
  destruct word as [|x word']; [congruence|].
  apply Forall_cons_iff in Hall as [Hx _].
  cbn [startsWith].
  destruct (N.eqb_spec x c) as [->|_]; [congruence|].
  now rewrite andb_false_r.
Qed.

Lemma copy_separator (c : codeunit) (prev : option codeunit) (s : jsstring) :
  isWordChar c = false ->
  replaceWordFrom word by_ 0 prev (c :: s) = c :: replaceWordFrom word by_ 0 (Some c) s.
Proof.
  intros Hc. cbn [replaceWordFrom]. now rewrite not_at_separator.
Qed.

Lemma last_cons (c p : codeunit) (l : jsstring) : last (c :: l) p = last l c.
Proof.
  revert c p. induction l as [|d l IH]; intros c p; [reflexivity|].
  change (last (c :: d :: l) p) with (last (d :: l) p). now rewrite !IH.
Qed.

(** Inside a word nothing matches: the word is copied. *)
Lemma copy_inside (run rest : jsstring) (p : codeunit) :
  isWordChar p = true ->
  Forall (fun c => isWordChar c = true) run ->
  replaceWordFrom word by_ 0 (Some p) (run ++ rest)
  = run ++ replaceWordFrom word by_ 0 (Some (last run p)) rest.
Proof.
  revert p. induction run as [|c run IH]; intros p Hp Hall; [reflexivity|].
  apply Forall_cons_iff in Hall as [Hc Hall].
  change ((c :: run) ++ rest) with (c :: run ++ rest).
  cbn [replaceWordFrom]. unfold wordAt at 1. cbn [boundaryBefore].
  rewrite Hp. cbn [negb andb].
  rewrite (IH c Hc Hall). now rewrite last_cons.
Qed.

(** The code units of a match are passed over. *)
Lemma skip_over (l rest : jsstring) (prev : codeunit) :
  replaceWordFrom word by_ (List.length l) (Some prev) (l ++ rest)
  = replaceWordFrom word by_ 0 (Some (last l prev)) rest.
Proof.
  revert prev. induction l as [|c l IH]; intros prev; [reflexivity|].
  cbn [List.length app replaceWordFrom].
  rewrite IH. now rewrite last_cons.
Qed.

Lemma startsWith_through (p s : jsstring) : startsWith p (p ++ s) = true.
Proof. induction p as [|x p IH]; simpl; [reflexivity|]. now rewrite N.eqb_refl. Qed.

Lemma startsWith_prefix (p s : jsstring) :
  startsWith p s = true -> exists t, s = p ++ t.
Proof.
  revert s. induction p as [|x p IH]; intros s H; [now exists s|].
  destruct s as [|y s]; [discriminate|].
  simpl in H. apply andb_prop in H as [Hxy H].
  apply N.eqb_eq in Hxy. subst y.
  destruct (IH s H) as [t ->]. now exists t.
Qed.

(** At the head of a word the pattern matches exactly when the word is the
    one looked for. *)
Lemma wordAt_run (run rest : jsstring) (prev : option codeunit) :
  boundaryBefore prev = true -> wordRun run -> breaks rest ->
  wordAt word prev (run ++ rest) = jseqb run word.
Proof.
  intros Hprev [Hne Hall] Hrest. unfold wordAt. rewrite Hprev. cbn [andb].
  destruct word_is_word as [Hwne Hwall].
  destruct (jseqb run word) eqn:Heq.
  - apply jseqb_eq in Heq. subst run.
    rewrite startsWith_through, skipn_app, skipn_all, Nat.sub_diag. cbn [andb app skipn].
    unfold boundaryAfter. destruct rest; [reflexivity|]. simpl in Hrest. now rewrite Hrest.
  - destruct (startsWith word (run ++ rest)) eqn:Hs; [|reflexivity]. cbn [andb].
    apply startsWith_prefix in Hs as [t Ht].
    destruct (Nat.le_gt_cases (List.length word) (List.length run)) as [Hle|Hgt].
    + (* the word is a prefix of the run *)
      assert (Hrun : run = word ++ skipn (List.length word) run).
      { rewrite <- (firstn_skipn (List.length word) run) at 1. f_equal.
        apply (f_equal (firstn (List.length word))) in Ht.
        rewrite firstn_app in Ht.
        replace (List.length word - List.length run)%nat with 0%nat in Ht by lia.
        cbn [firstn] in Ht. rewrite app_nil_r in Ht. rewrite Ht.
        rewrite firstn_app, firstn_all, Nat.sub_diag. cbn [firstn]. now rewrite app_nil_r. }
      rewrite skipn_app.
      replace (List.length word - List.length run)%nat with 0%nat by lia.
      cbn [skipn].
      destruct (skipn (List.length word) run) as [|d more] eqn:Hmore.
      * rewrite app_nil_r in Hrun. subst run.
        rewrite jseqb_refl in Heq. discriminate.
      * cbn [app boundaryAfter].
        assert (Hd : isWordChar d = true).
        { rewrite Hrun in Hall. apply Forall_app in Hall as [_ Hall].
          now apply Forall_cons_iff in Hall. }
        now rewrite Hd.
    + (* the word is longer than the run: it runs into the rest *)
      exfalso.
      assert (Hw : word = run ++ firstn (List.length word - List.length run) rest).
      { apply (f_equal (firstn (List.length word))) in Ht.
        rewrite !firstn_app in Ht. rewrite firstn_all, Nat.sub_diag in Ht.
        cbn [firstn] in Ht. rewrite app_nil_r in Ht.
        rewrite (@firstn_all2 _ (List.length word) run) in Ht by lia.
        now symmetry. }
      destruct rest as [|r rest].
      * rewrite firstn_nil, app_nil_r in Hw. subst word. lia.
      * destruct (List.length word - List.length run)%nat eqn:Hn; [lia|].
        cbn [firstn] in Hw. rewrite Hw in Hwall.
        apply Forall_app in Hwall as [_ Hwall].
        apply Forall_cons_iff in Hwall as [Hr _].
        simpl in Hrest. congruence.
Qed.

Lemma last_word_char (run : jsstring) (p : codeunit) :
  isWordChar p = true -> Forall (fun c => isWordChar c = true) run ->
  isWordChar (last run p) = true.
Proof.
  intros Hp Hall. revert p Hp. induction Hall as [|c run Hc Hall IH]; intros p Hp.
  - exact Hp.
  - destruct run as [|d run]; [exact Hc|].
    change (last (c :: d :: run) p) with (last (d :: run) p). now apply IH.
Qed.

(** From the head of a word, or of what breaks one, the replacement goes
    token by token. *)
Lemma replace_by_tokens (n : nat) (s : jsstring) (prev : option codeunit) :
  (List.length s <= n)%nat ->
  boundaryBefore prev = true \/ breaks s ->
  replaceWordFrom word by_ 0 prev s
  = List.concat (map (substitute word by_) (tokens s)).
Proof.
  revert s prev. induction n as [|n IH]; intros s prev Hlen Hstart.
  - destruct s; [reflexivity | simpl in Hlen; lia].
  - destruct s as [|c s]; [reflexivity|].
    destruct (isWordChar c) eqn:Hc.
    + (* a word begins *)
      destruct Hstart as [Hprev|Hb]; [|simpl in Hb; congruence].
      pose proof (leadingRun_spec (c :: s)) as Hrun.
      destruct (leadingRun (c :: s)) as [run rest] eqn:Hlead.
      destruct Hrun as (Hs & Hall & Hrest & Hshort).
      assert (Hne : run <> []).
      { intros ->. cbn [app] in Hs. subst rest. simpl in Hrest. congruence. }
      assert (Hword : wordRun run) by (split; assumption).
      assert (Hrestlen : (List.length rest <= n)%nat).
      { apply (f_equal (@List.length _)) in Hs. rewrite length_app in Hs.
        destruct run; [congruence|]. simpl in Hs, Hlen. lia. }
      rewrite Hs. rewrite tokens_run by assumption. cbn [map List.concat].
      destruct run as [|c' run']; [congruence|].
      change ((c' :: run') ++ rest) with (c' :: run' ++ rest).
      cbn [replaceWordFrom].
      change (c' :: run' ++ rest) with ((c' :: run') ++ rest).
      rewrite wordAt_run by assumption.
      assert (Hc' : isWordChar c' = true) by now apply Forall_cons_iff in Hall.
      assert (Hall' : Forall (fun c => isWordChar c = true) run')
        by now apply Forall_cons_iff in Hall.
      unfold substitute at 1.
      destruct (jseqb (c' :: run') word) eqn:Heq.
      * apply jseqb_eq in Heq.
        assert (Hl : (List.length word - 1)%nat = List.length run')
          by (rewrite <- Heq; simpl; lia).
        rewrite Hl, skip_over. f_equal.
        apply IH; [exact Hrestlen | now right].
      * rewrite copy_inside by assumption. cbn [app]. f_equal. f_equal.
        apply IH; [exact Hrestlen | now right].
    + (* a separator *)
      rewrite copy_separator, tokens_separator by assumption.
      cbn [map List.concat]. unfold substitute at 1.
      assert (Hno : jseqb [c] word = false).
      { destruct (jseqb [c] word) eqn:Heq; [|reflexivity].
        apply jseqb_eq in Heq. destruct word_is_word as [_ Hall].
        rewrite <- Heq in Hall. apply Forall_cons_iff in Hall as [Hc' _]. congruence. }
      rewrite Hno. cbn [app]. f_equal.
      apply IH; [simpl in Hlen; lia|]. left. cbn [boundaryBefore]. now rewrite Hc.
Qed.

Lemma replaceWord_by_tokens (s : jsstring) :
  replaceWord word by_ s = List.concat (map (substitute word by_) (tokens s)).
Proof.
  unfold replaceWord. apply (@replace_by_tokens (List.length s)); [lia | now left].
Qed.

End Replace.

(** Lists of tokens: words and separators, no two words in a row. *)
Fixpoint tokenized (ts : list jsstring) : Prop :=
  match ts with
  | [] => True
  | t :: ts' =>
      (separator t \/ (wordRun t /\ match ts' with
                                    | [] => True
                                    | u :: _ => separator u
                                    end))
      /\ tokenized ts'
  end.

Lemma tokenized_concat (ts : list jsstring) :
  tokenized ts -> tokens (List.concat ts) = ts.
Proof.
  induction ts as [|t ts IH]; [reflexivity|].
  intros [Ht Hts]. specialize (IH Hts). cbn [List.concat].
  destruct Ht as [(c & -> & Hc)|[Hword Hnext]].
  - cbn [app]. rewrite tokens_separator by assumption. now rewrite IH.
  - rewrite tokens_run; [now rewrite IH | exact Hword |].
    destruct ts as [|u ts]; [exact I|].
    destruct Hnext as (c & -> & Hc). exact Hc.
Qed.

Lemma tokens_tokenized (n : nat) (s : jsstring) :
  (List.length s <= n)%nat -> tokenized (tokens s).
Proof.
  revert s. induction n as [|n IH]; intros s Hlen.
  - destruct s; [exact I | simpl in Hlen; lia].
  - destruct s as [|c s]; [exact I|].
    destruct (isWordChar c) eqn:Hc.
    + pose proof (leadingRun_spec (c :: s)) as Hrun.
      destruct (leadingRun (c :: s)) as [run rest] eqn:Hlead.
      destruct Hrun as (Hs & Hall & Hrest & Hshort).
      assert (Hne : run <> []).
      { intros ->. cbn [app] in Hs. subst rest. simpl in Hrest. congruence. }
      assert (Hword : wordRun run) by (split; assumption).
      assert (Hrestlen : (List.length rest <= n)%nat).
      { apply (f_equal (@List.length _)) in Hs. rewrite length_app in Hs.
        destruct run; [congruence|]. simpl in Hs, Hlen. lia. }
      rewrite Hs. rewrite tokens_run by assumption. cbn [tokenized].
      split; [|now apply IH].
      right. split; [exact Hword|].
      destruct rest as [|r rest]; [exact I|].
      simpl in Hrest. rewrite tokens_separator by assumption. now exists r.
    + rewrite tokens_separator by assumption. cbn [tokenized].
      split; [left; now exists c | apply IH; simpl in Hlen; lia].
Qed.

(** Putting a separator for a word keeps a list of tokens one. *)
Lemma substitute_tokenized (word : jsstring) (c : codeunit) (ts : list jsstring) :
  isWordChar c = false -> tokenized ts -> tokenized (map (substitute word [c]) ts).
Proof.
  intros Hc. induction ts as [|t ts IH]; [exact (fun H => H)|].
  intros [Ht Hts]. cbn [map tokenized]. split; [|now apply IH].
  change (substitute word [c] t) with (if jseqb t word then [c] else t).
  destruct (jseqb t word); [left; now exists c|].
  destruct Ht as [Hsep|[Hword Hnext]]; [now left|].
  right. split; [exact Hword|].
  destruct ts as [|u ts]; [exact I|].
  cbn [map]. change (substitute word [c] u) with (if jseqb u word then [c] else u).
  destruct (jseqb u word); [now exists c | exact Hnext].
Qed.

Lemma at_is_word : wordRun (js "at").
Proof. split; [discriminate | repeat constructor]. Qed.

Lemma dot_is_word : wordRun (js "dot").
Proof. split; [discriminate | repeat constructor]. Qed.

Lemma spelledToken_twice (t : jsstring) :
  substitute (js "dot") [FULL_STOP] (substitute (js "at") [AT_SIGN] t) = spelledToken t.
Proof.
  unfold substitute, spelledToken.
  destruct (jseqb t (js "at")); reflexivity.
Qed.

(** The reconstruction of the source is the one in the specification's
    words. *)
Lemma reconstructEmail_by_words (toLowerCase : jsstring -> jsstring) (s : jsstring) :
  Email.reconstructEmail toLowerCase s = reconstruction toLowerCase s.
Proof.
  unfold Email.reconstructEmail, reconstruction.
  rewrite (replaceWord_by_tokens [AT_SIGN] at_is_word).
  rewrite (replaceWord_by_tokens [FULL_STOP] dot_is_word).
  rewrite tokenized_concat.
  - rewrite map_map. f_equal. f_equal. apply map_ext. exact spelledToken_twice.
  - apply substitute_tokenized; [reflexivity|].
    apply (@tokens_tokenized (List.length (toLowerCase s))). lia.
Qed.

End SpelledFacts.

(** C2.  For every input string, whatever the engine's lower-casing: the
    reconstruction is the one the specification describes (the text
    lower-cased, ['@'] put for each whole word [at] and ['.'] for each whole
    word [dot], the white space dropped); the validity check accepts the
    reconstructed string exactly when it has the shape local@domain.tld with
    three non-empty parts none of which holds white space or ['@']; a
    reconstruction without ['@'] is rejected; and on a rejection the handler
    of the caller's utterance, run in [awaiting_email], sends the prompt to
    spell the address again, assigns neither the booking state nor the
    e-mail, and ends in [awaiting_email]. *)
Theorem reconstructed_email_accepted_iff_shape (E : Env) (input : jsstring) :
  let e := reconstructEmail E input in
  e = Spelled.reconstruction (toLowerCase E) input
  /\ (Email.validateEmail e = true <-> Email.emailShape e)
  /\ (~ In AT_SIGN e -> Email.validateEmail e = false)
  /\ (forall (w : World E) (sid : option jsstring) (response : Message),
        bookingState (openAiWs w) = awaiting_email ->
        typeIs response "conversation.item.input_audio_transcription.completed" = true ->
        transcript response = Some input ->
        Email.validateEmail e = false ->
        let '(_, w', o) := handleOpenAiMessage (json_value response) sid w in
        bookingState (openAiWs w') = awaiting_email
        /\ email (openAiWs w') = email (openAiWs w)
        /\ In (ToOpenAi (response_create invalidEmailPrompt 7 150)) o
        /\ Forall (fun x => assignsTo F_bookingState x = false
                            /\ assignsTo F_email x = false) o).
Proof.
  intros e. split; [apply SpelledFacts.reconstructEmail_by_words|].
  split; [apply validateEmail_shape|].
  split; [apply validateEmail_needs_at|].
  intros w sid response Hstate Htype Htext Hbad. subst e.
  apply typeIs_true in Htype.
  apply post_let. unfold handleOpenAiMessage.
  mstep. mstep. mstep. unfold dispatch, when. tagged Htype.
  mrun; norm;
    (split; [exact Hstate|]); (split; [reflexivity|]);
    (split; [in_trace | trace_all ltac:(now split)]).
Qed.

Lemma reconstructed_email_accepted_iff_shape_witness :
  bookingState
    (openAiWs (Demo.world (set_bookingState awaiting_email initialSession) Demo.outside))
  = awaiting_email
  /\ Email.validateEmail (reconstructEmail Demo.env (js "john example dot com")) = false
  /\ let '(_, w', o) :=
       handleOpenAiMessage
         (json_value
            (Demo.message "conversation.item.input_audio_transcription.completed"
               (Some (js "john example dot com"))))
         None
         (Demo.world (set_bookingState awaiting_email initialSession) Demo.outside) in
     bookingState (openAiWs w') = awaiting_email
     /\ email (openAiWs w') = None
     /\ In (ToOpenAi (response_create invalidEmailPrompt 7 150)) o
     /\ Forall (fun x => assignsTo F_bookingState x = false
                         /\ assignsTo F_email x = false) o.
Proof.
  split; [reflexivity|]. split; [reflexivity|].
  apply (proj2 (proj2 (proj2
    (reconstructed_email_accepted_iff_shape Demo.env (js "john example dot com")))));
    reflexivity.
Defined.

(** C2 as stated fails: two spoken "at" give a reconstruction with a local
    part, an ['@'], a non-empty domain, a ['.'] and a non-empty top-level
    part, and the validity check rejects it; acceptance and the shape with
    any domain are not equivalent. *)
Lemma second_at_in_domain_rejected :
  reconstructEmail Demo.env (js "a at b at c dot d") = js "a@b@c.d"
  /\ Spelled.shapeWithAnyDomain (reconstructEmail Demo.env (js "a at b at c dot d"))
  /\ Email.validateEmail (reconstructEmail Demo.env (js "a at b at c dot d")) = false
  /\ ~ (forall input : jsstring,
          Email.validateEmail (reconstructEmail Demo.env input) = true
          <-> Spelled.shapeWithAnyDomain (reconstructEmail Demo.env input)).
Proof.
  assert (Hshape : Spelled.shapeWithAnyDomain
                     (reconstructEmail Demo.env (js "a at b at c dot d"))).
  { exists (js "a"), (js "b@c"), (js "d").
    split; [|split; [discriminate | split; [discriminate | reflexivity]]].
    split; [discriminate|]. constructor; [|constructor].
    split; [reflexivity | discriminate]. }
  split; [reflexivity|]. split; [exact Hshape|]. split; [reflexivity|].
  intros H. apply (H (js "a at b at c dot d")) in Hshape. discriminate Hshape.
Qed.

(** An audio fragment is forwarded at once, when it carries audio, and
    changes nothing. *)
Lemma audio_delta_forwarded (E : Env) (w : World E) (a : Message) :
  typeIs a "response.audio.delta" = true ->
  handle (openAi_message (json_value a)) w
  = (Ok tt, w,
     if truthy (delta a)
     then [ToTwilio (twilio_media (streamSid w) (toString (delta a)))]
     else []).
Proof.
  intros Ha. apply typeIs_true in Ha.
  apply post_eq. unfold handle, handleOpenAiMessage.
  mstep. mstep. mstep. mstep. mstep. unfold dispatch, when. tagged Ha.
  mrun; norm; reflexivity.
Qed.

(** The start of the caller's speech: clear, then cancel. *)
Lemma speech_started_interrupts (E : Env) (w : World E) (s : Message) :
  typeIs s "input_audio_buffer.speech_started" = true ->
  handle (openAi_message (json_value s)) w
  = (Ok tt, w,
     [ ConsoleLog "Speech Start:";
       ToTwilio (twilio_clear (streamSid w));
       ConsoleLog "Cancelling AI speech from the server";
       ToOpenAi response_cancel;
       ConsoleLog "Received event:" ]).
Proof.
  intros Hs. apply typeIs_true in Hs.
  apply post_eq. unfold handle, handleOpenAiMessage.
  mstep. mstep. mstep. mstep. mstep. unfold dispatch, when. tagged Hs.
  mrun; norm; reflexivity.
Qed.

(** C6.  An audio fragment A, then the start of the caller's speech, then
    an audio fragment B, on one model connection: whether or not A carried
    audio and was forwarded, the clear frame to the telephony side and the
    cancel to the model are both sent before B is forwarded, and B is the last
    thing sent. *)
Theorem interruption_before_next_fragment
  (E : Env) (w : World E) (a s b : Message) (payload : jsstring) :
  typeIs a "response.audio.delta" = true ->
  typeIs s "input_audio_buffer.speech_started" = true ->
  typeIs b "response.audio.delta" = true ->
  delta b = Some payload ->
  payload <> [] ->
  snd (run [ openAi_message (json_value a);
             openAi_message (json_value s);
             openAi_message (json_value b) ] w)
  = (if truthy (delta a)
     then [ToTwilio (twilio_media (streamSid w) (toString (delta a)))]
     else [])
    ++ [ ConsoleLog "Speech Start:";
         ToTwilio (twilio_clear (streamSid w));
         ConsoleLog "Cancelling AI speech from the server";
         ToOpenAi response_cancel;
         ConsoleLog "Received event:";
         ToTwilio (twilio_media (streamSid w) payload) ].
Proof.
  intros Ha Hs Hb Hdelta Hpayload.
  cbn [run].
  rewrite (audio_delta_forwarded w a Ha).
  rewrite (speech_started_interrupts w s Hs).
  rewrite (audio_delta_forwarded w b Hb).
  rewrite Hdelta. destruct payload as [|c payload]; [congruence|].
  cbn [truthy toString snd app]. reflexivity.
Qed.

Lemma interruption_before_next_fragment_witness :
  snd (run [ openAi_message (json_value (Demo.message "response.audio.delta" None));
             openAi_message
               (json_value (Demo.message "input_audio_buffer.speech_started" None));
             openAi_message
               (json_value (Demo.message "response.audio.delta" (Some (js "AAAA")))) ]
         (Demo.world initialSession Demo.outside))
  = [ ConsoleLog "Speech Start:";
      ToTwilio (twilio_clear (Some (js "MZ1")));
      ConsoleLog "Cancelling AI speech from the server";
      ToOpenAi response_cancel;
      ConsoleLog "Received event:";
      ToTwilio (twilio_media (Some (js "MZ1")) (js "AAAA")) ].
Proof.
  apply (interruption_before_next_fragment
           (Demo.world initialSession Demo.outside)
           (Demo.message "response.audio.delta" None)
           (Demo.message "input_audio_buffer.speech_started" None)
           (Demo.message "response.audio.delta" (Some (js "AAAA")))
           (payload := js "AAAA"));
    [reflexivity | reflexivity | reflexivity | reflexivity | discriminate].
Defined.

(** ** Every event, every path *)

(** An event has one of the handled tags or none of them. *)
Lemma type_cases (r : Message) :
  (exists t, In t handledTypes /\ type r = Some (js t))
  \/ Forall (fun t => typeIs r t = false) handledTypes.
Proof.
  destruct (Forall_Exists_dec (fun t => typeIs r t = false)
              (fun t => bool_dec (typeIs r t) false) handledTypes) as [H|H].
  - now right.
  - left. apply Exists_exists in H as (t & Hin & Ht).
    exists t. split; [exact Hin|].
    apply typeIs_true. now destruct (typeIs r t).
Qed.

(** The paths of [dispatch], tag by tag. *)
Ltac by_tag r :=
  let t := fresh "t" in
  let Hin := fresh "Hin" in
  let Htag := fresh "Htag" in
  let Hnone := fresh "Hnone" in
  destruct (type_cases r) as [(t & Hin & Htag)|Hnone];
  [ unfold handledTypes in Hin;
    repeat (destruct Hin as [<-|Hin]; [unfold dispatch, when; tagged Htag|]);
    try contradiction
  | unfold handledTypes in Hnone;
    repeat match goal with
           | H : Forall _ (_ :: _) |- _ =>
               let H1 := fresh "Hno" in
               let H2 := fresh "Hrest" in
               apply Forall_cons_iff in H as [H1 H2]
           end;
    unfold dispatch, when;
    repeat match goal with
           | H : typeIs r _ = false |- _ => rewrite H; clear H
           end;
    cbv beta iota; cbn [andb orb] ].

Lemma count_app (p : Effect -> bool) (a b : list Effect) :
  count p (a ++ b) = (count p a + count p b)%nat.
Proof. unfold count. now rewrite filter_app, length_app. Qed.

Lemma count_none (p : Effect -> bool) (o : list Effect) :
  Forall (fun e => p e = false) o -> count p o = 0%nat.
Proof.
  unfold count. induction 1 as [|e o He _ IH]; simpl; [reflexivity|].
  now rewrite He.
Qed.

Lemma retryEffect_quiet (op : Operation) (e : Effect) : retryEffect op e -> quiet e.
Proof. intros [->|[->|[d ->]]]; exact I. Qed.

Ltac quiet_all :=
  lazymatch goal with
  | |- Forall quiet [] => apply Forall_nil
  | |- Forall quiet (_ :: _) => apply Forall_cons; [exact I | quiet_all]
  | |- Forall quiet (_ ++ _) => apply Forall_app; split; [quiet_all | quiet_all]
  | |- Forall quiet ?o =>
      first [ assumption
            | match goal with
              | Ho : Forall (retryEffect _) o |- _ =>
                  eapply Forall_impl; [|exact Ho]; intros ?; apply retryEffect_quiet
              end ]
  end.

Section Quiet.

Variable E : Env.

Lemma post_withRetry_quiet {A} op (f : Ext E -> Res A * Ext E) (w : World E) Q :
  (forall r x o, Forall quiet o -> Q r (with_external x w) o) ->
  post (withRetry (invoke op f)) w Q.
Proof.
  intros H. apply post_withRetry_invoke. intros r x o Ho. apply H.
  eapply Forall_impl; [|exact Ho]. intros e. apply retryEffect_quiet.
Qed.

(** [bookTrainingSession] returns a boolean, assigns nothing and sends
    nothing. *)
Lemma post_bookTrainingSession t e (w : World E) Q :
  (forall b x o, Forall quiet o -> Q (Ok b) (with_external x w) o) ->
  post (bookTrainingSession t e) w Q.
Proof.
  intros H.
  eapply post_weaken
    with (Q := fun r w' o =>
                 exists b x, r = Ok b /\ w' = with_external x w /\ Forall quiet o).
  - mrun; norm; do 2 eexists;
      (split; [reflexivity|]);
      (split; [first [reflexivity | symmetry; apply with_external_same]|]);
      quiet_all.
  - intros r w' o (b & x & -> & -> & Ho). now apply H.
Qed.

(** [updateLastConversation] assigns nothing and sends nothing. *)
Lemma post_updateLastConversation q a (w : World E) Q :
  (forall r x o, Forall quiet o -> Q r (with_external x w) o) ->
  post (updateLastConversation q a) w Q.
Proof.
  intros H.
  eapply post_weaken
    with (Q := fun r w' o => exists x, w' = with_external x w /\ Forall quiet o).
  - mrun; norm; eexists;
      (split; [first [reflexivity | symmetry; apply with_external_same]|]);
      quiet_all.
  - intros r w' o (x & -> & Ho). now apply H.
Qed.

(** [finalizeConversation] returns normally, assigns nothing and sends
    nothing. *)
Lemma post_finalizeConversation (w : World E) Q :
  (forall x o, Forall quiet o -> Q (Ok tt) (with_external x w) o) ->
  post finalizeConversation w Q.
Proof.
  intros H.
  eapply post_weaken
    with (Q := fun r w' o =>
                 exists x, r = Ok tt /\ w' = with_external x w /\ Forall quiet o).
  - mrun; norm; eexists;
      (split; [reflexivity|]);
      (split; [first [reflexivity | symmetry; apply with_external_same]|]);
      quiet_all.
  - intros r w' o (x & -> & -> & Ho). now apply H.
Qed.

End Quiet.

Create HintDb router.

#[global] Hint Unfold
  console_log console_error openAiWs_send connection_send when sendPrompt
  createOrGetUserWithRetry updateUserNameWithRetry updateUserEmailWithRetry
  createConversationWithRetry updateConversationWithRetry
  finalizeConversationInDbWithRetry getLastConversationWithRetry
  createBookingWithRetry updateBookingStateWithRetry
  parseUserTime required isoString sendSessionUpdate
  sendUserMessage handleIncomingCall askForSuitableTime askForEmail confirmEmail
  afterBooking handleEmailConfirmation handleExistingEmailConfirmation
  parseArguments onSessionCreated onSessionUpdated onSpeechStarted appendDialogue
  onAccessKnowledgeBase onScheduleTrainingSession onFunctionCall onAudioDelta
  onTimeInput onContentDone onAudioTranscriptDone onInputTranscription
  dispatch handleOpenAiMessage handleTwilioMessage handle : router.

(** One step, the three quiet functions taken as a whole. *)
Ltac qstep :=
  lazymatch goal with
  | |- post (bookTrainingSession _ _) _ _ =>
      apply post_bookTrainingSession;
      let b := fresh "b" in let x := fresh "x" in
      let o := fresh "o" in let Ho := fresh "Ho" in
      intros b x o Ho; cbv beta iota; proj
  | |- post (updateLastConversation _ _) _ _ =>
      apply post_updateLastConversation;
      let r := fresh "r" in let x := fresh "x" in
      let o := fresh "o" in let Ho := fresh "Ho" in
      intros r x o Ho; destruct r; cbv beta iota; proj
  | |- post (finalizeConversation (E:=_)) _ _ =>
      apply post_finalizeConversation;
      let x := fresh "x" in let o := fresh "o" in let Ho := fresh "Ho" in
      intros x o Ho; cbv beta iota; proj
  | |- post (withRetry (invoke _ _)) _ _ =>
      apply post_withRetry_quiet;
      let r := fresh "r" in let x := fresh "x" in
      let o := fresh "o" in let Ho := fresh "Ho" in
      intros r x o Ho; destruct r; cbv beta iota; proj
  | |- _ => mstep
  end.

Ltac qrun := autounfold with router; cbv beta iota; proj; repeat qstep.

(** A property of every effect, which the quiet effects have by [ql]. *)
Ltac trace_q leaf ql :=
  idtac;
  lazymatch goal with
  | |- Forall _ [] => apply Forall_nil
  | |- Forall _ (_ :: _) => apply Forall_cons; [leaf | trace_q leaf ql]
  | |- Forall _ (_ ++ _) =>
      apply Forall_app; split;
      [eapply Forall_impl; [exact ql | eassumption] | trace_q leaf ql]
  | |- Forall _ _ => eapply Forall_impl; [exact ql | eassumption]
  end.

Section EveryPath.

Variable E : Env.

Lemma quiet_not_update (e : Effect) : quiet e -> isSessionUpdate e = false.
Proof. now destruct e. Qed.

Ltac count_updates :=
  first [ reflexivity
        | apply count_none; trace_q ltac:(reflexivity) quiet_not_update ].

Lemma handle_session_updates (ev : Event) (w : World E) :
  post (handle ev) w
    (fun _ _ o =>
       count isSessionUpdate o = if sendsConfiguration ev then 1%nat else 0%nat).
Proof.
  destruct ev as [| |data| | |message|]; cbn [sendsConfiguration].
  - qrun. reflexivity.
  - qrun. reflexivity.
  - destruct data as [| |r].
    + qrun. reflexivity.
    + qrun. reflexivity.
    + unfold handle, handleOpenAiMessage. mstep. mstep. mstep. mstep. mstep.
      by_tag r; qrun; norm; count_updates.
  - qrun; norm; count_updates.
  - qrun; norm; count_updates.
  - qrun; norm; count_updates.
  - qrun; norm; count_updates.
Qed.

End EveryPath.

Lemma run_cons (E : Env) (ev : Event) (evs : list Event) (w : World E) :
  run (ev :: evs) w
  = (fst (run evs (snd (fst (handle ev w)))),
     snd (handle ev w) ++ snd (run evs (snd (fst (handle ev w))))).
Proof.
  cbn [run]. destruct (handle ev w) as [[r w1] o1]. cbn [fst snd].
  now destruct (run evs w1) as [w2 o2].
Qed.

(** C5, as the code has it.  Over any events of a call, the configuration
    is sent once for every firing of the settle timer (set when the model
    connection opens) and once more for every [session.created] event the model
    sends; nothing else sends it, and nothing tests whether it was applied. *)
Theorem configuration_sent_per_open_and_created
  (E : Env) (evs : list Event) (w : World E) :
  count isSessionUpdate (snd (run evs w))
  = List.length (filter sendsConfiguration evs).
Proof.
  revert w. induction evs as [|ev evs IH]; intros w; [reflexivity|].
  rewrite run_cons. cbn [snd filter]. rewrite count_app, IH.
  pose proof (handle_session_updates ev w) as H. unfold post in H. rewrite H.
  now destruct (sendsConfiguration ev).
Qed.

(** C5 as stated fails: on a connection that opens and whose model then
    announces the session, the configuration goes out twice, though the model
    reported nothing about the first one. *)
Lemma configuration_sent_twice :
  count isSessionUpdate
    (snd (run [ openAi_open;
                openAi_message (json_value (Demo.message "session.created" None));
                settle_timer ]
            (Demo.world initialSession Demo.outside)))
  = 2%nat.
Proof. vm_compute. reflexivity. Qed.



(** ** A commit attempt whose calendar call fails *)

Lemma count_cons (p : Effect -> bool) (e : Effect) (o : list Effect) :
  count p (e :: o) = ((if p e then 1 else 0) + count p o)%nat.
Proof. unfold count. simpl. now destruct (p e). Qed.

Lemma retry_count (op op' : Operation) (o : list Effect) :
  Forall (retryEffect op') o -> Operation_beq op op' = false ->
  count (invokes op) o = 0%nat.
Proof.
  intros Ho Hne. apply count_none.
  eapply Forall_impl; [|exact Ho].
  intros e [->|[->|[d ->]]]; [exact Hne | reflexivity | reflexivity].
Qed.

Ltac count_trace :=
  repeat (rewrite count_cons || rewrite count_app);
  repeat match goal with
         | Ho : Forall (retryEffect ?op') ?o |- context [count (invokes ?op) ?o] =>
             rewrite (@retry_count op op' o Ho) by reflexivity
         end;
  cbn [invokes Operation_beq count filter List.length Nat.add];
  cbn; lia.

Ltac call_contra Hfail :=
  match goal with
  | Hr : calendar_events_insert _ _ _ = (Ok ?a, _),
    Hb : (status ?a =? 200)%Z || (status ?a =? 201)%Z = true |- _ =>
      unfold calendarCallFails, calendarCall in Hfail;
      repeat match goal with
             | H : negb (truthy _) = _ |- _ => rewrite H in Hfail
             | H : Date_parse _ _ = _ |- _ => rewrite H in Hfail
             | H : timeClip _ = _ |- _ => rewrite H in Hfail
             end;
      cbv beta iota zeta in Hfail;
      match goal with
      | Hu : (let '(_, _) := uuidv4 ?E ?x in _) = _ |- _ =>
          destruct (uuidv4 E x) as [? ?]; injection Hu as <- <-
      end;
      rewrite Hr in Hfail; cbn [fst] in Hfail;
      destruct Hfail; apply orb_prop in Hb as [Hb|Hb]; apply Z.eqb_eq in Hb;
      contradiction
  end.

Ltac failed_call Hfail :=
  mrun; try call_contra Hfail; norm; unfold failedCommit; proj;
  (split; [reflexivity|]); (split; [in_trace|]); split; count_trace.

(** C7.  A commit attempt whose calendar call fails (the call that the
    attempt makes throws, or is answered with a status other than 200 and
    201), in each of the three places that make one: the caller's "yes" to a
    spelled e-mail, a "yes" to the stored e-mail, the model's
    [schedule_training_session] tool call.  The spoken failure message is
    sent and the session is left in [idle]; the calendar is called at most
    once and no booking is created, so the booking itself is not retried. *)
Theorem booking_failure_returns_to_idle (E : Env) :
  (forall (w : World E) (e : option jsstring),
     calendarCallFails w (preferred_time (openAiWs w)) e ->
     let '(_, w', o) := handleEmailConfirmation (js "yes") e w in failedCommit w' o)
  /\ (forall (w : World E) (confirmation : jsstring),
        includes (js "yes") confirmation = true ->
        calendarCallFails w (preferred_time (openAiWs w)) (email (openAiWs w)) ->
        let '(_, w', o) := handleExistingEmailConfirmation confirmation w in
        failedCommit w' o)
  /\ (forall (w : World E) (response : Message) (args : FunctionArgs),
        arguments response = json_value args ->
        calendarCallFails w (arg_preferred_time args) (arg_email args) ->
        let '(_, w', o) := onScheduleTrainingSession response w in
        failedCommit w' o).
Proof.
  split; [|split].
  - intros w e Hfail. apply post_let.
    unfold handleEmailConfirmation. rewrite jseqb_refl.
    failed_call Hfail.
  - intros w confirmation Hyes Hfail. apply post_let.
    unfold handleExistingEmailConfirmation. rewrite Hyes.
    failed_call Hfail.
  - intros w response args Hargs Hfail. apply post_let.
    unfold onScheduleTrainingSession, parseArguments. rewrite Hargs.
    failed_call Hfail.
Qed.

Lemma booking_failure_returns_to_idle_witness :
  calendarCallFails
    (Demo.world
       (set_preferred_time (Some (js "2026-11-10T15:00:00.000Z"))
          (set_bookingState confirm_email initialSession))
       refusingOutside)
    (Some (js "2026-11-10T15:00:00.000Z")) (Some (js "john@example.com"))
  /\ let '(_, w', o) :=
       handleEmailConfirmation (js "yes") (Some (js "john@example.com"))
         (Demo.world
            (set_preferred_time (Some (js "2026-11-10T15:00:00.000Z"))
               (set_bookingState confirm_email initialSession))
            refusingOutside) in
     failedCommit w' o.
Proof.
  assert (H : calendarCallFails
                (Demo.world
                   (set_preferred_time (Some (js "2026-11-10T15:00:00.000Z"))
                      (set_bookingState confirm_email initialSession))
                   refusingOutside)
                (Some (js "2026-11-10T15:00:00.000Z")) (Some (js "john@example.com")))
    by (split; discriminate).
  split; [exact H|].
  exact (proj1 (booking_failure_returns_to_idle Demo.env) _ _ H).
Defined.

(** A failed attempt with the calendar down, effect by effect. *)
Example booking_failure_effects :
  snd (handleEmailConfirmation (js "yes") (Some (js "john@example.com"))
         (Demo.worldDown
            (set_preferred_time (Some (js "2026-11-10T15:00:00.000Z"))
               (set_bookingState confirm_email initialSession))
            Demo.outside))
  = [ Invoke op_uuidv4; Invoke op_calendarEventsInsert;
      ConsoleError "Error booking training session:";
      ToOpenAi (response_create bookingFailedPrompt 7 150);
      Assign F_bookingState
        (set_preferred_time (Some (js "2026-11-10T15:00:00.000Z"))
           (set_bookingState confirm_email initialSession))
        (set_bookingState idle
           (set_preferred_time (Some (js "2026-11-10T15:00:00.000Z"))
              (set_bookingState confirm_email initialSession)));
      Invoke op_dbUpdateBookingState ].
Proof. vm_compute. reflexivity. Qed.

(** The calendar of [Demo.env] answers some calls: the failure of one call
    is not the failure of all. *)
Example demo_calendar_answers :
  fst (calendar_events_insert Demo.env
         {| start_dateTime := []; end_dateTime := []; attendee_email := None;
            requestId := [] |}
         Demo.outside)
  = Ok {| status := 200; data_id := Some (js "evt1") |}.
Proof. reflexivity. Qed.

(** ** Malformed and unrecognized events *)

Section Dropped.

Variable E : Env.

(** C9, as the code has it.  A frame that does not parse, on either
    connection, is dropped with a console error; a model event with none of
    the handled tags is dropped, with a console entry only when its tag is one
    of [LOG_EVENT_TYPES]; a telephony event with another tag than media, start
    and stop is dropped with a console entry; a telephony media event (on an
    open model connection) or start event without its payload is dropped with
    a console error.  In each case the session, the route's variables and the
    outside world are left as they were and nothing is sent. *)
Theorem malformed_events_dropped (w : World E) :
  handle (openAi_message unparseable) w
  = (Ok tt, w, [ConsoleError "Error processing OpenAI message:"])
  /\ handle (openAi_message json_null) w
     = (Ok tt, w, [ConsoleError "Error processing OpenAI message:"])
  /\ (forall r : Message,
        Forall (fun t => typeIs r t = false) handledTypes ->
        handle (openAi_message (json_value r)) w
        = (Ok tt, w,
           if match type r with
              | Some t => existsb (jseqb t) LOG_EVENT_TYPES
              | None => false
              end
           then [ConsoleLog "Received event:"] else []))
  /\ handle (twilio_message unparseable) w
     = (Ok tt, w, [ConsoleError "Error parsing Twilio message:"])
  /\ handle (twilio_message json_null) w
     = (Ok tt, w, [ConsoleError "Error parsing Twilio message:"])
  /\ (forall d : TwilioMessage,
        eventIs d "media" = false -> eventIs d "start" = false ->
        eventIs d "stop" = false ->
        handle (twilio_message (json_value d)) w
        = (Ok tt, w, [ConsoleLog "Received non-media event:"]))
  /\ (forall d : TwilioMessage,
        eventIs d "media" = true -> media d = None ->
        readyState (openAiWs w) = OPEN ->
        handle (twilio_message (json_value d)) w
        = (Ok tt, w, [ConsoleError "Error parsing Twilio message:"]))
  /\ (forall d : TwilioMessage,
        eventIs d "media" = false -> eventIs d "start" = true -> start d = None ->
        handle (twilio_message (json_value d)) w
        = (Ok tt, w, [ConsoleError "Error parsing Twilio message:"])).
Proof.
  repeat split.
  - intros r Hnone. apply post_eq. unfold handle, handleOpenAiMessage.
    mstep. mstep. mstep. mstep. mstep.
    unfold handledTypes in Hnone.
    repeat match goal with
           | H : Forall _ (_ :: _) |- _ =>
               let H1 := fresh "Hno" in
               let H2 := fresh "Hrest" in
               apply Forall_cons_iff in H as [H1 H2]
           end.
    unfold dispatch, when.
    repeat match goal with
           | H : typeIs r _ = false |- _ => rewrite H; clear H
           end.
    cbv beta iota; cbn [andb orb].
    mrun; norm; reflexivity.
  - intros d Hm Hs Hp. apply post_eq. unfold handle, handleTwilioMessage.
    mstep. mstep. mstep. rewrite Hm, Hs, Hp. mrun; norm; reflexivity.
  - intros d Hm Hpayload Hopen. apply post_eq. unfold handle, handleTwilioMessage.
    mstep. mstep. mstep. rewrite Hm. mrun; norm; reflexivity.
  - intros d Hm Hs Hstart. apply post_eq. unfold handle, handleTwilioMessage.
    mstep. mstep. mstep. rewrite Hm, Hs. mrun; norm; reflexivity.
Qed.

End Dropped.

Lemma malformed_events_dropped_witness :
  handle (openAi_message
            (json_value (Demo.message "input_audio_buffer.committed" None)))
    (Demo.world initialSession Demo.outside)
  = (Ok tt, Demo.world initialSession Demo.outside, [ConsoleLog "Received event:"]).
Proof.
  apply (proj1 (proj2 (proj2
           (malformed_events_dropped (Demo.world initialSession Demo.outside))))
           (Demo.message "input_audio_buffer.committed" None)).
  repeat constructor.
Defined.

(** C9 as stated fails twice over: a recognized event without its payload
    is not dropped (a transcript event without a transcript is entered in the
    dialogue as the text "undefined"), and an event with an unknown tag leaves
    no console entry. *)
Lemma dialogue_grows_without_transcript :
  fullDialogue
    (openAiWs
       (snd (fst (handle
                    (openAi_message
                       (json_value (Demo.message "response.audio_transcript.done" None)))
                    (Demo.world initialSession Demo.outside)))))
  = js "AI: undefined" ++ [10%N]
  /\ snd (handle
            (openAi_message (json_value (Demo.message "rate_limits.updated" None)))
            (Demo.world initialSession Demo.outside))
     = [].
Proof. vm_compute. split; reflexivity. Qed.

(** ** Where the booking fields are assigned *)

Lemma valid_truthy (e : jsstring) :
  Email.validateEmail e = true -> truthy (Some e) = true.
Proof. now destruct e. Qed.

(** ** Rules for computations with awaits *)

Section OkRules.

Variable E : Env.
Variable T : Terms E.
Hypothesis HT : fair T.

Lemma abidesT_weaken {A} (t : Async.Task E A) (w : World E)
  (Q Q' : Res A -> World E -> Prop) :
  (forall r w', Q r w' -> Q' r w') -> abidesT T t w Q -> abidesT T t w Q'.
Proof.
  intros HQ. revert w.
  induction t as [r|rest IH] using Async.Task_ind; intros w; cbn [abidesT].
  - apply HQ.
  - intros H w1 Hr. specialize (H w1 Hr). specialize (IH w1).
    destruct (rest w1) as [[t' w'] o]. cbn [fst] in IH.
    destruct H as (Ho & Hg & H). auto.
Qed.

Lemma abides_weaken {A} (m : Async.Co E A) (w : World E)
  (Q Q' : Res A -> World E -> Prop) :
  abides T m w Q -> (forall r w', Q r w' -> Q' r w') -> abides T m w Q'.
Proof.
  unfold abides. destruct (m w) as [[t w'] o]. intros (Ho & Hg & H) HQ.
  split; [exact Ho|]. split; [exact Hg|]. now apply abidesT_weaken with (Q := Q).
Qed.

Lemma abides_now {A} (m : M E A) (w : World E) (Q : Res A -> World E -> Prop) :
  post m w (fun r w' o => Forall (effectOk T) o /\ guar T w w' /\ Q r w') ->
  abides T (Async.now m) w Q.
Proof.
  unfold post, abides, Async.now. destruct (m w) as [[r w'] o]. exact (fun H => H).
Qed.

Lemma abides_pause (w : World E) (Q : Res unit -> World E -> Prop) :
  (forall w1, rely T w w1 -> Q (Ok tt) w1) -> abides T (Async.pause (E:=E)) w Q.
Proof.
  intros H. unfold abides, Async.pause.
  split; [constructor|]. split; [apply (guar_refl HT)|].
  intros w1 Hr. split; [constructor|]. split; [apply (guar_refl HT)|]. now apply H.
Qed.

Lemma thenT_ok {A B} (k : A -> Async.Co E B) (Q : Res B -> World E -> Prop)
  (t : Async.Task E A) :
  forall w,
    abidesT T t w (fun r w1 => match r with
                           | Ok a => abides T (k a) w1 Q
                           | Throw e => Q (Throw e) w1
                           end) ->
    let '(t2, w2, o2) := Async.thenT t k w in
    Forall (effectOk T) o2 /\ guar T w w2 /\ abidesT T t2 w2 Q.
Proof.
  induction t as [r|rest IH] using Async.Task_ind; intros w H.
  - destruct r as [a|e]; cbn in H |- *.
    + exact H.
    + split; [constructor|]. split; [apply (guar_refl HT) | exact H].
  - cbn [Async.thenT]. split; [constructor|]. split; [apply (guar_refl HT)|].
    intros w1 Hr. specialize (H w1 Hr). specialize (IH w1).
    destruct (rest w1) as [[t' w'] o]. cbn [fst] in IH.
    destruct H as (Ho & Hg & H). specialize (IH w' H).
    destruct (Async.thenT t' k w') as [[t2 w2] o2].
    destruct IH as (Ho2 & Hg2 & H2).
    split; [now apply Forall_app|].
    split; [now apply (guar_trans HT) with w' | exact H2].
Qed.

Lemma abides_bind {A B} (m : Async.Co E A) (k : A -> Async.Co E B) (w : World E)
  (Q : Res B -> World E -> Prop) :
  abides T m w (fun r w1 => match r with
                        | Ok a => abides T (k a) w1 Q
                        | Throw e => Q (Throw e) w1
                        end) ->
  abides T (Async.bind m k) w Q.
Proof.
  intros H. red in H. red. unfold Async.bind. destruct (m w) as [[t w1] o1].
  destruct H as (Ho & Hg & H). apply thenT_ok in H.
  destruct (Async.thenT t k w1) as [[t2 w2] o2].
  destruct H as (Ho2 & Hg2 & H2).
  split; [now apply Forall_app|].
  split; [now apply (guar_trans HT) with w1 | exact H2].
Qed.

Lemma catchT_ok {A} (h : Err -> Async.Co E A) (Q : Res A -> World E -> Prop)
  (t : Async.Task E A) :
  forall w,
    abidesT T t w (fun r w1 => match r with
                           | Ok a => Q (Ok a) w1
                           | Throw e => abides T (h e) w1 Q
                           end) ->
    let '(t2, w2, o2) := Async.catchT t h w in
    Forall (effectOk T) o2 /\ guar T w w2 /\ abidesT T t2 w2 Q.
Proof.
  induction t as [r|rest IH] using Async.Task_ind; intros w H.
  - destruct r as [a|e]; cbn in H |- *.
    + split; [constructor|]. split; [apply (guar_refl HT) | exact H].
    + exact H.
  - cbn [Async.catchT]. split; [constructor|]. split; [apply (guar_refl HT)|].
    intros w1 Hr. specialize (H w1 Hr). specialize (IH w1).
    destruct (rest w1) as [[t' w'] o]. cbn [fst] in IH.
    destruct H as (Ho & Hg & H). specialize (IH w' H).
    destruct (Async.catchT t' h w') as [[t2 w2] o2].
    destruct IH as (Ho2 & Hg2 & H2).
    split; [now apply Forall_app|].
    split; [now apply (guar_trans HT) with w' | exact H2].
Qed.

Lemma abides_tryCatch {A} (m : Async.Co E A) (h : Err -> Async.Co E A) (w : World E)
  (Q : Res A -> World E -> Prop) :
  abides T m w (fun r w1 => match r with
                        | Ok a => Q (Ok a) w1
                        | Throw e => abides T (h e) w1 Q
                        end) ->
  abides T (Async.tryCatch m h) w Q.
Proof.
  intros H. red in H. red. unfold Async.tryCatch. destruct (m w) as [[t w1] o1].
  destruct H as (Ho & Hg & H). apply catchT_ok in H.
  destruct (Async.catchT t h w1) as [[t2 w2] o2].
  destruct H as (Ho2 & Hg2 & H2).
  split; [now apply Forall_app|].
  split; [now apply (guar_trans HT) with w1 | exact H2].
Qed.

Lemma awaitT_ok {A} (Q : Res A -> World E -> Prop) (t : Async.Task E A) :
  forall w,
    abidesT T t w (fun r w1 => forall w2, rely T w1 w2 -> Q r w2) ->
    let '(t2, w2, o2) := Async.awaitT t w in
    Forall (effectOk T) o2 /\ guar T w w2 /\ abidesT T t2 w2 Q.
Proof.
  induction t as [r|rest IH] using Async.Task_ind; intros w H.
  - cbn in H |- *. split; [constructor|]. split; [apply (guar_refl HT)|].
    intros w1 Hr. split; [constructor|]. split; [apply (guar_refl HT)|]. now apply H.
  - cbn [Async.awaitT]. split; [constructor|]. split; [apply (guar_refl HT)|].
    intros w1 Hr. specialize (H w1 Hr). specialize (IH w1).
    destruct (rest w1) as [[t' w'] o]. cbn [fst] in IH.
    destruct H as (Ho & Hg & H). specialize (IH w' H).
    destruct (Async.awaitT t' w') as [[t2 w2] o2].
    destruct IH as (Ho2 & Hg2 & H2).
    split; [now apply Forall_app|].
    split; [now apply (guar_trans HT) with w' | exact H2].
Qed.

Lemma abides_await {A} (m : Async.Co E A) (w : World E) (Q : Res A -> World E -> Prop) :
  abides T m w (fun r w1 => forall w2, rely T w1 w2 -> Q r w2) ->
  abides T (Async.await m) w Q.
Proof.
  intros H. red in H. red. unfold Async.await. destruct (m w) as [[t w1] o1].
  destruct H as (Ho & Hg & H). apply awaitT_ok in H.
  destruct (Async.awaitT t w1) as [[t2 w2] o2].
  destruct H as (Ho2 & Hg2 & H2).
  split; [now apply Forall_app|].
  split; [now apply (guar_trans HT) with w1 | exact H2].
Qed.

Lemma abides_ret {A} (a : A) (w : World E) (Q : Res A -> World E -> Prop) :
  Q (Ok a) w -> abides T (Async.ret a) w Q.
Proof.
  intros H. apply abides_now. apply post_ret.
  split; [constructor|]. split; [apply (guar_refl HT) | exact H].
Qed.

Lemma abides_throw {A} (e : Err) (w : World E) (Q : Res A -> World E -> Prop) :
  Q (Throw e) w -> abides T (Async.throw e) w Q.
Proof.
  intros H. apply abides_now. apply post_throw.
  split; [constructor|]. split; [apply (guar_refl HT) | exact H].
Qed.

(** An effect that neither sends nor assigns, by itself. *)
Lemma abides_quiet_emit (e : Effect) (w : World E) (Q : Res unit -> World E -> Prop) :
  quiet e -> Q (Ok tt) w -> abides T (Async.now (emit e)) w Q.
Proof.
  intros He H. apply abides_now. apply post_emit.
  split; [constructor; [now apply (quiet_ok HT) | constructor]|].
  split; [apply (guar_refl HT) | exact H].
Qed.

(** A call of a collaborator that is not awaited. *)
Lemma abides_invoke {A} (op : Operation) (f : Ext E -> Res A * Ext E) (w : World E)
  (Q : Res A -> World E -> Prop) :
  (forall r x, f (external w) = (r, x) -> Q r (with_external x w)) ->
  abides T (Async.invoke op f) w Q.
Proof.
  intros H. apply abides_now. apply post_invoke. intros r x Hf.
  split; [constructor; [now apply (quiet_ok HT) | constructor]|].
  split; [apply (guar_ext HT) | now apply H].
Qed.

(** An awaited call of a collaborator. *)
Lemma abides_await_invoke {A} (op : Operation) (f : Ext E -> Res A * Ext E) (w : World E)
  (Q : Res A -> World E -> Prop) :
  (forall r w', rely T w w' -> Q r w') ->
  abides T (Async.await (Async.invoke op f)) w Q.
Proof.
  intros H. apply abides_await. apply abides_invoke. intros r x _ w2 Hr.
  apply H. apply (rely_trans HT) with (with_external x w);
    [apply (rely_ext HT) | exact Hr].
Qed.

Lemma abides_retryLoop {A} (op : Operation) (f : Ext E -> Res A * Ext E) (n : nat) :
  forall (i : nat) (e0 : Err) (w0 w : World E) (Q : Res A -> World E -> Prop),
    rely T w0 w -> (forall r w', rely T w0 w' -> Q r w') ->
    abides T (Async.retryLoop (Async.invoke op f) n i e0) w Q.
Proof.
  induction n as [|n IH]; intros i e0 w0 w Q Hw HQ; cbn [Async.retryLoop].
  - apply abides_throw. now apply HQ.
  - apply abides_tryCatch. apply abides_await_invoke. intros r w1 Hr1.
    assert (H1 : rely T w0 w1) by now apply (rely_trans HT) with w.
    destruct r as [a|e]; [now apply HQ|].
    apply abides_bind. unfold Async.console_error, console_error.
    apply abides_quiet_emit; [exact I|].
    apply abides_bind.
    destruct (_ <? _)%Z.
    + apply abides_await. apply abides_quiet_emit; [exact I|]. intros w2 Hr2.
      apply IH with w0; [now apply (rely_trans HT) with w1 | exact HQ].
    + apply abides_ret. now apply IH with w0.
Qed.

(** A retried call of a collaborator, awaited or not. *)
Lemma abides_withRetry {A} (op : Operation) (f : Ext E -> Res A * Ext E) (w : World E)
  (Q : Res A -> World E -> Prop) :
  (forall r w', rely T w w' -> Q r w') ->
  abides T (Async.withRetry (Async.invoke op f)) w Q.
Proof.
  intros HQ. unfold Async.withRetry.
  apply abides_retryLoop with w; [apply (rely_refl HT) | exact HQ].
Qed.

Lemma abides_await_withRetry {A} (op : Operation) (f : Ext E -> Res A * Ext E)
  (w : World E) (Q : Res A -> World E -> Prop) :
  (forall r w', rely T w w' -> Q r w') ->
  abides T (Async.await (Async.withRetry (Async.invoke op f))) w Q.
Proof.
  intros H. apply abides_await. apply abides_withRetry. intros r w1 Hr1 w2 Hr2.
  apply H. now apply (rely_trans HT) with w1.
Qed.

(** The second listener of an event writes its console entry when the first
    has reached its first await. *)
Lemma abides_alongside {A} (m : Async.Co E A) (e : Effect) (w : World E)
  (Q : Res A -> World E -> Prop) :
  quiet e -> abides T m w Q -> abides T (Async.alongside m (emit e)) w Q.
Proof.
  intros He H. red in H. red. unfold Async.alongside, emit.
  destruct (m w) as [[t w1] o1]. destruct H as (Ho & Hg & H).
  split; [|now split].
  apply Forall_app. split; [exact Ho|].
  constructor; [now apply (quiet_ok HT) | constructor].
Qed.

End OkRules.

Create HintDb overlap.

#[global] Hint Unfold
  Async.ret Async.throw Async.when Async.getSession Async.assign
  Async.console_log Async.console_error Async.openAiWs_send
  Async.parseUserTime Async.required Async.isoString Async.sendPrompt
  Async.sendSessionUpdate Async.sendUserMessage Async.appendDialogue
  Async.parseArguments Async.onSessionCreated Async.onSpeechStarted
  Async.onAudioDelta
  Async.createOrGetUserWithRetry Async.updateUserNameWithRetry
  Async.updateUserEmailWithRetry Async.createConversationWithRetry
  Async.updateConversationWithRetry Async.finalizeConversationInDbWithRetry
  Async.getLastConversationWithRetry Async.createBookingWithRetry
  Async.updateBookingStateWithRetry
  Async.updateLastConversation Async.handleIncomingCall Async.askForSuitableTime
  Async.askForEmail Async.confirmEmail Async.bookTrainingSession Async.afterBooking
  Async.handleEmailConfirmation Async.handleExistingEmailConfirmation
  Async.extractUserNameFromSummary Async.finalizeConversation
  Async.onSessionUpdated Async.onAccessKnowledgeBase Async.onScheduleTrainingSession
  Async.onFunctionCall Async.onTimeInput Async.onContentDone
  Async.onAudioTranscriptDone Async.onInputTranscription
  Async.handleOpenAiMessage Async.handleTwilioMessage Async.listener
  Async.handle : overlap.

(** The paths of [Async.dispatch], tag by tag. *)
Ltac by_tag_overlapping r :=
  let t := fresh "t" in
  let Hin := fresh "Hin" in
  let Htag := fresh "Htag" in
  let Hnone := fresh "Hnone" in
  destruct (type_cases r) as [(t & Hin & Htag)|Hnone];
  [ unfold handledTypes in Hin;
    repeat (destruct Hin as [<-|Hin]; [unfold Async.dispatch, Async.when; tagged Htag|]);
    try contradiction
  | unfold handledTypes in Hnone;
    repeat match goal with
           | H : Forall _ (_ :: _) |- _ =>
               let H1 := fresh "Hno" in
               let H2 := fresh "Hrest" in
               apply Forall_cons_iff in H as [H1 H2]
           end;
    unfold Async.dispatch, Async.when;
    repeat match goal with
           | H : typeIs r _ = false |- _ => rewrite H; clear H
           end;
    cbv beta iota; cbn [andb orb] ].

(** The world a handler is resumed in, reached from the world [a]. *)
Ltac reach HT :=
  lazymatch goal with
  | |- rely _ ?a ?a => apply (rely_refl HT)
  | |- rely _ ?a (with_external _ ?b) =>
      apply (rely_trans HT) with b; [reach HT | apply (rely_ext HT)]
  | |- rely _ ?a ?b =>
      first [ assumption
            | match goal with
              | H : rely _ ?c b |- _ => apply (rely_trans HT) with c; [reach HT | exact H]
              end ]
  end.

(** One step of a computation with awaits.  [leafP] shows an effect of the
    source to be all right, [leafG] what a step without an await warrants. *)
Ltac ostep HT leafP leafG hook :=
  lazymatch goal with
  | |- abides _ (Async.bind _ _) _ _ => apply (abides_bind HT)
  | |- abides _ (Async.tryCatch _ _) _ _ => apply (abides_tryCatch HT)
  | |- abides _ (Async.await (Async.withRetry (Async.invoke _ _))) _ _ =>
      apply (abides_await_withRetry HT);
      let r := fresh "r" in let w := fresh "w" in let Hr := fresh "Hrely" in
      intros r w Hr; destruct r
  | |- abides _ (Async.await (Async.invoke _ _)) _ _ =>
      apply (abides_await_invoke HT);
      let r := fresh "r" in let w := fresh "w" in let Hr := fresh "Hrely" in
      intros r w Hr; destruct r
  | |- abides _ (Async.await _) _ _ => apply (abides_await HT)
  | |- abides _ (Async.invoke _ _) _ _ =>
      apply (abides_invoke HT);
      let r := fresh "r" in let x := fresh "x" in let Hr := fresh "Hr" in
      intros r x Hr; destruct r
  | |- abides _ (Async.pause (E:=_)) _ _ =>
      apply (abides_pause HT);
      let w := fresh "w" in let Hr := fresh "Hrely" in intros w Hr
  | |- abides _ (Async.alongside _ _) _ _ => apply (abides_alongside HT); [exact I|]
  | |- abides _ (Async.now _) _ _ =>
      apply abides_now; autounfold with bridge; cbv beta iota; proj; repeat mstep;
      repeat rewrite <- app_assoc; cbn [app];
      (split; [trace_all leafP | split; [leafG|]])
  | |- abides _ (if ?b then _ else _) _ _ =>
      first [ match goal with H : b = _ |- _ => rewrite H end | destruct b eqn:? ]
  | |- abides _ (match ?x with _ => _ end) _ _ =>
      first [ match goal with H : x = _ |- _ => rewrite H end | destruct x eqn:? ]
  | |- forall w, rely _ _ w -> _ =>
      let w := fresh "w" in let Hr := fresh "Hrely" in intros w Hr
  end; cbv beta iota; proj; hook.

Ltac orun HT leafP leafG hook :=
  autounfold with overlap; cbv beta iota; proj; repeat ostep HT leafP leafG hook.

Section Quietly.

Variable E : Env.
Variable T : Terms E.
Hypothesis HT : fair T.

Ltac quietly :=
  orun HT ltac:(apply (quiet_ok HT); exact I)
          ltac:(first [apply (guar_refl HT) | apply (guar_ext HT)])
          ltac:(idtac).

(** [updateLastConversation] neither sends nor assigns. *)
Lemma abides_updateLastConversation q a (w : World E) Q :
  (forall r w', rely T w w' -> Q r w') ->
  abides T (Async.updateLastConversation q a) w Q.
Proof.
  intros HQ. quietly; apply HQ; reach HT.
Qed.

(** [bookTrainingSession] returns a boolean and neither sends nor assigns. *)
Lemma abides_bookTrainingSession t e (w : World E) Q :
  (forall b w', rely T w w' -> Q (Ok b) w') ->
  abides T (Async.bookTrainingSession t e) w Q.
Proof.
  intros HQ. quietly; apply HQ; reach HT.
Qed.

(** [extractUserNameFromSummary] returns normally and neither sends nor
    assigns. *)
Lemma abides_extractUserNameFromSummary s (w : World E) Q :
  (forall n w', rely T w w' -> Q (Ok n) w') ->
  abides T (Async.extractUserNameFromSummary s) w Q.
Proof.
  intros HQ. quietly; apply HQ; reach HT.
Qed.

(** [finalizeConversation] returns normally and neither sends nor assigns. *)
Lemma abides_finalizeConversation (w : World E) Q :
  (forall w', rely T w w' -> Q (Ok tt) w') ->
  abides T (Async.finalizeConversation (E:=E)) w Q.
Proof.
  intros HQ. quietly; norm; apply HQ; reach HT.
Qed.

End Quietly.

(** ** Handlers that overlap *)

Lemma Forall_without {X : Type} (P : X -> Prop) (i : nat) (l : list X) :
  Forall P l -> Forall P (Async.without i l).
Proof.
  intros H. revert i. induction H as [|x l Hx Hl IH]; intros i; [destruct i; constructor|].
  destruct i as [|i]; cbn [Async.without]; [exact Hl|].
  constructor; [exact Hx | apply IH].
Qed.

Section Schedules.

Variable E : Env.
Variable T : Terms E.
Hypothesis HT : fair T.

(** Every handler keeps the terms from its first step on. *)
Hypothesis handlers_abide :
  forall ev w, abides T (Async.handle ev) w (fun _ _ => True).

(** A paused handler that keeps the terms, its pause lying back. *)
Definition waiting (w : World E) (rest : Async.Co E unit) : Prop :=
  exists w0, rely T w0 w /\ abidesT T (Async.Paused rest) w0 (fun _ _ => True).

Lemma keep_waiting (t : Async.Task E unit) (w : World E) (pool : Async.Pool E) :
  abidesT T t w (fun _ _ => True) ->
  Forall (waiting w) pool -> Forall (waiting w) (Async.keep t pool).
Proof.
  intros Ht Hpool. destruct t as [r|rest]; [exact Hpool|].
  cbn [Async.keep]. apply Forall_app. split; [exact Hpool|].
  constructor; [|constructor].
  exists w. split; [apply (rely_refl HT) | exact Ht].
Qed.

Section AnyOverlap.

(** What a handler warrants is what the others take for granted. *)
Hypothesis guar_rely : forall a b, guar T a b -> rely T a b.

Lemma waiting_on (w w' : World E) (pool : Async.Pool E) :
  guar T w w' -> Forall (waiting w) pool -> Forall (waiting w') pool.
Proof.
  intros Hg. apply Forall_impl. intros rest (w0 & Hr & H).
  exists w0. split; [|exact H].
  apply (rely_trans HT) with w; [exact Hr | now apply guar_rely].
Qed.

Lemma step_abides (a : Async.Action) (w : World E) (pool : Async.Pool E) :
  Forall (waiting w) pool ->
  let '(w', pool', o) := Async.step a w pool in
  Forall (effectOk T) o /\ Forall (waiting w') pool'.
Proof.
  intros Hpool. destruct a as [ev|i]; cbn [Async.step].
  - pose proof (handlers_abide ev w) as H. red in H.
    destruct (Async.handle ev w) as [[t w'] o]. destruct H as (Ho & Hg & Ht).
    split; [exact Ho|].
    apply keep_waiting; [exact Ht | eapply waiting_on; eassumption].
  - destruct (nth_error pool i) as [rest|] eqn:Hi; [|split; [constructor | exact Hpool]].
    assert (Hrest : waiting w rest).
    { apply nth_error_In in Hi. rewrite Forall_forall in Hpool. now apply Hpool. }
    destruct Hrest as (w0 & Hr & H). cbn [abidesT] in H. specialize (H w Hr).
    destruct (rest w) as [[t w'] o]. destruct H as (Ho & Hg & Ht).
    split; [exact Ho|].
    apply keep_waiting; [exact Ht|].
    eapply waiting_on; [exact Hg | now apply Forall_without].
Qed.

(** Whatever the order in which events arrive and paused handlers go on,
    every effect satisfies the terms. *)
Lemma exec_abides (actions : list Async.Action) :
  forall (w : World E) (pool : Async.Pool E),
    Forall (waiting w) pool ->
    Forall (effectOk T) (snd (Async.exec actions w pool)).
Proof.
  induction actions as [|a actions IH]; intros w pool Hpool; [constructor|].
  cbn [Async.exec].
  pose proof (step_abides a Hpool) as H.
  destruct (Async.step a w pool) as [[w1 pool1] o1]. destruct H as (Ho & Hpool1).
  specialize (IH w1 pool1 Hpool1).
  destruct (Async.exec actions w1 pool1) as [[w2 pool2] o2].
  cbn [snd] in IH |- *. now apply Forall_app.
Qed.

End AnyOverlap.

(** Without overlap: at most one handler is paused, and it is resumed in
    the world it paused in. *)
Lemma exec_abides_alone (actions : list Async.Action) :
  forall (w : World E) (pool : Async.Pool E),
    (List.length pool <= 1)%nat ->
    Forall (fun rest => abidesT T (Async.Paused rest) w (fun _ _ => True)) pool ->
    Async.overlapFree actions w pool = true ->
    Forall (effectOk T) (snd (Async.exec actions w pool)).
Proof.
  induction actions as [|a actions IH]; intros w pool Hlen Hpool Hfree; [constructor|].
  cbn [Async.exec Async.overlapFree] in Hfree |- *.
  assert (Hstep :
    (match a, pool with Async.arrive _, _ :: _ => False | _, _ => True end) ->
    let '(w1, pool1, o1) := Async.step a w pool in
    Forall (effectOk T) o1 /\ (List.length pool1 <= 1)%nat
    /\ Forall (fun rest => abidesT T (Async.Paused rest) w1 (fun _ _ => True)) pool1).
  { intros Hfirst. destruct a as [ev|i]; cbn [Async.step].
    - destruct pool as [|p pool]; [|contradiction].
      pose proof (handlers_abide ev w) as H. red in H.
      destruct (Async.handle ev w) as [[t w'] o]. destruct H as (Ho & Hg & Ht).
      split; [exact Ho|].
      destruct t as [r|rest]; cbn [Async.keep app List.length];
        (split; [lia|]); [constructor|].
      constructor; [exact Ht | constructor].
    - destruct pool as [|p pool]; [destruct i; cbn; repeat split; auto|].
      destruct pool as [|q pool]; [|cbn in Hlen; lia].
      destruct i as [|i]; cbn [nth_error].
      + apply Forall_inv in Hpool. cbn [abidesT] in Hpool.
        specialize (Hpool w (rely_refl HT w)).
        destruct (p w) as [[t w'] o]. destruct Hpool as (Ho & Hg & Ht).
        split; [exact Ho|]. cbn [Async.without].
        destruct t as [r|rest]; cbn [Async.keep app List.length];
          (split; [lia|]); [constructor|].
        constructor; [exact Ht | constructor].
      + destruct i; cbn; repeat split; auto. }
  destruct a as [ev|i].
  - destruct pool as [|p pool]; [|discriminate].
    specialize (Hstep I).
    destruct (Async.step (Async.arrive ev) w []) as [[w1 pool1] o1].
    destruct Hstep as (Ho & Hlen1 & Hpool1).
    specialize (IH w1 pool1 Hlen1 Hpool1 Hfree).
    destruct (Async.exec actions w1 pool1) as [[w2 pool2] o2].
    cbn [snd] in IH |- *. now apply Forall_app.
  - specialize (Hstep I).
    destruct (Async.step (Async.resume i) w pool) as [[w1 pool1] o1].
    destruct Hstep as (Ho & Hlen1 & Hpool1).
    specialize (IH w1 pool1 Hlen1 Hpool1 Hfree).
    destruct (Async.exec actions w1 pool1) as [[w2 pool2] o2].
    cbn [snd] in IH |- *. now apply Forall_app.
Qed.

End Schedules.

(** ** The terms the handlers keep *)

Lemma aloneTerms_fair (E : Env) : fair (aloneTerms E).
Proof.
  split; cbn [rely guar effectOk aloneTerms]; unfold sameSession; auto.
  - intros a b c H1 H2. congruence.
  - intros e He. split; destruct e; try exact I; contradiction.
Qed.

Lemma overlapTerms_fair (E : Env) : fair (overlapTerms E).
Proof.
  split; cbn [rely guar effectOk overlapTerms]; unfold emailKept; auto.
  intros e He. split; destruct e; try exact I; contradiction.
Qed.

Ltac alone_hook :=
  repeat match goal with
         | H : rely (aloneTerms _) _ _ |- _ =>
             cbn [rely aloneTerms] in H; unfold sameSession in H; proj
         | H : openAiWs ?w = _ |- context [openAiWs ?w] => rewrite H
         end; proj.

Ltac alone_leaf :=
  alone_hook;
  cbn [effectOk aloneTerms guarded alongEdge]; proj;
  repeat match goal with
         | H : bookingState _ = _ |- _ => rewrite H
         end;
  cbn [moves];
  split;
  first [ exact I
        | reflexivity
        | congruence
        | discriminate
        | intros; discriminate
        | intros _; apply valid_truthy; assumption
        | idtac ].

Section Alone.

Variable E : Env.

Ltac alone :=
  orun (aloneTerms_fair E) ltac:(alone_leaf) ltac:(exact I) ltac:(alone_hook);
  try exact I.

Lemma handle_abides_alone (ev : Event) (w : World E) :
  abides (aloneTerms E) (Async.handle ev) w (fun _ _ => True).
Proof.
  destruct ev as [| |data| | |message|].
  - alone.
  - alone.
  - destruct data as [| |r].
    + alone.
    + alone.
    + unfold Async.handle, Async.handleOpenAiMessage.
      ostep (aloneTerms_fair E) ltac:(alone_leaf) ltac:(exact I) ltac:(alone_hook).
      ostep (aloneTerms_fair E) ltac:(alone_leaf) ltac:(exact I) ltac:(alone_hook).
      ostep (aloneTerms_fair E) ltac:(alone_leaf) ltac:(exact I) ltac:(alone_hook).
      ostep (aloneTerms_fair E) ltac:(alone_leaf) ltac:(exact I) ltac:(alone_hook).
      unfold Async.ret.
      ostep (aloneTerms_fair E) ltac:(alone_leaf) ltac:(exact I) ltac:(alone_hook).
      by_tag_overlapping r; alone.
  - alone.
  - alone.
  - alone.
  - alone.
Qed.

End Alone.

Ltac overlap_hook :=
  repeat match goal with
         | H : rely (overlapTerms _) ?a ?b |- _ =>
             cbn [rely overlapTerms] in H; unfold emailKept in H; proj;
             first [ specialize (H ltac:(first [assumption | apply valid_truthy; assumption]))
                   | clear H ]
         end.

Ltac overlap_leaf :=
  cbn [effectOk overlapTerms guardedUnderOverlap startsFromIdle]; proj;
  split;
  first [ exact I
        | congruence
        | intros; discriminate
        | intros _; assumption
        | idtac ].

Ltac overlap_guar :=
  cbn [guar overlapTerms]; unfold emailKept; proj;
  let H := fresh "H" in
  intros H;
  first [ exact H | assumption | apply valid_truthy; assumption ].

Section Overlap.

Variable E : Env.

Ltac overlapping :=
  orun (overlapTerms_fair E) ltac:(overlap_leaf) ltac:(overlap_guar)
       ltac:(overlap_hook);
  try exact I.

Lemma handle_abides_overlap (ev : Event) (w : World E) :
  abides (overlapTerms E) (Async.handle ev) w (fun _ _ => True).
Proof.
  destruct ev as [| |data| | |message|].
  - overlapping.
  - overlapping.
  - destruct data as [| |r].
    + overlapping.
    + overlapping.
    + unfold Async.handle, Async.handleOpenAiMessage.
      do 4 ostep (overlapTerms_fair E) ltac:(overlap_leaf) ltac:(overlap_guar)
             ltac:(overlap_hook).
      unfold Async.ret.
      ostep (overlapTerms_fair E) ltac:(overlap_leaf) ltac:(overlap_guar)
        ltac:(overlap_hook).
      by_tag_overlapping r; overlapping.
  - overlapping.
  - overlapping.
  - overlapping.
  - overlapping.
Qed.

End Overlap.

(** ** The booking fields when handlers overlap *)

(** C3.  The events of a call arriving and the paused handlers going on
    in any order, from any state of the call: every assignment to the
    session's [preferred_time] is made while its booking state is not [idle],
    and every assignment of [confirm_email] to the booking state is made
    while the session holds a non-empty e-mail.  When no handler is started
    while another is paused, every assignment to the session's [email] is
    made while its booking state is not [idle] as well. *)
Theorem booking_fields_guarded_under_overlap
  (E : Env) (actions : list Async.Action) (w : World E) :
  Forall guardedUnderOverlap (snd (Async.exec actions w []))
  /\ (Async.overlapFree actions w [] = true ->
      Forall guarded (snd (Async.exec actions w []))).
Proof.
  split.
  - eapply Forall_impl;
      [|apply (exec_abides (overlapTerms_fair E) (@handle_abides_overlap E)
                 (fun a b H => H) actions (w := w) (pool := []));
        constructor].
    intros e [H _]. exact H.
  - intros Hfree.
    eapply Forall_impl;
      [|apply (exec_abides_alone (aloneTerms_fair E) (@handle_abides_alone E)
                 actions (w := w) (pool := []));
        [cbn; lia | constructor | exact Hfree]].
    intros e [H _]. exact H.
Qed.

Lemma booking_fields_guarded_under_overlap_witness :
  Async.overlapFree callInTurn
    (Demo.world (set_bookingState awaiting_time initialSession) onFile) [] = true
  /\ Forall guarded
       (snd (Async.exec callInTurn
               (Demo.world (set_bookingState awaiting_time initialSession) onFile) [])).
Proof.
  split; [vm_compute; reflexivity|].
  apply (proj2 (booking_fields_guarded_under_overlap callInTurn
                  (Demo.world (set_bookingState awaiting_time initialSession) onFile))).
  vm_compute. reflexivity.
Defined.

(** C3 as stated fails: in [overlappingCall] the e-mail on file is assigned
    while the booking state is [idle], the tool call having reset it during
    the lookup; the booking state goes from [idle] to
    [confirm_existing_email]. *)
Lemma email_assigned_while_idle :
  existsb (assignedWhileIdle F_email)
    (snd (Async.exec overlappingCall
            (Demo.world (set_bookingState awaiting_time initialSession) onFile) []))
  = true
  /\ statesEntered
       (snd (Async.exec overlappingCall
               (Demo.world (set_bookingState awaiting_time initialSession) onFile) []))
     = [idle; confirm_existing_email]
  /\ Async.overlapFree overlappingCall
       (Demo.world (set_bookingState awaiting_time initialSession) onFile) [] = false
  /\ ~ Forall guarded
         (snd (Async.exec overlappingCall
                 (Demo.world (set_bookingState awaiting_time initialSession) onFile) [])).
Proof.
  split; [vm_compute; reflexivity|].
  split; [vm_compute; reflexivity|].
  split; [vm_compute; reflexivity|].
  intros H. rewrite Forall_forall in H.
  assert (Hex : existsb (assignedWhileIdle F_email)
                  (snd (Async.exec overlappingCall
                          (Demo.world (set_bookingState awaiting_time initialSession)
                             onFile) []))
                = true) by (vm_compute; reflexivity).
  apply existsb_exists in Hex as [e [Hin He]].
  specialize (H e Hin). destruct e as [| | | | | | |f before after]; try discriminate He.
  cbn [assignedWhileIdle] in He. apply andb_prop in He as [Hf Hidle].
  destruct f; try discriminate Hf. cbn in H.
  destruct (bookingState before); try discriminate Hidle. tauto.
Qed.

(** The same call in turn: the e-mail is assigned before the tool call
    resets the state. *)
Example states_in_turn :
  statesEntered
    (snd (Async.exec callInTurn
            (Demo.world (set_bookingState awaiting_time initialSession) onFile) []))
  = [confirm_existing_email; idle]
  /\ existsb (assignedWhileIdle F_email)
       (snd (Async.exec callInTurn
               (Demo.world (set_bookingState awaiting_time initialSession) onFile) []))
     = false.
Proof. vm_compute. split; reflexivity. Qed.

(** ** A handler that nothing interrupts

    Run to its end with nothing in between, a handler with its awaits does
    what the handler of [handle] does. *)

Section Uninterrupted.

Variable E : Env.

Lemma settle_thenT {A B} (k : A -> Async.Co E B) (t : Async.Task E A) :
  forall w,
    (let '(t2, w2, o2) := Async.thenT t k w in
     let '(r, w3, o3) := Async.settle t2 w2 in (r, w3, o2 ++ o3))
    = (let '(r, w1, o1) := Async.settle t w in
       match r with
       | Ok a =>
           let '(r2, w2, o2) := Async.uninterrupted (k a) w1 in (r2, w2, o1 ++ o2)
       | Throw e => (Throw e, w1, o1)
       end).
Proof.
  induction t as [r|rest IH] using Async.Task_ind; intros w.
  - destruct r as [a|e]; cbn [Async.thenT Async.settle].
    + unfold Async.uninterrupted.
      destruct (k a w) as [[t2 w2] o2]. destruct (Async.settle t2 w2) as [[r w3] o3].
      reflexivity.
    + reflexivity.
  - cbn [Async.thenT Async.settle]. specialize (IH w).
    destruct (rest w) as [[t' w'] o]. cbn [fst] in IH. specialize (IH w').
    destruct (Async.thenT t' k w') as [[t2 w2] o2].
    destruct (Async.settle t2 w2) as [[r w3] o3].
    destruct (Async.settle t' w') as [[r1 w1] o1].
    destruct r1 as [a|e].
    + destruct (Async.uninterrupted (k a) w1) as [[r2 w4] o4].
      injection IH as -> -> Ho. cbn [app]. now rewrite <- !app_assoc, Ho.
    + injection IH as -> -> Ho. cbn [app]. now rewrite <- ?app_assoc, Ho.
Qed.

Lemma uninterrupted_bind {A B} (m : Async.Co E A) (k : A -> Async.Co E B) (w : World E) :
  Async.uninterrupted (Async.bind m k) w
  = bind (Async.uninterrupted m) (fun a => Async.uninterrupted (k a)) w.
Proof.
  unfold bind. unfold Async.uninterrupted at 1 2. unfold Async.bind.
  destruct (m w) as [[t w1] o1].
  pose proof (settle_thenT k t w1) as H.
  destruct (Async.thenT t k w1) as [[t2 w2] o2].
  destruct (Async.settle t2 w2) as [[r w3] o3].
  destruct (Async.settle t w1) as [[r1 w4] o4].
  destruct r1 as [a|e].
  - destruct (Async.uninterrupted (k a) w4) as [[r2 w5] o5].
    injection H as -> -> Ho. now rewrite <- !app_assoc, Ho.
  - injection H as -> -> Ho. now rewrite <- app_assoc, Ho.
Qed.

Lemma settle_catchT {A} (h : Err -> Async.Co E A) (t : Async.Task E A) :
  forall w,
    (let '(t2, w2, o2) := Async.catchT t h w in
     let '(r, w3, o3) := Async.settle t2 w2 in (r, w3, o2 ++ o3))
    = (let '(r, w1, o1) := Async.settle t w in
       match r with
       | Ok a => (Ok a, w1, o1)
       | Throw e =>
           let '(r2, w2, o2) := Async.uninterrupted (h e) w1 in (r2, w2, o1 ++ o2)
       end).
Proof.
  induction t as [r|rest IH] using Async.Task_ind; intros w.
  - destruct r as [a|e]; cbn [Async.catchT Async.settle].
    + reflexivity.
    + unfold Async.uninterrupted.
      destruct (h e w) as [[t2 w2] o2]. destruct (Async.settle t2 w2) as [[r w3] o3].
      reflexivity.
  - cbn [Async.catchT Async.settle]. specialize (IH w).
    destruct (rest w) as [[t' w'] o]. cbn [fst] in IH. specialize (IH w').
    destruct (Async.catchT t' h w') as [[t2 w2] o2].
    destruct (Async.settle t2 w2) as [[r w3] o3].
    destruct (Async.settle t' w') as [[r1 w1] o1].
    destruct r1 as [a|e].
    + injection IH as -> -> Ho. cbn [app]. now rewrite <- ?app_assoc, Ho.
    + destruct (Async.uninterrupted (h e) w1) as [[r2 w4] o4].
      injection IH as -> -> Ho. cbn [app]. now rewrite <- !app_assoc, Ho.
Qed.

Lemma uninterrupted_tryCatch {A} (m : Async.Co E A) (h : Err -> Async.Co E A)
  (w : World E) :
  Async.uninterrupted (Async.tryCatch m h) w
  = tryCatch (Async.uninterrupted m) (fun e => Async.uninterrupted (h e)) w.
Proof.
  unfold tryCatch. unfold Async.uninterrupted at 1 2. unfold Async.tryCatch.
  destruct (m w) as [[t w1] o1].
  pose proof (settle_catchT h t w1) as H.
  destruct (Async.catchT t h w1) as [[t2 w2] o2].
  destruct (Async.settle t2 w2) as [[r w3] o3].
  destruct (Async.settle t w1) as [[r1 w4] o4].
  destruct r1 as [a|e].
  - injection H as -> -> Ho. now rewrite <- app_assoc, Ho.
  - destruct (Async.uninterrupted (h e) w4) as [[r2 w5] o5].
    injection H as -> -> Ho. now rewrite <- !app_assoc, Ho.
Qed.

Lemma settle_awaitT {A} (t : Async.Task E A) :
  forall w,
    (let '(t2, w2, o2) := Async.awaitT t w in
     let '(r, w3, o3) := Async.settle t2 w2 in (r, w3, o2 ++ o3))
    = Async.settle t w.
Proof.
  induction t as [r|rest IH] using Async.Task_ind; intros w.
  - reflexivity.
  - cbn [Async.awaitT Async.settle]. specialize (IH w).
    destruct (rest w) as [[t' w'] o]. cbn [fst] in IH. specialize (IH w').
    destruct (Async.awaitT t' w') as [[t2 w2] o2].
    destruct (Async.settle t2 w2) as [[r w3] o3].
    rewrite <- IH. cbn [app]. now rewrite <- ?app_assoc.
Qed.

Lemma uninterrupted_await {A} (m : Async.Co E A) (w : World E) :
  Async.uninterrupted (Async.await m) w = Async.uninterrupted m w.
Proof.
  unfold Async.uninterrupted, Async.await.
  destruct (m w) as [[t w1] o1].
  pose proof (settle_awaitT t w1) as H.
  destruct (Async.awaitT t w1) as [[t2 w2] o2].
  destruct (Async.settle t2 w2) as [[r w3] o3].
  rewrite <- H. now rewrite app_assoc.
Qed.

Lemma uninterrupted_now {A} (m : M E A) (w : World E) :
  Async.uninterrupted (Async.now m) w = m w.
Proof.
  unfold Async.uninterrupted, Async.now.
  destruct (m w) as [[r w1] o1]. cbn. now rewrite app_nil_r.
Qed.

Lemma uninterrupted_pause (w : World E) :
  Async.uninterrupted (Async.pause (E:=E)) w = ret tt w.
Proof. reflexivity. Qed.

Lemma bind_ext {A B} (m m' : M E A) (k k' : A -> M E B) (w : World E) :
  m w = m' w -> (forall a w', k a w' = k' a w') -> bind m k w = bind m' k' w.
Proof.
  intros Hm Hk. unfold bind. rewrite Hm.
  destruct (m' w) as [[[a|e] w1] o1]; [now rewrite Hk | reflexivity].
Qed.

Lemma tryCatch_ext {A} (m m' : M E A) (h h' : Err -> M E A) (w : World E) :
  m w = m' w -> (forall e w', h e w' = h' e w') -> tryCatch m h w = tryCatch m' h' w.
Proof.
  intros Hm Hh. unfold tryCatch. rewrite Hm.
  destruct (m' w) as [[[a|e] w1] o1]; [reflexivity | now rewrite Hh].
Qed.

Lemma uninterrupted_after_pause {A} (m : Async.Co E A) (w : World E) :
  Async.uninterrupted (Async.bind Async.pause (fun _ => m)) w = Async.uninterrupted m w.
Proof.
  rewrite uninterrupted_bind. unfold bind. rewrite uninterrupted_pause.
  cbv beta iota delta [ret]. now destruct (Async.uninterrupted m w) as [[r w1] o1].
Qed.

Lemma uninterrupted_read {A} (k : Session -> Async.Co E A) (w : World E) :
  Async.uninterrupted (Async.bind (Async.now getSession) k) w
  = Async.uninterrupted (k (openAiWs w)) w.
Proof.
  rewrite uninterrupted_bind. unfold bind.
  rewrite uninterrupted_now. cbv beta iota delta [getSession].
  now destruct (Async.uninterrupted (k (openAiWs w)) w) as [[r w1] o1].
Qed.

Lemma read_first {A} (k : Session -> M E A) (w : World E) :
  bind getSession k w = k (openAiWs w) w.
Proof.
  unfold bind, getSession. now destruct (k (openAiWs w) w) as [[r w1] o1].
Qed.

Lemma bind_ext_keeping {A B} (m m' : M E A) (k k' : A -> M E B) (w : World E) :
  m w = m' w ->
  keepsSession m' ->
  (forall a w', openAiWs w' = openAiWs w -> k a w' = k' a w') ->
  bind m k w = bind m' k' w.
Proof.
  intros Hm Hkeep Hk. unfold bind. rewrite Hm. specialize (Hkeep w).
  destruct (m' w) as [[[a|e] w1] o1]; [|reflexivity].
  cbn [fst snd] in Hkeep. now rewrite (Hk a w1 Hkeep).
Qed.

Lemma keeps_ret {A} (a : A) : keepsSession (ret (E:=E) a).
Proof. intros w. reflexivity. Qed.

Lemma keeps_throw {A} (e : Err) : keepsSession (throw (E:=E) (A:=A) e).
Proof. intros w. reflexivity. Qed.

Lemma keeps_getSession : keepsSession (getSession (E:=E)).
Proof. intros w. reflexivity. Qed.

Lemma keeps_emit (e : Effect) : keepsSession (emit (E:=E) e).
Proof. intros w. reflexivity. Qed.

Lemma keeps_invoke {A} op (f : Ext E -> Res A * Ext E) : keepsSession (invoke op f).
Proof. intros w. unfold invoke. now destruct (f (external w)). Qed.

Lemma keeps_withRetry_invoke {A} op (f : Ext E -> Res A * Ext E) :
  keepsSession (withRetry (invoke op f)).
Proof.
  intros w. unfold withRetry, Retry.withRetry.
  destruct (retryLoop_invoke op f (Retry.maxRetries Retry.RETRY_OPTIONS) 0 Undefined w)
    as (r & x & evs & Heq & _).
  rewrite Heq. reflexivity.
Qed.

Lemma keeps_bind {A B} (m : M E A) (k : A -> M E B) :
  keepsSession m -> (forall a, keepsSession (k a)) -> keepsSession (bind m k).
Proof.
  intros Hm Hk w. unfold bind. specialize (Hm w).
  destruct (m w) as [[[a|e] w1] o1]; cbn [fst snd] in Hm; [|exact Hm].
  specialize (Hk a w1). destruct (k a w1) as [[r2 w2] o2].
  cbn [fst snd] in *. congruence.
Qed.

Lemma keeps_tryCatch {A} (m : M E A) (h : Err -> M E A) :
  keepsSession m -> (forall e, keepsSession (h e)) -> keepsSession (tryCatch m h).
Proof.
  intros Hm Hh w. unfold tryCatch. specialize (Hm w).
  destruct (m w) as [[[a|e] w1] o1]; cbn [fst snd] in Hm; [exact Hm|].
  specialize (Hh e w1). destruct (h e w1) as [[r2 w2] o2].
  cbn [fst snd] in *. congruence.
Qed.

Lemma flat_map_ofOperation (o : list Effect) :
  flat_map (@ofRetryEvent E) (map (@Retry.OfOperation (World E) Effect) o) = o.
Proof. induction o as [|e o IH]; [reflexivity | cbn; now rewrite IH]. Qed.

Lemma uninterrupted_retryLoop {A} (operation' : Async.Co E A) (operation : M E A)
  (H : forall w, Async.uninterrupted operation' w = operation w) (n : nat) :
  forall i e w,
    Async.uninterrupted (Async.retryLoop operation' n i e) w
    = (let '(r, w', evs) := Retry.retryLoop operation Retry.RETRY_OPTIONS n i e w in
       (r, w', flat_map (@ofRetryEvent E) evs)).
Proof.
  induction n as [|n IH]; intros i e w.
  - reflexivity.
  - cbn [Async.retryLoop Retry.retryLoop].
    rewrite uninterrupted_tryCatch. unfold tryCatch.
    rewrite uninterrupted_await, H.
    destruct (operation w) as [[[a|err] w1] o1].
    + cbn [flat_map ofRetryEvent app]. now rewrite flat_map_ofOperation.
    + rewrite uninterrupted_bind. unfold bind at 1.
      unfold Async.console_error. rewrite uninterrupted_now.
      cbv beta iota delta [console_error emit].
      rewrite uninterrupted_bind. unfold bind at 1.
      specialize (IH (S i) err w1).
      destruct (Retry.retryLoop operation Retry.RETRY_OPTIONS n (S i) err w1)
        as [[r2 w2] rest].
      destruct (Z.of_nat i <? Z.of_nat (Retry.maxRetries Retry.RETRY_OPTIONS) - 1)%Z.
      * rewrite uninterrupted_await, uninterrupted_now.
        cbv beta iota delta [emit]. rewrite IH.
        cbn [flat_map ofRetryEvent app]. rewrite !flat_map_app, flat_map_ofOperation.
        cbn [flat_map ofRetryEvent app]. now rewrite <- ?app_assoc.
      * unfold Async.ret. rewrite uninterrupted_now.
        cbv beta iota delta [ret]. rewrite IH.
        cbn [flat_map ofRetryEvent app]. rewrite !flat_map_app, flat_map_ofOperation.
        cbn [flat_map ofRetryEvent app]. now rewrite <- ?app_assoc.
Qed.

Lemma uninterrupted_withRetry {A} (operation' : Async.Co E A) (operation : M E A)
  (w : World E) :
  (forall w', Async.uninterrupted operation' w' = operation w') ->
  Async.uninterrupted (Async.withRetry operation') w = withRetry operation w.
Proof.
  intros H. unfold Async.withRetry, withRetry, Retry.withRetry.
  rewrite uninterrupted_retryLoop with (operation := operation) by exact H.
  reflexivity.
Qed.

End Uninterrupted.

Ltac wrappers :=
  unfold Async.createOrGetUserWithRetry, Async.updateUserNameWithRetry,
    Async.updateUserEmailWithRetry, Async.createConversationWithRetry,
    Async.updateConversationWithRetry, Async.finalizeConversationInDbWithRetry,
    Async.getLastConversationWithRetry, Async.createBookingWithRetry,
    Async.updateBookingStateWithRetry,
    createOrGetUserWithRetry, updateUserNameWithRetry, updateUserEmailWithRetry,
    createConversationWithRetry, updateConversationWithRetry,
    finalizeConversationInDbWithRetry, getLastConversationWithRetry,
    createBookingWithRetry, updateBookingStateWithRetry;
  unfold Async.ret, Async.throw, Async.when, Async.getSession, Async.assign,
    Async.console_log, Async.console_error, Async.openAiWs_send,
    Async.parseUserTime, Async.required, Async.isoString, Async.sendPrompt,
    Async.sendSessionUpdate, Async.sendUserMessage, Async.appendDialogue,
    Async.parseArguments, Async.onSessionCreated, Async.onSpeechStarted,
    Async.onAudioDelta, Async.invoke, when;
  cbv zeta.

Create HintDb straight.

(** One step of a handler with its awaits against the same step of the
    handler without. *)
Ltac straight_step :=
  match goal with
  | |- Async.uninterrupted (Async.bind _ _) _ = bind _ _ _ =>
      rewrite uninterrupted_bind; apply bind_ext; [|intros ? ?]
  | |- Async.uninterrupted (Async.tryCatch _ _) _ = tryCatch _ _ _ =>
      rewrite uninterrupted_tryCatch; apply tryCatch_ext; [|intros ? ?]
  | |- Async.uninterrupted (Async.await _) _ = _ => rewrite uninterrupted_await
  | |- Async.uninterrupted (Async.withRetry _) _ = withRetry _ _ =>
      apply uninterrupted_withRetry; intros ?
  | |- Async.uninterrupted (Async.now _) _ = _ => apply uninterrupted_now
  | |- Async.uninterrupted (if ?b then _ else _) _ = _ => destruct b
  | |- Async.uninterrupted (match ?x with _ => _ end) _ = _ => destruct x
  | |- Async.uninterrupted _ _ = _ => solve [auto 1 with straight]
  end.

Ltac straight := wrappers; repeat straight_step.

(** The computations that leave the session alone. *)
Ltac keeps :=
  unfold createOrGetUserWithRetry, updateUserNameWithRetry, updateUserEmailWithRetry,
    createConversationWithRetry, updateConversationWithRetry,
    finalizeConversationInDbWithRetry, getLastConversationWithRetry,
    createBookingWithRetry, updateBookingStateWithRetry,
    console_log, console_error, isoString, when;
  repeat first
    [ match goal with |- forall _, _ => intro end
    | progress cbv zeta
    | solve [auto 1 with straight]
    | apply keeps_ret | apply keeps_throw | apply keeps_emit | apply keeps_getSession
    | apply keeps_withRetry_invoke | apply keeps_invoke
    | apply keeps_bind | apply keeps_tryCatch
    | match goal with
      | |- keepsSession (if ?b then _ else _) => destruct b
      | |- keepsSession (match ?x with _ => _ end) => destruct x
      end ].

Ltac as_read :=
  repeat match goal with
         | H : openAiWs ?a = openAiWs _ |- context [openAiWs ?a] => rewrite H
         end.

(** The same, the session being read again after an [await]. *)
Ltac keeping_step :=
  match goal with
  | |- Async.uninterrupted (Async.bind Async.pause _) _ = _ =>
      rewrite uninterrupted_after_pause
  | |- Async.uninterrupted (Async.bind (Async.now getSession) _) _ = bind getSession _ _ =>
      rewrite uninterrupted_read, read_first; as_read
  | |- Async.uninterrupted (Async.bind (Async.now getSession) _) _ = _ =>
      rewrite uninterrupted_read; as_read
  | |- Async.uninterrupted (Async.bind _ _) _ = bind _ _ _ =>
      rewrite uninterrupted_bind;
      first [ apply bind_ext_keeping; [|solve [keeps]|intros ? ? ?]
            | apply bind_ext; [|intros ? ?] ]
  | |- Async.uninterrupted (Async.tryCatch _ _) _ = tryCatch _ _ _ =>
      rewrite uninterrupted_tryCatch; apply tryCatch_ext; [|intros ? ?]
  | |- Async.uninterrupted (Async.await _) _ = _ => rewrite uninterrupted_await
  | |- Async.uninterrupted (Async.withRetry _) _ = withRetry _ _ =>
      apply uninterrupted_withRetry; intros ?
  | |- Async.uninterrupted (Async.now _) _ = _ => apply uninterrupted_now
  | |- Async.uninterrupted (if ?b then _ else _) _ = _ => destruct b
  | |- Async.uninterrupted (match ?x with _ => _ end) _ = _ => destruct x
  | |- Async.uninterrupted _ _ = _ => solve [auto 1 with straight]
  end.

Ltac keeping := wrappers; repeat keeping_step.

Section Straight.

Variable E : Env.

Lemma straight_updateLastConversation (question answer : option jsstring) (w : World E) :
  Async.uninterrupted (Async.updateLastConversation question answer) w
  = updateLastConversation question answer w.
Proof. unfold Async.updateLastConversation, updateLastConversation. straight. Qed.

#[local] Hint Resolve straight_updateLastConversation : straight.

Lemma straight_handleIncomingCall (sid : option jsstring) (w : World E) :
  Async.uninterrupted (Async.handleIncomingCall sid) w
  = handleIncomingCall sid w.
Proof. unfold Async.handleIncomingCall, handleIncomingCall. straight. Qed.

#[local] Hint Resolve straight_handleIncomingCall : straight.

Lemma straight_askForSuitableTime (w : World E) :
  Async.uninterrupted Async.askForSuitableTime w
  = askForSuitableTime w.
Proof. unfold Async.askForSuitableTime, askForSuitableTime. straight. Qed.

#[local] Hint Resolve straight_askForSuitableTime : straight.

Lemma straight_askForEmail (w : World E) :
  Async.uninterrupted Async.askForEmail w
  = askForEmail w.
Proof. unfold Async.askForEmail, askForEmail. straight. Qed.

#[local] Hint Resolve straight_askForEmail : straight.

Lemma straight_confirmEmail (e : jsstring) (w : World E) :
  Async.uninterrupted (Async.confirmEmail e) w
  = confirmEmail e w.
Proof. unfold Async.confirmEmail, confirmEmail. straight. Qed.

#[local] Hint Resolve straight_confirmEmail : straight.

Lemma straight_bookTrainingSession (preferredTime e : option jsstring) (w : World E) :
  Async.uninterrupted (Async.bookTrainingSession preferredTime e) w
  = bookTrainingSession preferredTime e w.
Proof. unfold Async.bookTrainingSession, bookTrainingSession. keeping. Qed.

#[local] Hint Resolve straight_bookTrainingSession : straight.

Lemma straight_afterBooking (bookingSuccess : bool) (successPrompt : jsstring) (w : World E) :
  Async.uninterrupted (Async.afterBooking bookingSuccess successPrompt) w
  = afterBooking bookingSuccess successPrompt w.
Proof. unfold Async.afterBooking, afterBooking. straight. Qed.

#[local] Hint Resolve straight_afterBooking : straight.

Lemma straight_handleEmailConfirmation (confirmation : jsstring) (e : option jsstring) (w : World E) :
  Async.uninterrupted (Async.handleEmailConfirmation confirmation e) w
  = handleEmailConfirmation confirmation e w.
Proof. unfold Async.handleEmailConfirmation, handleEmailConfirmation. straight. Qed.

#[local] Hint Resolve straight_handleEmailConfirmation : straight.

Lemma straight_handleExistingEmailConfirmation (confirmation : jsstring) (w : World E) :
  Async.uninterrupted (Async.handleExistingEmailConfirmation confirmation) w
  = handleExistingEmailConfirmation confirmation w.
Proof. unfold Async.handleExistingEmailConfirmation, handleExistingEmailConfirmation. straight. Qed.

#[local] Hint Resolve straight_handleExistingEmailConfirmation : straight.

Lemma straight_extractUserNameFromSummary (summary_ : jsstring) (w : World E) :
  Async.uninterrupted (Async.extractUserNameFromSummary summary_) w
  = extractUserNameFromSummary summary_ w.
Proof. unfold Async.extractUserNameFromSummary, extractUserNameFromSummary. keeping. Qed.

#[local] Hint Resolve straight_extractUserNameFromSummary : straight.

Lemma keeps_extractUserNameFromSummary (summary_ : jsstring) :
  keepsSession (extractUserNameFromSummary (E:=E) summary_).
Proof. unfold extractUserNameFromSummary. keeps. Qed.

#[local] Hint Resolve keeps_extractUserNameFromSummary : straight.

Lemma straight_finalizeConversation (w : World E) :
  Async.uninterrupted Async.finalizeConversation w
  = finalizeConversation w.
Proof. unfold Async.finalizeConversation, finalizeConversation. keeping. Qed.

#[local] Hint Resolve straight_finalizeConversation : straight.

Lemma straight_onSessionUpdated (w : World E) :
  Async.uninterrupted Async.onSessionUpdated w
  = onSessionUpdated w.
Proof. unfold Async.onSessionUpdated, onSessionUpdated. straight. Qed.

#[local] Hint Resolve straight_onSessionUpdated : straight.

Lemma straight_onAccessKnowledgeBase (response : Message) (w : World E) :
  Async.uninterrupted (Async.onAccessKnowledgeBase response) w
  = onAccessKnowledgeBase response w.
Proof. unfold Async.onAccessKnowledgeBase, onAccessKnowledgeBase. straight. Qed.

#[local] Hint Resolve straight_onAccessKnowledgeBase : straight.

Lemma straight_onScheduleTrainingSession (response : Message) (w : World E) :
  Async.uninterrupted (Async.onScheduleTrainingSession response) w
  = onScheduleTrainingSession response w.
Proof. unfold Async.onScheduleTrainingSession, onScheduleTrainingSession. straight. Qed.

#[local] Hint Resolve straight_onScheduleTrainingSession : straight.

Lemma straight_onFunctionCall (response : Message) (w : World E) :
  Async.uninterrupted (Async.onFunctionCall response) w
  = onFunctionCall response w.
Proof. unfold Async.onFunctionCall, onFunctionCall. straight. Qed.

#[local] Hint Resolve straight_onFunctionCall : straight.

Lemma straight_onTimeInput (text : option jsstring) (logged : bool) (w : World E) :
  Async.uninterrupted (Async.onTimeInput text logged) w
  = onTimeInput text logged w.
Proof. unfold Async.onTimeInput, onTimeInput. straight. Qed.

#[local] Hint Resolve straight_onTimeInput : straight.

Lemma straight_onContentDone (response : Message) (w : World E) :
  Async.uninterrupted (Async.onContentDone response) w
  = onContentDone response w.
Proof. unfold Async.onContentDone, onContentDone. straight. Qed.

#[local] Hint Resolve straight_onContentDone : straight.

Lemma straight_onAudioTranscriptDone (response : Message) (w : World E) :
  Async.uninterrupted (Async.onAudioTranscriptDone response) w
  = onAudioTranscriptDone response w.
Proof. unfold Async.onAudioTranscriptDone, onAudioTranscriptDone. straight. Qed.

#[local] Hint Resolve straight_onAudioTranscriptDone : straight.

Lemma straight_onInputTranscription (response : Message) (w : World E) :
  Async.uninterrupted (Async.onInputTranscription response) w
  = onInputTranscription response w.
Proof. unfold Async.onInputTranscription, onInputTranscription. straight. Qed.

#[local] Hint Resolve straight_onInputTranscription : straight.

Lemma straight_dispatch (response : Message) (sid : option jsstring) (w : World E) :
  Async.uninterrupted (Async.dispatch response sid) w
  = dispatch response sid w.
Proof. unfold Async.dispatch, dispatch. straight. Qed.

#[local] Hint Resolve straight_dispatch : straight.

Lemma straight_handleOpenAiMessage (data : Parsed Message) (sid : option jsstring) (w : World E) :
  Async.uninterrupted (Async.handleOpenAiMessage data sid) w
  = handleOpenAiMessage data sid w.
Proof. unfold Async.handleOpenAiMessage, handleOpenAiMessage. straight. Qed.

#[local] Hint Resolve straight_handleOpenAiMessage : straight.

Lemma straight_handleTwilioMessage (message : Parsed TwilioMessage) (setStreamSid setCallSid : option jsstring -> M E unit) (w : World E) :
  Async.uninterrupted (Async.handleTwilioMessage message setStreamSid setCallSid) w
  = handleTwilioMessage message setStreamSid setCallSid w.
Proof. unfold Async.handleTwilioMessage, handleTwilioMessage. straight. Qed.

#[local] Hint Resolve straight_handleTwilioMessage : straight.

(** A handler that nothing interrupts does what [handle] does; on the close
    of the model connection up to the place of the second listener's console
    entry, which is written when the first listener is paused, not when it
    has finished. *)
Lemma handle_uninterrupted (ev : Event) (w : World E) :
  ev <> openAi_close ->
  Async.uninterrupted (Async.handle ev) w = handle ev w.
Proof.
  intros Hev. destruct ev; try congruence;
    unfold Async.handle, Async.listener, handle; try apply uninterrupted_now.
  - straight.
  - apply straight_handleTwilioMessage.
Qed.

Lemma close_uninterrupted (w : World E) :
  exists w' before after,
    Async.uninterrupted (Async.handle openAi_close) w
    = (Ok tt, w',
       before ++ ConsoleLog "Disconnected from OpenAI Realtime API" :: after)
    /\ handle openAi_close w
       = (Ok tt, w',
          before ++ after ++ [ConsoleLog "Disconnected from OpenAI Realtime API"]).
Proof.
  unfold Async.handle, handle.
  set (body := tryCatch
                 (bind getSession
                    (fun ws => when (truthy (conversationId ws)) finalizeConversation))
                 (fun _ => console_error "Error handling WebSocket close:")).
  rewrite uninterrupted_bind. unfold Async.assign. unfold bind.
  rewrite uninterrupted_now.
  destruct (assign F_readyState (set_readyState CLOSED) w) as [[[[]|e] w1] o1] eqn:Hassign;
    [|unfold assign in Hassign; discriminate Hassign].
  match goal with
  | |- context [Async.alongside ?first _] =>
      assert (Hfirst : Async.uninterrupted first w1 = body w1)
        by (subst body; straight);
      unfold Async.uninterrupted in Hfirst |- *; unfold Async.alongside;
      destruct (first w1) as [[t w2] o2]
  end.
  cbv beta iota delta [emit].
  destruct (Async.settle t w2) as [[r w3] o3].
  rewrite <- Hfirst.
  assert (Hr : r = Ok tt).
  { revert Hfirst. subst body. unfold tryCatch.
    destruct (bind getSession
                (fun ws => when (truthy (conversationId ws)) finalizeConversation) w1)
      as [[[[]|e] w4] o4].
    - now intros [= -> _ _].
    - cbv beta iota delta [console_error emit]. now intros [= -> _ _]. }
  subst r. cbv beta iota delta [console_log emit].
  exists w3, (o1 ++ o2), o3. split.
  - now rewrite <- !app_assoc.
  - now rewrite <- !app_assoc.
Qed.

End Straight.

(** ** A call without overlap

    The events of a call that [run] handles one after the other are one of
    the ways in which the handlers of [Async.exec] take their turns: the one
    in which every handler has finished when the next event arrives. *)

Section InTurn.

Variable E : Env.

Lemma exec_app (a b : list Async.Action) :
  forall (w : World E) pool,
    Async.exec (a ++ b) w pool
    = (let '(w1, pool1, o1) := Async.exec a w pool in
       let '(w2, pool2, o2) := Async.exec b w1 pool1 in
       (w2, pool2, o1 ++ o2)).
Proof.
  induction a as [|x a IH]; intros w pool; cbn [app Async.exec].
  - now destruct (Async.exec b w pool) as [[w2 pool2] o2].
  - destruct (Async.step x w pool) as [[w1 pool1] o1]. rewrite IH.
    destruct (Async.exec a w1 pool1) as [[w2 pool2] o2].
    destruct (Async.exec b w2 pool2) as [[w3 pool3] o3].
    now rewrite app_assoc.
Qed.

Lemma overlapFree_app (a b : list Async.Action) :
  forall (w : World E) pool,
    Async.overlapFree (a ++ b) w pool
    = Async.overlapFree a w pool
      && (let '(w1, pool1, _) := Async.exec a w pool in Async.overlapFree b w1 pool1).
Proof.
  induction a as [|x a IH]; intros w pool; cbn [app Async.overlapFree Async.exec].
  - reflexivity.
  - destruct x as [ev|i].
    + destruct pool as [|p pool]; [|reflexivity].
      destruct (Async.step (Async.arrive ev) w []) as [[w1 pool1] o1]. rewrite IH.
      now destruct (Async.exec a w1 pool1) as [[w2 pool2] o2].
    + destruct (Async.step (Async.resume i) w pool) as [[w1 pool1] o1].
      rewrite IH. now destruct (Async.exec a w1 pool1) as [[w2 pool2] o2].
Qed.

(** A paused handler alone in the pool, resumed until it has finished. *)
Lemma settle_in_turn (t : Async.Task E unit) :
  forall w,
    exists n,
      Async.exec (repeat (Async.resume 0) n) w (Async.keep t [])
      = (let '(_, w', o) := Async.settle t w in (w', [], o))
      /\ Async.overlapFree (repeat (Async.resume 0) n) w (Async.keep t []) = true.
Proof.
  induction t as [r|rest IH] using Async.Task_ind; intros w.
  - exists 0. split; reflexivity.
  - specialize (IH w). cbn [Async.keep app Async.settle].
    destruct (rest w) as [[t' w'] o] eqn:Hrest. cbn [fst] in IH.
    destruct (IH w') as (n & Hexec & Hfree).
    exists (S n). cbn [repeat Async.exec Async.overlapFree Async.step nth_error].
    rewrite Hrest. cbn [Async.without]. split; [|exact Hfree].
    destruct (Async.settle t' w') as [[r w2] o2].
    match goal with
    | |- context [Async.exec ?a ?b ?c] =>
        replace (Async.exec a b c) with (w2, @nil (Async.Co E unit), o2)
          by (symmetry; exact Hexec)
    end.
    reflexivity.
Qed.

Theorem run_in_turn (evs : list Event) :
  forall w : World E,
    ~ In openAi_close evs ->
    exists actions,
      Async.overlapFree actions w [] = true
      /\ Async.exec actions w [] = (fst (run evs w), [], snd (run evs w)).
Proof.
  induction evs as [|ev evs IH]; intros w Hclose.
  - exists []. split; reflexivity.
  - assert (Hev : ev <> openAi_close) by (intros ->; apply Hclose; now left).
    assert (Hrest : ~ In openAi_close evs) by (intros H; apply Hclose; now right).
    pose proof (handle_uninterrupted w Hev) as Hhandle.
    unfold Async.uninterrupted in Hhandle.
    rewrite run_cons. rewrite <- Hhandle.
    destruct (Async.handle ev w) as [[t w1] o1] eqn:Hstart.
    destruct (settle_in_turn t w1) as (n & Hexec & Hfree).
    destruct (Async.settle t w1) as [[r w2] o2]. cbn [fst snd].
    destruct (IH w2 Hrest) as (actions & Hfree' & Hexec').
    exists (Async.arrive ev :: repeat (Async.resume 0) n ++ actions). split.
    + cbn [Async.overlapFree Async.step]. rewrite Hstart.
      rewrite overlapFree_app, Hfree, Hexec. exact Hfree'.
    + cbn [Async.exec Async.step]. rewrite Hstart.
      rewrite exec_app, Hexec, Hexec'. now rewrite app_assoc.
Qed.

End InTurn.

(** A call in which both fields are assigned: a time is understood, no
    e-mail is stored, one is spelled. *)
Example booking_fields_assigned_in_dialogue :
  filter (fun e => assignsTo F_preferred_time e || assignsTo F_email e
                   || assignsTo F_bookingState e)
    (snd (run [ openAi_message
                  (json_value
                     (Demo.message "conversation.item.input_audio_transcription.completed"
                        (Some (js "next Tuesday at 3pm"))));
                openAi_message
                  (json_value
                     (Demo.message "conversation.item.input_audio_transcription.completed"
                        (Some (js "j o h n at example dot com")))) ]
            (Demo.world (set_bookingState awaiting_time initialSession) Demo.outside)))
  = let s0 := set_lastUserMessage (Some (js "next Tuesday at 3pm"))
                (set_fullDialogue (js "User: next Tuesday at 3pm" ++ [10%N])
                   (set_bookingState awaiting_time initialSession)) in
    let s1 := set_preferred_time (Some (js "1970-01-01T00:00:00.000Z")) s0 in
    let s2 := set_bookingState awaiting_email s1 in
    let s3 := set_lastUserMessage (Some (js "j o h n at example dot com"))
                (set_fullDialogue
                   (js "User: next Tuesday at 3pm" ++ [10%N]
                    ++ js "User: j o h n at example dot com" ++ [10%N]) s2) in
    let s4 := set_email (Some (js "john@example.com")) s3 in
    [ Assign F_preferred_time s0 s1; Assign F_bookingState s1 s2;
      Assign F_email s3 s4; Assign F_bookingState s4 (set_bookingState confirm_email s4) ].
Proof. vm_compute. reflexivity. Qed.

(** ** The assignments recorded are the changes of the session *)

Lemma accountsFor_app (s s1 s2 : Session) (o1 o2 : list Effect) :
  accountsFor s o1 s1 -> accountsFor s1 o2 s2 -> accountsFor s (o1 ++ o2) s2.
Proof.
  revert s. induction o1 as [|e o1 IH]; intros s H1 H2; simpl in *.
  - now subst.
  - destruct e; try (now apply IH).
    destruct H1 as (Hb & Hc & H1). repeat split; try assumption. now apply IH.
Qed.

Lemma accountsFor_quiet (s : Session) (o : list Effect) :
  Forall quiet o -> accountsFor s o s.
Proof.
  induction 1 as [|e o He _ IH]; simpl; [reflexivity|].
  now destruct e.
Qed.

Ltac accounted :=
  idtac;
  lazymatch goal with
  | |- _ = _ => reflexivity
  | |- _ /\ _ => split; accounted
  | |- changesOnly _ _ _ => reflexivity
  | |- accountsFor _ (_ ++ _) _ =>
      eapply accountsFor_app; [apply accountsFor_quiet; eassumption | accounted]
  | |- accountsFor _ (_ :: _) _ => cbn [accountsFor]; accounted
  | |- accountsFor _ [] _ => reflexivity
  | |- accountsFor _ _ _ => apply accountsFor_quiet; assumption
  end.

Section Accounted.

Variable E : Env.

Lemma handle_accounted (ev : Event) (w : World E) :
  post (handle ev) w (fun _ w' o => accountsFor (openAiWs w) o (openAiWs w')).
Proof.
  destruct ev as [| |data| | |message|].
  - qrun; norm; accounted.
  - qrun; norm; accounted.
  - destruct data as [| |r].
    + qrun; norm; accounted.
    + qrun; norm; accounted.
    + unfold handle, handleOpenAiMessage. mstep. mstep. mstep. mstep. mstep.
      by_tag r; qrun; norm; accounted.
  - qrun; norm; accounted.
  - qrun; norm; accounted.
  - qrun; norm; accounted.
  - qrun; norm; accounted.
Qed.

End Accounted.

(** Over any events, the session changes by the recorded assignments and by
    nothing else. *)
Lemma session_changes_are_assignments (E : Env) (evs : list Event) (w : World E) :
  accountsFor (openAiWs w) (snd (run evs w)) (openAiWs (fst (run evs w))).
Proof.
  revert w. induction evs as [|ev evs IH]; intros w; [reflexivity|].
  rewrite run_cons. cbn [fst snd].
  eapply accountsFor_app; [exact (handle_accounted ev w) | apply IH].
Qed.

(** ** On which transitions the booking fields are assigned *)

Lemma quiet_count_assign (f : Field) (o : list Effect) :
  Forall quiet o -> count (assignsTo f) o = 0%nat.
Proof.
  intros Ho. apply count_none. eapply Forall_impl; [|exact Ho].
  intros e He. now destruct e.
Qed.

Ltac count_assign :=
  repeat (rewrite count_cons || rewrite count_app);
  repeat match goal with
         | Ho : Forall quiet ?o |- context [count (assignsTo ?f) ?o] =>
             rewrite (@quiet_count_assign f o Ho)
         end;
  cbn [assignsTo Field_beq count filter List.length Nat.add].

Ltac stored :=
  let Hc := fresh "Hc" in
  intros Hc;
  first
    [ exfalso; revert Hc; count_assign; cbn; lia
    | unfold timeStored, emailStored, routerError; proj;
      split;
      [ first [assumption | congruence]
      | first [ left; reflexivity
              | right; left; reflexivity
              | right; right; split; [first [assumption | reflexivity] | in_trace] ] ] ].

Section Transitions.

Variable E : Env.


End Transitions.



(** The tool call of the model with an empty argument object: the commit
    attempt is made without a time, fails, and resets the booking state. *)
Example tool_call_without_arguments :
  let '(_, w', o) :=
    handle
      (openAi_message
         (json_value
            (Demo.toolCall "schedule_training_session"
               (json_value {| question := None; arg_preferred_time := None;
                              arg_email := None |}))))
      (Demo.world (set_bookingState awaiting_email initialSession) Demo.outside) in
  bookingState (openAiWs w') = idle
  /\ filter isSend o = [ToOpenAi (response_create bookingFailedPrompt 7 150)]
  /\ filter isCall o = [Invoke op_dbUpdateBookingState].
Proof. vm_compute. repeat split. Qed.

(** Two more scenarios of the specification, run on the concrete world: a
    new caller is greeted with the fixed introduction prompt, and an assistant
    turn that speaks of a training session starts the booking dialogue. *)
Example scenario_new_caller :
  let '(_, w', o) :=
    handle (openAi_message (json_value (Demo.message "session.updated" None)))
      (Demo.world (set_callSid (Some (js "CA1")) initialSession) Demo.outside) in
  bookingState (openAiWs w') = idle
  /\ conversationId (openAiWs w') = Some (js "CA1")
  /\ filter isSend o = [ToOpenAi (response_create NEW_USER_PROMPT 7 300)].
Proof. vm_compute. repeat split. Qed.

Example scenario_scheduling_intent :
  let '(_, w', o) :=
    handle
      (openAi_message
         (json_value
            (Demo.message "response.content.done"
               (Some (js "Sure, let us book a Training Session for you.")))))
      (Demo.world initialSession Demo.outside) in
  bookingState (openAiWs w') = awaiting_time
  /\ filter isSend o = [ToOpenAi (response_create suitableTimePrompt 7 150)].
Proof. vm_compute. repeat split. Qed.

(** The commit that succeeds: the calendar is called once, the booking is
    stored, the caller's e-mail is stored, and the dialogue is back in [idle]. *)
Example scenario_commit_succeeds :
  let '(_, w', o) :=
    handle
      (openAi_message
         (json_value
            (Demo.message "conversation.item.input_audio_transcription.completed"
               (Some (js " Yes ")))))
      (Demo.world
         (set_email (Some (js "john@example.com"))
            (set_preferred_time (Some (js "2026-11-10T15:00:00.000Z"))
               (set_bookingState confirm_email initialSession)))
         Demo.outside) in
  bookingState (openAiWs w') = idle
  /\ filter isSend o = [ToOpenAi (response_create bookedPrompt 7 150)]
  /\ filter isCall o
     = [ Invoke op_uuidv4; Invoke op_calendarEventsInsert; Invoke op_dbCreateBooking;
         Invoke op_dbUpdateUserEmail; Invoke op_dbUpdateBookingState ].
Proof. vm_compute. repeat split. Qed.

(** * More of the bridge *)

(** ** Trimming and sanitizing *)

Lemma trimStart_head (s : jsstring) : noSpaceAtHead (trimStart s).
Proof.
  induction s as [|c s IH]; simpl; [exact I|].
  destruct (isSpace c) eqn:Hc; [exact IH | exact Hc].
Qed.

Lemma trimStart_fixed (s : jsstring) : noSpaceAtHead s -> trimStart s = s.
Proof. destruct s as [|c s]; simpl; [reflexivity|]. now intros ->. Qed.

Lemma trimStart_snoc (l : jsstring) (c : codeunit) :
  isSpace c = false -> trimStart (l ++ [c]) = trimStart l ++ [c].
Proof.
  intros Hc. induction l as [|x l IH]; simpl.
  - now rewrite Hc.
  - destruct (isSpace x); [exact IH | reflexivity].
Qed.

Lemma trimEnd_cons (c : codeunit) (t : jsstring) :
  isSpace c = false -> trimEnd (c :: t) = c :: trimEnd t.
Proof.
  intros Hc. unfold trimEnd. simpl.
  now rewrite trimStart_snoc, rev_app_distr.
Qed.

Lemma trimEnd_head (s : jsstring) : noSpaceAtHead s -> noSpaceAtHead (trimEnd s).
Proof.
  destruct s as [|c s]; [intros _; exact I|].
  simpl. intros Hc. now rewrite trimEnd_cons.
Qed.

Lemma trimEnd_last (s : jsstring) : noSpaceAtHead (rev (trimEnd s)).
Proof. unfold trimEnd. rewrite rev_involutive. apply trimStart_head. Qed.

Lemma trimStart_Forall (P : codeunit -> Prop) (s : jsstring) :
  Forall P s -> Forall P (trimStart s).
Proof.
  induction 1 as [|c s Hc Hs IH]; simpl; [constructor|].
  destruct (isSpace c); [exact IH | now constructor].
Qed.

Lemma trim_Forall (P : codeunit -> Prop) (s : jsstring) :
  Forall P s -> Forall P (trim s).
Proof.
  intros H. unfold trim, trimEnd.
  apply Forall_rev, trimStart_Forall, Forall_rev, trimStart_Forall, H.
Qed.

Lemma trim_fixed (s : jsstring) :
  noSpaceAtHead s -> noSpaceAtHead (rev s) -> trim s = s.
Proof.
  intros Hh Hl. unfold trim. rewrite (trimStart_fixed _ Hh).
  unfold trimEnd. rewrite (trimStart_fixed _ Hl). apply rev_involutive.
Qed.

Lemma trim_ends (s : jsstring) :
  noSpaceAtHead (trim s) /\ noSpaceAtHead (rev (trim s)).
Proof.
  split; [|apply trimEnd_last].
  unfold trim. apply trimEnd_head, trimStart_head.
Qed.

Lemma trim_idempotent (s : jsstring) : trim (trim s) = trim s.
Proof. destruct (trim_ends s). now apply trim_fixed. Qed.

Lemma newlinesToSpaces_none (s : jsstring) :
  Forall (fun c => c <> 10%N /\ c <> 13%N) (newlinesToSpaces s).
Proof.
  unfold newlinesToSpaces. induction s as [|c s IH]; simpl; constructor; [|exact IH].
  destruct (N.eqb_spec c 10); [now split|].
  destruct (N.eqb_spec c 13); [now split|]. now split.
Qed.

Lemma newlinesToSpaces_fixed (s : jsstring) :
  Forall (fun c => c <> 10%N /\ c <> 13%N) s -> newlinesToSpaces s = s.
Proof.
  unfold newlinesToSpaces. induction 1 as [|c s [H1 H2] _ IH]; simpl; [reflexivity|].
  apply N.eqb_neq in H1, H2. now rewrite H1, H2, IH.
Qed.

(** X1.  [sanitizeInput], for every input: the result has no line feed and
    no carriage return, neither begins nor ends with white space, and a
    second sanitizing leaves it as it is. *)
Theorem sanitizeInput_clean (input : jsstring) :
  let text := sanitizeInput input in
  Forall (fun c => c <> 10%N /\ c <> 13%N) text
  /\ noSpaceAtHead text
  /\ noSpaceAtHead (rev text)
  /\ sanitizeInput text = text.
Proof.
  intros text. subst text. unfold sanitizeInput.
  assert (Hnl : Forall (fun c => c <> 10%N /\ c <> 13%N) (trim (newlinesToSpaces input)))
    by apply trim_Forall, newlinesToSpaces_none.
  destruct (trim_ends (newlinesToSpaces input)) as [Hh Hl].
  repeat split; try assumption.
  rewrite (newlinesToSpaces_fixed Hnl). apply trim_idempotent.
Qed.

(** ** Spelling an address out and putting it together again *)

Lemma includes_cons (word : jsstring) (c : codeunit) (s : jsstring) :
  includes word (c :: s) = startsWith word (c :: s) || includes word s.
Proof. reflexivity. Qed.

(** A word that is nowhere in the subject is not replaced. *)
Lemma replaceWordFrom_absent (word by_ : jsstring) (s : jsstring) :
  forall prev, includes word s = false -> replaceWordFrom word by_ 0 prev s = s.
Proof.
  induction s as [|c s IH]; intros prev H; [reflexivity|].
  rewrite includes_cons in H. apply orb_false_elim in H as [Hhere Hrest].
  cbn [replaceWordFrom]. unfold wordAt. rewrite Hhere, andb_false_r. cbn [andb].
  now rewrite IH.
Qed.

Lemma replaceWord_absent (word by_ s : jsstring) :
  includes word s = false -> replaceWord word by_ s = s.
Proof. apply replaceWordFrom_absent. Qed.

(** A word of two letters or more is nowhere in a text spelled out letter by
    letter. *)
Lemma includes_spelled (a b : codeunit) (word e : jsstring) :
  a <> SPACE -> b <> SPACE ->
  includes (a :: b :: word) (splitJoinSpace e) = false.
Proof.
  intros Ha Hb. apply N.eqb_neq in Ha, Hb.
  induction e as [|c e IH]; [reflexivity|].
  destruct e as [|c2 e].
  - cbn. now rewrite andb_false_r.
  - change (splitJoinSpace (c :: c2 :: e))
      with (c :: SPACE :: splitJoinSpace (c2 :: e)).
    rewrite !includes_cons, IH.
    cbn [startsWith]. now rewrite Ha, Hb, andb_false_r.
Qed.

Lemma removeSpaces_spelled (e : jsstring) :
  Forall (fun c => isSpace c = false) e -> removeSpaces (splitJoinSpace e) = e.
Proof.
  unfold removeSpaces.
  induction 1 as [|c e Hc He IH]; [reflexivity|].
  destruct e as [|c2 e].
  - cbn. now rewrite Hc.
  - change (splitJoinSpace (c :: c2 :: e))
      with (c :: SPACE :: splitJoinSpace (c2 :: e)).
    cbn [filter]. rewrite Hc. cbn [negb].
    change (isSpace SPACE) with true. cbn [negb]. now rewrite IH.
Qed.

Lemma removeSpaces_none (s : jsstring) :
  Forall (fun c => isSpace c = false) (removeSpaces s).
Proof.
  unfold removeSpaces. apply Forall_forall. intros c Hc.
  apply filter_In in Hc as [_ Hc]. now apply negb_true_iff.
Qed.

(** X2.  An address without white space, spelled out letter by letter as
    the confirmation prompts spell it, is put together again by
    [reconstructEmail] as it was, when lower-casing leaves the spelled text as
    it is. *)
Theorem spelled_email_reconstructs (E : Env) (e : jsstring) :
  Forall (fun c => isSpace c = false) e ->
  toLowerCase E (Email.spellOutEmail e) = Email.spellOutEmail e ->
  reconstructEmail E (Email.spellOutEmail e) = e.
Proof.
  intros Hns Hlow. unfold reconstructEmail, Email.reconstructEmail.
  rewrite Hlow. unfold Email.spellOutEmail.
  rewrite (replaceWord_absent (js "at")) by (now apply includes_spelled).
  rewrite (replaceWord_absent (js "dot")) by (now apply includes_spelled).
  now apply removeSpaces_spelled.
Qed.

Lemma spelled_email_reconstructs_witness :
  reconstructEmail Demo.env (Email.spellOutEmail (js "john@example.com"))
  = js "john@example.com".
Proof.
  apply (@spelled_email_reconstructs Demo.env (js "john@example.com")).
  - repeat constructor.
  - reflexivity.
Defined.

(** X4.  Whatever the input and the engine's lower-casing, the address
    that [reconstructEmail] returns has no white space; and when the
    lower-cased input has neither the letters "at" nor the letters "dot"
    anywhere in it, the reconstruction is the lower-cased input without its
    white space. *)
Theorem reconstructEmail_without_words (E : Env) (input : jsstring) :
  Forall (fun c => isSpace c = false) (reconstructEmail E input)
  /\ (includes (js "at") (toLowerCase E input) = false ->
      includes (js "dot") (toLowerCase E input) = false ->
      reconstructEmail E input = removeSpaces (toLowerCase E input)).
Proof.
  unfold reconstructEmail, Email.reconstructEmail. split.
  - apply removeSpaces_none.
  - intros Hat Hdot.
    rewrite (replaceWord_absent (js "at")) by exact Hat.
    now rewrite (replaceWord_absent (js "dot")) by exact Hdot.
Qed.

Lemma reconstructEmail_without_words_witness :
  reconstructEmail Demo.env (js "John @ Example.COM")
  = removeSpaces (toLowerCase Demo.env (js "John @ Example.COM")).
Proof.
  apply (proj2 (reconstructEmail_without_words Demo.env (js "John @ Example.COM")));
    reflexivity.
Defined.

(** ** What an accepted address looks like *)

Lemma count_occ_part (s : jsstring) :
  Email.part s -> @count_occ codeunit N.eq_dec s AT_SIGN = 0%nat.
Proof.
  intros [_ H]. apply count_occ_not_In. intros Hin.
  rewrite Forall_forall in H. destruct (H _ Hin) as [_ Hne]. congruence.
Qed.

Lemma part_no_space (s : jsstring) :
  Email.part s -> Forall (fun c => isSpace c = false) s.
Proof. intros [_ H]. eapply Forall_impl; [|exact H]. now intros c [Hc _]. Qed.

Lemma part_length (s : jsstring) : Email.part s -> (1 <= List.length s)%nat.
Proof. intros [Hne _]. destruct s; [congruence | simpl; lia]. Qed.

(** X3.  An address that [validateEmail] accepts has exactly one '@', no
    white space and at least five code units, and neither begins nor ends
    with '@'. *)
Theorem accepted_email_form (e : jsstring) :
  Email.validateEmail e = true ->
  count_occ N.eq_dec e AT_SIGN = 1%nat
  /\ Forall (fun c => isSpace c = false) e
  /\ (5 <= List.length e)%nat
  /\ hd_error e <> Some AT_SIGN
  /\ hd_error (rev e) <> Some AT_SIGN.
Proof.
  intros H. apply validateEmail_shape in H as (l & d & t & Hl & Hd & Ht & ->).
  split; [|split; [|split; [|split]]].
  - rewrite count_occ_app. rewrite (count_occ_part Hl). cbn [app].
    rewrite count_occ_cons_eq by reflexivity.
    rewrite count_occ_app, (count_occ_part Hd).
    rewrite count_occ_cons_neq by discriminate.
    now rewrite (count_occ_part Ht).
  - repeat (apply Forall_app; split); try (now apply part_no_space);
      repeat constructor.
  - rewrite !length_app. apply part_length in Hl, Hd, Ht. simpl. lia.
  - destruct Hl as [Hne Hall]. destruct l as [|c l]; [congruence|].
    inversion Hall as [|? ? [_ Hc] _]; subst. simpl. congruence.
  - destruct Ht as [Hne Hall].
    rewrite !rev_app_distr.
    destruct (rev t) as [|c t'] eqn:Hrev.
    + apply (f_equal (@rev _)) in Hrev. rewrite rev_involutive in Hrev. now subst.
    + assert (Hin : In c t) by (apply in_rev; rewrite Hrev; now left).
      rewrite Forall_forall in Hall. destruct (Hall _ Hin) as [_ Hc].
      simpl. congruence.
Qed.

Lemma accepted_email_form_witness :
  count_occ N.eq_dec (js "john@example.com") AT_SIGN = 1%nat
  /\ Forall (fun c => isSpace c = false) (js "john@example.com")
  /\ (5 <= List.length (js "john@example.com"))%nat
  /\ hd_error (js "john@example.com") <> Some AT_SIGN
  /\ hd_error (rev (js "john@example.com")) <> Some AT_SIGN.
Proof. apply (@accepted_email_form (js "john@example.com")). reflexivity. Defined.

(** ** The waits of the retry adapter *)

Section RetryWaits.

Import Retry.

Variables (S A Ev : Type).
Variable operation : S -> Res A * S * list Ev.
Variable options : Options.

Lemma waitsOf_app (l1 l2 : list (RetryEvent S Ev)) :
  waitsOf (l1 ++ l2) = waitsOf l1 ++ waitsOf l2.
Proof.
  induction l1 as [|e l1 IH]; simpl; [reflexivity|].
  destruct e; simpl; now rewrite IH.
Qed.

Lemma waitsOf_ofOperation (o : list Ev) :
  waitsOf (map (@OfOperation S Ev) o) = [].
Proof. induction o; simpl; auto. Qed.

Lemma retryLoop_waits (n : nat) :
  forall (i : nat) (e0 : Err) (s : S),
    (n + i = maxRetries options)%nat ->
    let evs := snd (retryLoop operation options n i e0 s) in
    List.length (waitsOf evs) = pred (List.length (attemptsOf evs))
    /\ Forall (fun d => (d <= maxDelay options)%Z) (waitsOf evs).
Proof.
  induction n as [|n IH]; intros i e0 s Hn; cbn zeta.
  - simpl. split; [reflexivity | constructor].
  - simpl. destruct (operation s) as [[r s1] o]. destruct r as [a|err].
    + simpl. rewrite waitsOf_ofOperation.
      rewrite attemptsOf_none by apply no_attempt_ofOperation.
      split; [reflexivity | constructor].
    + pose proof (IH (Datatypes.S i) err s1 ltac:(lia)) as IHn.
      pose proof (retryLoop_head operation options n (Datatypes.S i) err s1) as Hhead.
      pose proof (retryLoop_nil operation options n (Datatypes.S i) err s1) as Hnil.
      destruct (retryLoop operation options n (Datatypes.S i) err s1)
        as [[r' s2] rest] eqn:Hloop.
      cbn [snd] in *. cbn zeta in IHn. destruct IHn as [Hlen Hall].
      change (Attempt (Datatypes.S i) s
              :: map (@OfOperation S Ev) o
                 ++ Failed (Datatypes.S i) (maxRetries options) err
                    :: (if (Z.of_nat i <? Z.of_nat (maxRetries options) - 1)%Z
                        then [Wait (delayAfter options i)] else []) ++ rest)
        with ([Attempt (Datatypes.S i) s]
              ++ map (@OfOperation S Ev) o
              ++ [Failed (Datatypes.S i) (maxRetries options) err]
              ++ (if (Z.of_nat i <? Z.of_nat (maxRetries options) - 1)%Z
                  then [Wait (delayAfter options i)] else []) ++ rest).
      rewrite !waitsOf_app, !attemptsOf_app, waitsOf_ofOperation.
      rewrite (attemptsOf_none (map (@OfOperation S Ev) o))
        by apply no_attempt_ofOperation.
      destruct (Z.ltb_spec (Z.of_nat i) (Z.of_nat (maxRetries options) - 1)) as [Hlt|Hge].
      * assert (Hn0 : n <> 0%nat) by lia.
        destruct Hhead as [Hnone|[rest' ->]]; [now apply Hnil in Hnone|].
        cbn in Hlen |- *. split; [lia|].
        constructor; [apply Z.le_min_r | exact Hall].
      * assert (n = 0%nat) by lia. subst n.
        cbn in Hloop. injection Hloop as <- <- <-.
        cbn. split; [reflexivity | constructor].
Qed.

(** X5.  The retry adapter, for every operation, state and options: it
    waits between two calls and not after the last one, so that the waits are
    one fewer than the calls made; and no wait is longer than [maxDelay]. *)
Theorem withRetry_waits_between_calls (s : S) :
  let evs := snd (withRetry operation options s) in
  List.length (waitsOf evs) = pred (List.length (attemptsOf evs))
  /\ Forall (fun d => (d <= maxDelay options)%Z) (waitsOf evs).
Proof. unfold withRetry. apply retryLoop_waits. lia. Qed.

End RetryWaits.

(** ** Counting along a computation *)

Lemma retry_no_send (op : Operation) (o : list Effect) :
  Forall (retryEffect op) o -> count isSend o = 0%nat.
Proof.
  intros Ho. apply count_none. eapply Forall_impl; [|exact Ho].
  intros e [->|[->|[d ->]]]; reflexivity.
Qed.

Lemma retry_no_assign (op : Operation) (f : Field) (o : list Effect) :
  Forall (retryEffect op) o -> count (assignsTo f) o = 0%nat.
Proof.
  intros Ho. apply count_none. eapply Forall_impl; [|exact Ho].
  intros e [->|[->|[d ->]]]; reflexivity.
Qed.

Lemma post_result (E : Env) (A : Type) (m : M E A) (w : World E)
  (Q : Res A -> World E -> list Effect -> Prop) :
  post m w Q -> let '(r, w', o) := m w in Q r w' o.
Proof. unfold post. now destruct (m w) as [[r w'] o]. Qed.

(** A wrapped call begins with a call of the collaborator. *)
Lemma post_withRetry_called (E : Env) (A : Type) (op : Operation)
  (f : Ext E -> Res A * Ext E) (w : World E) Q :
  (forall r x o, Forall (retryEffect op) o ->
                 Q r (with_external x w) (Invoke op :: o)) ->
  post (withRetry (invoke op f)) w Q.
Proof.
  intros H. unfold post, withRetry, Retry.withRetry, invoke.
  cbn [Retry.maxRetries Retry.RETRY_OPTIONS Retry.retryLoop].
  assert (Hall : forall l, Forall (fun e => retryEffect op e) l
                           -> Forall (retryEffect op) l) by auto.
  destruct (f (external w)) as [[a|e1] x1]; cbn;
    [apply (H (Ok a) x1); constructor|].
  destruct (f x1) as [[a|e2] x2]; cbn;
    [apply (H (Ok a) x2)|
     destruct (f x2) as [[a|e3] x3]; cbn;
     [apply (H (Ok a) x3) | apply (H (Throw e3) x3)]];
    repeat (constructor;
            [first [now left | right; now left | right; right; eauto]|]);
    constructor.
Qed.

Ltac cstep :=
  lazymatch goal with
  | |- post (withRetry (invoke _ _)) _ _ =>
      apply post_withRetry_called;
      let r := fresh "r" in let x := fresh "x" in
      let o := fresh "o" in let Ho := fresh "Ho" in
      intros r x o Ho; destruct r; cbv beta iota; proj
  | |- _ => mstep
  end.

Ltac crun := autounfold with bridge; cbv beta iota; proj; repeat cstep.

Ltac counts :=
  repeat (rewrite count_cons || rewrite count_app);
  repeat match goal with
         | Ho : Forall (retryEffect ?op') ?o |- context [count (invokes ?op) ?o] =>
             rewrite (@retry_count op op' o Ho) by reflexivity
         | Ho : Forall (retryEffect ?op') ?o |- context [count isSend ?o] =>
             rewrite (@retry_no_send op' o Ho)
         | Ho : Forall (retryEffect ?op') ?o |- context [count (assignsTo ?f) ?o] =>
             rewrite (@retry_no_assign op' f o Ho)
         end;
  cbn [invokes assignsTo isSend Operation_beq Field_beq count filter List.length Nat.add];
  cbn.

(** ** Every event, every path, once more *)

Lemma truthy_toString (v : option jsstring) : truthy v = true -> toString v <> [].
Proof. destruct v as [[|c s]|]; simpl; congruence. Qed.

Lemma quiet_orderly (E : Env) (ev : Event) (w : World E) (e : Effect) :
  quiet e ->
  alongEdge e /\ keeps e /\ assignsAllowed ev e /\ sendsAllowed ev w e
  /\ (prepared (openAiWs w) -> entersPrepared e).
Proof. destruct e; simpl; intuition. Qed.

Ltac tag_leaf :=
  unfold typeIs, eventIs;
  repeat match goal with
         | H : type _ = Some _ |- _ => rewrite H
         end;
  reflexivity.

Ltac line_leaf :=
  eexists; split;
  [ first [reflexivity | rewrite <- !app_assoc; reflexivity]
  | eexists; first [left; reflexivity | right; reflexivity] ].

Ltac orderly_one :=
  first [ exact I
        | reflexivity
        | assumption
        | apply valid_truthy; assumption
        | apply truthy_toString; assumption
        | match goal with
          | H : bookingState _ = _ |- _ => rewrite H; reflexivity
          | H : callSid _ = _ |- _ => rewrite H; reflexivity
          end
        | line_leaf
        | tag_leaf ].

(** The fields that the state entered stands for: assigned by the handler
    itself, or held since before the event. *)
Ltac prepared_leaf :=
  let Htime := fresh "Htime" in
  let Hemail := fresh "Hemail" in
  intros [Htime Hemail]; unfold prepared; proj; cbn [needsTime needsEmail];
  split;
  (let Hn := fresh "Hn" in
   intros Hn;
   first [ discriminate Hn
         | assumption
         | apply valid_truthy; assumption
        | match goal with
          | H : bookingState _ = _ |- _ =>
              first [apply Htime | apply Hemail]; rewrite H; reflexivity
           end ]).

Ltac orderly_leaf :=
  cbn [alongEdge keeps assignsAllowed sendsAllowed entersPrepared mayAssign
       isModelEvent isTelephonyEvent sendsConfiguration isGreeting Z.eqb Pos.eqb];
  proj;
  repeat match goal with
         | |- _ /\ _ => split
         end;
  first [ orderly_one
        | intros _; exact I
        | prepared_leaf ].

(** A property of every effect, which the quiet effects have by the tactic
    [ql]. *)
Ltac trace_by leaf ql :=
  idtac;
  lazymatch goal with
  | |- Forall _ [] => apply Forall_nil
  | |- Forall _ (_ :: _) => apply Forall_cons; [leaf | trace_by leaf ql]
  | |- Forall _ (_ ++ _) =>
      apply Forall_app; split;
      [eapply Forall_impl; [ql | eassumption] | trace_by leaf ql]
  | |- Forall _ _ => eapply Forall_impl; [ql | eassumption]
  end.

Ltac quiet_is_orderly :=
  let a := fresh "a" in
  let Ha := fresh "Ha" in
  intros a Ha; apply quiet_orderly; exact Ha.

Ltac orderly :=
  split; [reflexivity|];
  split;
  [ let Hs := fresh "Hs" in
    intros Hs; cbn [isTelephonyEvent] in Hs;
    first [split; reflexivity | congruence]
  | trace_by orderly_leaf quiet_is_orderly ].

Section Orderly.

Variable E : Env.

Lemma handle_orderly (ev : Event) (w : World E) :
  post (handle ev) w
    (fun r w' o =>
       r = Ok tt
       /\ (isTelephonyEvent ev "start" = false ->
           streamSid w' = streamSid w /\ route_callSid w' = route_callSid w)
       /\ Forall (fun e => alongEdge e /\ keeps e /\ assignsAllowed ev e
                           /\ sendsAllowed ev w e
                           /\ (prepared (openAiWs w) -> entersPrepared e)) o).
Proof.
  destruct ev as [| |data| | |message|].
  - qrun; norm; orderly.
  - qrun; norm; orderly.
  - destruct data as [| |r].
    + qrun; norm; orderly.
    + qrun; norm; orderly.
    + unfold handle, handleOpenAiMessage. mstep. mstep. mstep. mstep. mstep.
      by_tag r; qrun; norm; orderly.
  - qrun; norm; orderly.
  - qrun; norm; orderly.
  - qrun; norm; orderly.
  - qrun; norm; orderly.
Qed.

End Orderly.

(** ** What holds of every event and of every call *)

Lemma run_Forall (E : Env) (P : Effect -> Prop) :
  (forall ev (w : World E), Forall P (snd (handle ev w))) ->
  forall evs (w : World E), Forall P (snd (run evs w)).
Proof.
  intros H evs. induction evs as [|ev evs IH]; intros w; [constructor|].
  rewrite run_cons. cbn [snd]. apply Forall_app. split; [apply H | apply IH].
Qed.

Lemma handle_each (E : Env) (ev : Event) (w : World E) :
  Forall (fun e => alongEdge e /\ keeps e /\ assignsAllowed ev e
                   /\ sendsAllowed ev w e
                   /\ (prepared (openAiWs w) -> entersPrepared e))
    (snd (handle ev w)).
Proof. exact (proj2 (proj2 (handle_orderly ev w))). Qed.

(** X6.  The handler of any event, on any state of the call, returns
    normally: no exception of a collaborator, of a frame that does not parse
    or of a missing property leaves it.  The stream id and the call id of the
    route stay as they are but for a telephony start event. *)
Theorem handlers_return_normally (E : Env) (ev : Event) (w : World E) :
  let '(r, w', _) := handle ev w in
  r = Ok tt
  /\ (isTelephonyEvent ev "start" = false ->
      streamSid w' = streamSid w /\ route_callSid w' = route_callSid w).
Proof.
  pose proof (handle_orderly ev w) as H. unfold post in H.
  destruct (handle ev w) as [[r w'] o]. cbn [fst snd] in H.
  destruct H as (Hr & Hroute & _). now split.
Qed.

(** X7.  The events of a call arriving and the paused handlers going on
    in any order, from any state of the call: the booking state becomes
    [awaiting_time] from [idle] only.  When no handler is started while
    another is paused, every assignment to the booking state makes one of the
    moves of [moves]: to [idle] from anywhere, to [awaiting_time] from
    [idle], to [awaiting_email] from [awaiting_time], [confirm_email] or
    [confirm_existing_email], to [confirm_email] from [awaiting_email], to
    [confirm_existing_email] from [awaiting_time] or [confirm_email]. *)
Theorem booking_state_moves
  (E : Env) (actions : list Async.Action) (w : World E) :
  Forall startsFromIdle (snd (Async.exec actions w []))
  /\ (Async.overlapFree actions w [] = true ->
      Forall alongEdge (snd (Async.exec actions w []))).
Proof.
  split.
  - eapply Forall_impl;
      [|apply (exec_abides (overlapTerms_fair E) (@handle_abides_overlap E)
                 (fun a b H => H) actions (w := w) (pool := []));
        constructor].
    intros e [_ H]. exact H.
  - intros Hfree.
    eapply Forall_impl;
      [|apply (exec_abides_alone (aloneTerms_fair E) (@handle_abides_alone E)
                 actions (w := w) (pool := []));
        [cbn; lia | constructor | exact Hfree]].
    intros e [_ H]. exact H.
Qed.

Lemma booking_state_moves_witness :
  Async.overlapFree callInTurn
    (Demo.world (set_bookingState awaiting_time initialSession) onFile) [] = true
  /\ Forall alongEdge
       (snd (Async.exec callInTurn
               (Demo.world (set_bookingState awaiting_time initialSession) onFile) [])).
Proof.
  split; [vm_compute; reflexivity|].
  apply (proj2 (booking_state_moves callInTurn
                  (Demo.world (set_bookingState awaiting_time initialSession) onFile))).
  vm_compute. reflexivity.
Defined.

(** X8.  Which fields of the session the handler of an event may assign:
    the ready state only on the opening and closing of the two connections,
    the call id only on a telephony start event, the readiness flag, the phone
    number and the conversation id only on [session.updated], the last user
    message only on a completed transcription of the caller, the dialogue and
    the booking fields only on tool calls, text turns and transcriptions.  In
    particular audio fragments, speech starts and telephony media assign
    nothing. *)
Theorem assignments_by_event (E : Env) (ev : Event) (w : World E) :
  Forall (assignsAllowed ev) (snd (handle ev w)).
Proof. eapply Forall_impl; [|apply handle_each]. cbv beta. tauto. Qed.

(** X9.  Which frames the handler of an event may send.  To the telephony
    side: a clear frame only on the start of the caller's speech, a media
    frame only on an audio fragment and never with an empty payload, both with
    the stream id the route holds.  To the model: audio only on a telephony
    media event and only while the model connection is open, a cancel only on
    the start of the caller's speech, the configuration only on
    [session.created] and on the settle timer, conversation items only on a
    tool call, the greeting only on [session.updated] and only when the
    session has a call id, any other response request only on a tool call, a
    text turn or a transcription of the caller.  The model connection is
    closed only by the closing of the telephony connection, while it is
    open. *)
Theorem frames_by_event (E : Env) (ev : Event) (w : World E) :
  Forall (sendsAllowed ev w) (snd (handle ev w)).
Proof. eapply Forall_impl; [|apply handle_each]. cbv beta. tauto. Qed.

Lemma changesOnly_other (f : Field) (b a : Session) :
  changesOnly f b a ->
  (f <> F_fullDialogue -> fullDialogue a = fullDialogue b)
  /\ (f <> F_email -> email a = email b)
  /\ (f <> F_preferred_time -> preferred_time a = preferred_time b)
  /\ (f <> F_sessionReady -> sessionReady a = sessionReady b)
  /\ (f <> F_bookingState -> bookingState a = bookingState b).
Proof.
  destruct f; cbn; intros H; rewrite H;
    repeat split; intros Hne; solve [reflexivity | congruence].
Qed.

Lemma keeps_along (o : list Effect) :
  forall s s',
    accountsFor s o s' -> Forall keeps o ->
    (exists lines,
        Forall dialogueLine lines
        /\ fullDialogue s' = fullDialogue s ++ List.concat lines)
    /\ (truthy (email s) = true -> truthy (email s') = true)
    /\ (truthy (preferred_time s) = true -> truthy (preferred_time s') = true)
    /\ (sessionReady s = true -> sessionReady s' = true).
Proof.
  induction o as [|e o IH]; intros s s' Hacc Hall.
  - cbn in Hacc. subst s'. split; [|tauto].
    exists []. split; [constructor | now rewrite app_nil_r].
  - pose proof (Forall_inv Hall) as Hk. apply Forall_inv_tail in Hall.
    destruct e as [| | | | | | |f b a]; try (now apply IH).
    cbn [accountsFor] in Hacc. destruct Hacc as (-> & Hc & Hacc).
    destruct (IH _ _ Hacc Hall) as ((lines & Hlines & Hd) & He & Ht & Hr).
    destruct (changesOnly_other _ _ _ Hc) as (Od & Oe & Ot & Or & _).
    split; [|split; [|split]].
    + destruct f;
        try (exists lines; split; [exact Hlines|];
             rewrite Hd, Od by discriminate; reflexivity).
      cbn [keeps] in Hk. destruct Hk as (line & Hline & Hl).
      exists (line :: lines). split; [now constructor|].
      rewrite Hd, Hline. cbn [List.concat]. now rewrite app_assoc.
    + intros H. apply He.
      destruct f; try (rewrite Oe by discriminate; exact H). exact Hk.
    + intros H. apply Ht.
      destruct f; try (rewrite Ot by discriminate; exact H). exact Hk.
    + intros H. apply Hr.
      destruct f; try (rewrite Or by discriminate; exact H). exact Hk.
Qed.

(** X10.  Over every sequence of events, from any state of the call, the
    dialogue only grows, by whole lines that begin with "AI: " or "User: " and
    end with a line feed; and an e-mail, a preferred time or a readiness flag
    that the session holds is never cleared. *)
Theorem session_only_grows (E : Env) (evs : list Event) (w : World E) :
  let s := openAiWs w in
  let s' := openAiWs (fst (run evs w)) in
  (exists lines,
      Forall dialogueLine lines
      /\ fullDialogue s' = fullDialogue s ++ List.concat lines)
  /\ (truthy (email s) = true -> truthy (email s') = true)
  /\ (truthy (preferred_time s) = true -> truthy (preferred_time s') = true)
  /\ (sessionReady s = true -> sessionReady s' = true).
Proof.
  cbv zeta. apply (@keeps_along (snd (run evs w))).
  - apply session_changes_are_assignments.
  - apply run_Forall. clear. intros ev w.
    eapply Forall_impl; [|apply handle_each]. cbv beta. tauto.
Qed.

Lemma prepared_along (o : list Effect) :
  forall s s',
    accountsFor s o s' -> Forall keeps o -> Forall entersPrepared o ->
    prepared s -> prepared s'.
Proof.
  induction o as [|e o IH]; intros s s' Hacc Hall Hent Hs.
  - cbn in Hacc. now subst.
  - pose proof (Forall_inv Hall) as Hk. apply Forall_inv_tail in Hall.
    pose proof (Forall_inv Hent) as Hp. apply Forall_inv_tail in Hent.
    destruct e as [| | | | | | |f b a]; try (now apply (IH s)).
    cbn [accountsFor] in Hacc. destruct Hacc as (-> & Hc & Hacc).
    apply (IH a); try assumption.
    destruct (changesOnly_other _ _ _ Hc) as (_ & Oe & Ot & _ & Ob).
    destruct Hs as [Hst Hse].
    destruct f; cbn [keeps entersPrepared] in Hk, Hp;
      try (unfold prepared;
           rewrite ?Oe, ?Ot, ?Ob by discriminate;
           split; assumption).
    + (* the booking state *) cbn [changesOnly] in Hc. now rewrite Hc.
    + (* the preferred time *)
      unfold prepared. rewrite Oe, Ob by discriminate. split; [now intros _ | exact Hse].
    + (* the e-mail *)
      unfold prepared. rewrite Ot, Ob by discriminate. split; [exact Hst | now intros _].
Qed.

Lemma handle_prepared (E : Env) (ev : Event) (w : World E) :
  prepared (openAiWs w) -> prepared (openAiWs (snd (fst (handle ev w)))).
Proof.
  intros Hs. apply (@prepared_along (snd (handle ev w)) (openAiWs w)).
  - exact (handle_accounted ev w).
  - eapply Forall_impl; [|apply handle_each]. cbv beta. tauto.
  - eapply Forall_impl; [|apply handle_each]. cbv beta. tauto.
  - exact Hs.
Qed.

(** X11.  Over every sequence of events, a session that holds what its
    booking state stands for keeps doing so: in [awaiting_email],
    [confirm_email] and [confirm_existing_email] it holds a preferred time,
    and in the two confirming states an e-mail as well. *)
Theorem commit_fields_present (E : Env) (evs : list Event) (w : World E) :
  prepared (openAiWs w) -> prepared (openAiWs (fst (run evs w))).
Proof.
  revert w. induction evs as [|ev evs IH]; intros w Hs; [exact Hs|].
  rewrite run_cons. cbn [fst]. apply IH. now apply handle_prepared.
Qed.

Lemma commit_fields_present_witness :
  prepared
    (openAiWs
       (fst (run [ openAi_message
                     (json_value
                        (Demo.message "response.content.done"
                           (Some (js "Let us book a training session."))));
                   openAi_message
                     (json_value
                        (Demo.message "conversation.item.input_audio_transcription.completed"
                           (Some (js "next Tuesday at 3pm"))));
                   openAi_message
                     (json_value
                        (Demo.message "conversation.item.input_audio_transcription.completed"
                           (Some (js "j o h n at example dot com")))) ]
               (Demo.world initialSession Demo.outside)))).
Proof.
  apply (@commit_fields_present Demo.env).
  split; discriminate.
Defined.

(** ** What is entered in the dialogue, and what starts the booking dialogue *)

Lemma retry_filter_send (op : Operation) (o : list Effect) :
  Forall (retryEffect op) o -> filter isSend o = [].
Proof.
  intros Ho. apply length_zero_iff_nil. exact (retry_no_send Ho).
Qed.

Ltac sends :=
  repeat first
    [ rewrite filter_app
    | progress cbn [filter isSend app]
    | match goal with
      | Ho : Forall (retryEffect _) ?o |- context [filter isSend ?o] =>
          rewrite (retry_filter_send Ho)
      end ].

Section Turns.

Variable E : Env.

(** X12.  A completed transcription of the caller, in any booking state and
    whatever fails later in its handler: when the transcript is not blank, the
    dialogue grows by the line "User: " with the sanitized transcript, which
    also becomes the last user message; when it is missing or blank, the
    dialogue and the last user message stay as they are. *)
Theorem user_turn_recorded (w : World E) (response : Message) :
  typeIs response "conversation.item.input_audio_transcription.completed" = true ->
  let '(_, w', _) := handle (openAi_message (json_value response)) w in
  if spoken response
  then
    fullDialogue (openAiWs w')
    = fullDialogue (openAiWs w)
      ++ js "User: " ++ sanitizeInput (toString (transcript response)) ++ [10%N]
    /\ lastUserMessage (openAiWs w')
       = Some (sanitizeInput (toString (transcript response)))
  else
    fullDialogue (openAiWs w') = fullDialogue (openAiWs w)
    /\ lastUserMessage (openAiWs w') = lastUserMessage (openAiWs w).
Proof.
  intros Hty. apply typeIs_true in Hty. unfold spoken.
  apply post_result. unfold handle, handleOpenAiMessage.
  mstep. mstep. mstep. mstep. mstep. unfold dispatch, when. tagged Hty.
  qrun; norm; split; reflexivity.
Qed.

(** X13.  A text turn of the assistant, when no tool output is being
    summarized, adds the line "AI: " with its content to the dialogue, in any
    booking state and whatever fails later in its handler; a transcript of
    the assistant's audio adds its line as well, sends nothing and leaves the
    booking state alone. *)
Theorem assistant_turn_recorded (w : World E) (response : Message) :
  (typeIs response "response.content.done" = true ->
   sendingFunctionCallOutput (openAiWs w) = false ->
   let '(_, w', _) := handle (openAi_message (json_value response)) w in
   fullDialogue (openAiWs w')
   = fullDialogue (openAiWs w) ++ js "AI: " ++ toString (content response) ++ [10%N])
  /\ (typeIs response "response.audio_transcript.done" = true ->
      let '(_, w', o) := handle (openAi_message (json_value response)) w in
      fullDialogue (openAiWs w')
      = fullDialogue (openAiWs w)
        ++ js "AI: " ++ toString (transcript response) ++ [10%N]
      /\ bookingState (openAiWs w') = bookingState (openAiWs w)
      /\ count isSend o = 0%nat).
Proof.
  split.
  - intros Hty Hflag. apply typeIs_true in Hty.
    assert (Hn : negb (sendingFunctionCallOutput (openAiWs w)) = true)
      by (now rewrite Hflag).
    apply post_result. unfold handle, handleOpenAiMessage.
    mstep. mstep. mstep. mstep. mstep. unfold dispatch, when. tagged Hty.
    qrun; norm; reflexivity.
  - intros Hty. apply typeIs_true in Hty.
    apply post_result. unfold handle, handleOpenAiMessage.
    mstep. mstep. mstep. mstep. mstep. unfold dispatch, when. tagged Hty.
    mrun; norm; (split; [reflexivity|]); (split; [reflexivity|]); counts; lia.
Qed.


End Turns.

Lemma user_turn_recorded_witness :
  let '(_, w', _) :=
    handle
      (openAi_message
         (json_value
            (Demo.message "conversation.item.input_audio_transcription.completed"
               (Some (js "  I would like to train tomorrow ")))))
      (Demo.world initialSession Demo.outside) in
  fullDialogue (openAiWs w') = js "User: I would like to train tomorrow" ++ [10%N]
  /\ lastUserMessage (openAiWs w') = Some (js "I would like to train tomorrow").
Proof.
  exact (@user_turn_recorded Demo.env
           (Demo.world initialSession Demo.outside)
           (Demo.message "conversation.item.input_audio_transcription.completed"
              (Some (js "  I would like to train tomorrow ")))
           eq_refl).
Defined.


Lemma assistant_turn_recorded_witness :
  let '(_, w', o) :=
    handle
      (openAi_message
         (json_value
            (Demo.message "response.audio_transcript.done"
               (Some (js "Pikachu evolves into Raichu.")))))
      (Demo.world initialSession Demo.outside) in
  fullDialogue (openAiWs w') = js "AI: Pikachu evolves into Raichu." ++ [10%N]
  /\ bookingState (openAiWs w') = idle
  /\ count isSend o = 0%nat.
Proof.
  exact (proj2 (@assistant_turn_recorded Demo.env
                  (Demo.world initialSession Demo.outside)
                  (Demo.message "response.audio_transcript.done"
                     (Some (js "Pikachu evolves into Raichu."))))
           eq_refl).
Defined.

(** ** Commit attempts, greetings and the end of a call *)

Section Commit.

Variable E : Env.

(** X16.  A reply that is not an affirmation starts no commit.  After a
    spelled e-mail, any confirmation other than exactly "yes" calls neither
    the calendar nor the booking store, sends one prompt for an e-mail and
    leaves the dialogue in [awaiting_email] or [confirm_existing_email].
    After the offer of the stored e-mail, a confirmation without "yes" in it
    calls neither, asks for another address, enters [awaiting_email] and
    leaves the session's e-mail as it is. *)
Theorem no_commit_without_yes (w : World E) (confirmation : jsstring)
  (e : option jsstring) :
  (jseqb confirmation (js "yes") = false ->
   let '(r, w', o) := handleEmailConfirmation confirmation e w in
   r = Ok tt
   /\ count (invokes op_calendarEventsInsert) o = 0%nat
   /\ count (invokes op_dbCreateBooking) o = 0%nat
   /\ count isSend o = 1%nat
   /\ (bookingState (openAiWs w') = awaiting_email
       \/ bookingState (openAiWs w') = confirm_existing_email))
  /\ (includes (js "yes") confirmation = false ->
      let '(_, w', o) := handleExistingEmailConfirmation confirmation w in
      count (invokes op_calendarEventsInsert) o = 0%nat
      /\ count (invokes op_dbCreateBooking) o = 0%nat
      /\ filter isSend o = [ToOpenAi (response_create anotherEmailPrompt 7 150)]
      /\ bookingState (openAiWs w') = awaiting_email
      /\ email (openAiWs w') = email (openAiWs w)).
Proof.
  split.
  - intros Hno. apply post_result.
    unfold handleEmailConfirmation. rewrite Hno.
    mrun; norm;
      (split; [reflexivity|]); (split; [counts; lia|]); (split; [counts; lia|]);
      (split; [counts; lia|]); first [left; reflexivity | right; reflexivity].
  - intros Hno. apply post_let.
    unfold handleExistingEmailConfirmation. rewrite Hno.
    mrun; norm;
      (split; [counts; lia|]); (split; [counts; lia|]);
      (split; [|split; reflexivity]).
    all: cbn [filter isSend].
    all: match goal with
         | Ho : Forall (retryEffect _) ?o |- context [filter isSend ?o] =>
             replace (filter isSend o) with (@nil Effect); [reflexivity|]
         end.
    all: symmetry; apply length_zero_iff_nil; eapply retry_no_send; eassumption.
Qed.

(** X17.  [bookTrainingSession] returns [true] or [false] and never
    throws; it leaves the session alone and calls the calendar at most once,
    and the booking store only when it has called the calendar; and it
    returns [true] only when a preferred time was given, the calendar was
    called, and the booking and the caller's e-mail were handed to the
    store. *)
Theorem booking_reported_only_when_stored (w : World E) (t e : option jsstring) :
  let '(r, w', o) := bookTrainingSession t e w in
  (r = Ok true \/ r = Ok false)
  /\ openAiWs w' = openAiWs w
  /\ (count (invokes op_calendarEventsInsert) o <= 1)%nat
  /\ ((1 <= count (invokes op_dbCreateBooking) o)%nat ->
      count (invokes op_calendarEventsInsert) o = 1%nat)
  /\ (r = Ok true ->
      truthy t = true
      /\ count (invokes op_calendarEventsInsert) o = 1%nat
      /\ (1 <= count (invokes op_dbCreateBooking) o)%nat
      /\ (1 <= count (invokes op_dbUpdateUserEmail) o)%nat).
Proof.
  apply post_result.
  crun; norm;
    (split; [first [left; reflexivity | right; reflexivity]|]);
    (split; [reflexivity|]);
    (split; [counts; lia|]);
    (split; [counts; lia|]);
    (let Hret := fresh "Hret" in intros Hret; try discriminate Hret);
    (split; [assumption|]); (split; [counts; lia|]); split; counts; lia.
Qed.

(** X18.  [handleIncomingCall] never throws and sends at most one frame,
    the greeting; a greeting is sent only when the phone number and the
    conversation id were assigned and the user, the conversation and the last
    conversation were asked for; when none is sent, a console error tells
    why; and without a call id nothing is done at all. *)
Theorem incoming_call_greets_once (w : World E) (sid : option jsstring) :
  let '(r, w', o) := handleIncomingCall sid w in
  r = Ok tt
  /\ (count isSend o <= 1)%nat
  /\ (count isSend o = 1%nat ->
      count (assignsTo F_phoneNumber) o = 1%nat
      /\ count (assignsTo F_conversationId) o = 1%nat
      /\ (1 <= count (invokes op_dbCreateOrGetUser) o)%nat
      /\ (1 <= count (invokes op_dbCreateConversation) o)%nat
      /\ (1 <= count (invokes op_dbGetLastConversation) o)%nat)
  /\ (count isSend o = 0%nat ->
      In (ConsoleError "Error handling incoming call:") o
      \/ In (ConsoleError "Call SID is undefined") o)
  /\ (truthy sid = false ->
      w' = w /\ o = [ConsoleError "Call SID is undefined"]).
Proof.
  apply post_result.
  destruct sid as [[|c sid']|]; crun; norm;
    (split; [reflexivity|]);
    (split; [counts; lia|]);
    (split;
     [ let Hc := fresh "Hc" in
       intros Hc;
       first [ exfalso; revert Hc; counts; lia
             | repeat split; counts; lia ]
     | split;
       [ let Hc := fresh "Hc" in
         intros Hc;
         first [ left; in_trace
               | right; in_trace
               | exfalso; revert Hc; counts; lia ]
       | let Ht := fresh "Ht" in
         intros Ht; first [discriminate Ht | split; reflexivity] ] ]).
Qed.

End Commit.

Lemma no_commit_without_yes_witness :
  let '(r, w', o) :=
    handleEmailConfirmation (js "yes please") (Some (js "john@example.com"))
      (Demo.world
         (set_email (Some (js "john@example.com"))
            (set_preferred_time (Some (js "2026-11-10T15:00:00.000Z"))
               (set_bookingState confirm_email initialSession)))
         Demo.outside) in
  r = Ok tt
  /\ count (invokes op_calendarEventsInsert) o = 0%nat
  /\ count (invokes op_dbCreateBooking) o = 0%nat
  /\ count isSend o = 1%nat
  /\ (bookingState (openAiWs w') = awaiting_email
      \/ bookingState (openAiWs w') = confirm_existing_email).
Proof.
  exact (proj1 (@no_commit_without_yes Demo.env
                  (Demo.world
                     (set_email (Some (js "john@example.com"))
                        (set_preferred_time (Some (js "2026-11-10T15:00:00.000Z"))
                           (set_bookingState confirm_email initialSession)))
                     Demo.outside)
                  (js "yes please") (Some (js "john@example.com")))
           eq_refl).
Defined.

(** ** The answer of the knowledge base *)

(** One step of a handler, written out. *)
Ltac written_out :=
  cbv beta iota zeta delta
    [Async.bind Async.thenT Async.tryCatch Async.catchT Async.await Async.awaitT
     Async.now Async.pause Async.ret Async.throw Async.when Async.getSession
     Async.assign Async.console_log Async.console_error Async.openAiWs_send
     Async.invoke Async.appendDialogue Async.parseArguments
     Async.onFunctionCall Async.onAccessKnowledgeBase Async.onContentDone
     ret throw bind tryCatch emit getSession getStreamSid assign console_log
     console_error openAiWs_send invoke appendDialogue parseArguments
     openAiWs streamSid route_callSid external with_session with_external
     typeIs nameIs truthy toString negb andb orb app].

Ltac by_the_tags Hty :=
  repeat (progress (written_out; rewrite ?Hty; literals; cbv beta iota)).

Section Knowledge.

Variable E : Env.

(** The tool call of the knowledge base, when the lookup has an answer: what
    the handler does up to the lookup, and what it does when it is resumed,
    in whatever world. *)
Lemma knowledge_call (w : World E) (call : Message) (args : FunctionArgs)
  (answer : jsstring) (x : Ext E) :
  typeIs call "response.function_call_arguments.done" = true ->
  nameIs call "access_knowledge_base" = true ->
  arguments call = json_value args ->
  askSupabaseAssistant E (question args) (external w) = (Some answer, x) ->
  answer <> [] ->
  let '(t, w1, o1) := Async.handle (openAi_message (json_value call)) w in
  o1 = [ ConsoleLog "Received event:";
         ConsoleLog "Function called successfully:";
         ConsoleLog "AI is accessing knowledge base for question:";
         ToOpenAi (item_create_assistant checkingMessage);
         Assign F_fullDialogue (openAiWs w)
           (set_fullDialogue
              (fullDialogue (openAiWs w) ++ js "AI: " ++ checkingMessage ++ [10%N])
              (openAiWs w));
         Invoke op_askSupabaseAssistant ]
  /\ w1 = with_external x
            (with_session
               (set_fullDialogue
                  (fullDialogue (openAiWs w) ++ js "AI: " ++ checkingMessage ++ [10%N])
                  (openAiWs w)) w)
  /\ match t with
     | Async.Done _ => False
     | Async.Paused rest =>
         forall w2 : World E,
           rest w2
           = (Async.Done (Ok tt),
              with_session (set_sendingFunctionCallOutput true (openAiWs w2)) w2,
              [ ConsoleLog "Sending knowledge base answer to OpenAI:";
                ToOpenAi (item_create_function_call_output answer);
                ToOpenAi (response_create (summaryInstructions answer) 7 150);
                ConsoleLog "Knowledge base answer provided to OpenAI";
                Assign F_sendingFunctionCallOutput (openAiWs w2)
                  (set_sendingFunctionCallOutput true (openAiWs w2)) ])
     end.
Proof.
  intros Hty Hname Hargs Hask Hne.
  apply typeIs_true in Hty. apply nameIs_true in Hname.
  destruct answer as [|c answer]; [congruence|].
  destruct w as [s sid cid x0]. cbn [external] in Hask.
  unfold Async.handle, Async.handleOpenAiMessage, Async.dispatch.
  by_the_tags Hty.
  unfold Async.onFunctionCall. by_the_tags Hname.
  unfold Async.onAccessKnowledgeBase, Async.parseArguments, parseArguments.
  by_the_tags Hargs. rewrite Hask. by_the_tags Hargs.
  split; [reflexivity|]. split; [reflexivity|].
  intros [s2 sid2 cid2 x2]. by_the_tags Hargs. reflexivity.
Qed.

(** A text turn that finds the flag set. *)
Lemma flagged_content_set_aside (w : World E) (done : Message) :
  typeIs done "response.content.done" = true ->
  sendingFunctionCallOutput (openAiWs w) = true ->
  Async.handle (openAi_message (json_value done)) w
  = (Async.Done (Ok tt),
     with_session (set_sendingFunctionCallOutput false (openAiWs w)) w,
     [ ConsoleLog "Received event:";
       ConsoleLog "Skipping appending AI function call output to fullDialogue";
       Assign F_sendingFunctionCallOutput (openAiWs w)
         (set_sendingFunctionCallOutput false (openAiWs w)) ]).
Proof.
  intros Hty Hflag. apply typeIs_true in Hty.
  destruct w as [s sid cid x0]. cbn [openAiWs] in Hflag.
  unfold Async.handle, Async.handleOpenAiMessage, Async.dispatch.
  by_the_tags Hty.
  unfold Async.onContentDone. by_the_tags Hflag. reflexivity.
Qed.

(** X15.  A tool call of the knowledge base whose lookup has an answer.
    Up to the lookup the handler writes its console entries, sends the
    checking message, enters it in the dialogue and calls the lookup; there
    it is paused.  Resumed, in whatever state other handlers have left the
    session, it sends the answer and the request to summarize it, sets the
    flag, and is finished, without another await.  A text turn of the
    assistant that finds the flag set is handled without an await: it writes
    two console entries and clears the flag; it is not entered in the
    dialogue, not stored as the last answer, and starts no booking dialogue
    whatever it says. *)
Theorem knowledge_answer_kept_out_of_dialogue
  (w : World E) (call done : Message) (args : FunctionArgs)
  (answer : jsstring) (x : Ext E) :
  typeIs call "response.function_call_arguments.done" = true ->
  nameIs call "access_knowledge_base" = true ->
  arguments call = json_value args ->
  askSupabaseAssistant E (question args) (external w) = (Some answer, x) ->
  answer <> [] ->
  typeIs done "response.content.done" = true ->
  (let '(t, w1, o1) := Async.handle (openAi_message (json_value call)) w in
   o1 = [ ConsoleLog "Received event:";
          ConsoleLog "Function called successfully:";
          ConsoleLog "AI is accessing knowledge base for question:";
          ToOpenAi (item_create_assistant checkingMessage);
          Assign F_fullDialogue (openAiWs w)
            (set_fullDialogue
               (fullDialogue (openAiWs w) ++ js "AI: " ++ checkingMessage ++ [10%N])
               (openAiWs w));
          Invoke op_askSupabaseAssistant ]
   /\ w1 = with_external x
             (with_session
                (set_fullDialogue
                   (fullDialogue (openAiWs w) ++ js "AI: " ++ checkingMessage ++ [10%N])
                   (openAiWs w)) w)
   /\ match t with
      | Async.Done _ => False
      | Async.Paused rest =>
          forall w2 : World E,
            rest w2
            = (Async.Done (Ok tt),
               with_session (set_sendingFunctionCallOutput true (openAiWs w2)) w2,
               [ ConsoleLog "Sending knowledge base answer to OpenAI:";
                 ToOpenAi (item_create_function_call_output answer);
                 ToOpenAi (response_create (summaryInstructions answer) 7 150);
                 ConsoleLog "Knowledge base answer provided to OpenAI";
                 Assign F_sendingFunctionCallOutput (openAiWs w2)
                   (set_sendingFunctionCallOutput true (openAiWs w2)) ])
      end)
  /\ (forall w3 : World E,
        sendingFunctionCallOutput (openAiWs w3) = true ->
        Async.handle (openAi_message (json_value done)) w3
        = (Async.Done (Ok tt),
           with_session (set_sendingFunctionCallOutput false (openAiWs w3)) w3,
           [ ConsoleLog "Received event:";
             ConsoleLog "Skipping appending AI function call output to fullDialogue";
             Assign F_sendingFunctionCallOutput (openAiWs w3)
               (set_sendingFunctionCallOutput false (openAiWs w3)) ])).
Proof.
  intros Hty Hname Hargs Hask Hne Hdone. split.
  - exact (knowledge_call w call Hty Hname Hargs Hask Hne).
  - intros w3 Hflag. now apply flagged_content_set_aside.
Qed.

End Knowledge.

(** The tool call and the text turn of the scenario, the text turn arriving
    when the handler of the tool call has finished: three frames are sent,
    and the dialogue holds the checking message alone. *)
Example knowledge_answer_in_turn :
  let '(w', pool, o) :=
    Async.exec
      [ Async.arrive
          (openAi_message
             (json_value
                (Demo.toolCall "access_knowledge_base"
                   (json_value {| question := Some (js "What type is Pikachu?");
                                  arg_preferred_time := None; arg_email := None |}))));
        Async.resume 0;
        Async.arrive
          (openAi_message
             (json_value
                (Demo.message "response.content.done"
                   (Some (js "Pikachu is an Electric type. Want to book a training session?"))))) ]
      ({| openAiWs := initialSession; streamSid := None; route_callSid := None;
          external := (Demo.outside : Ext (knowingEnv (js "Pikachu (type: Electric)"))) |}
       : World (knowingEnv (js "Pikachu (type: Electric)"))) [] in
  fullDialogue (openAiWs w') = js "AI: " ++ checkingMessage ++ [10%N]
  /\ sendingFunctionCallOutput (openAiWs w') = false
  /\ bookingState (openAiWs w') = idle
  /\ List.length pool = 0%nat
  /\ filter isSend o
     = [ ToOpenAi (item_create_assistant checkingMessage);
         ToOpenAi (item_create_function_call_output (js "Pikachu (type: Electric)"));
         ToOpenAi (response_create
                     (summaryInstructions (js "Pikachu (type: Electric)")) 7 150) ]
  /\ count (invokes op_dbUpdateConversation) o = 0%nat.
Proof. vm_compute. repeat split. Qed.

(** The text turn arriving during the lookup, the flag not yet set: it is
    entered in the dialogue and starts the booking dialogue, and the flag is
    left set for the turn after. *)
Example knowledge_answer_overtaken :
  let '(w', pool, o) :=
    Async.exec
      [ Async.arrive
          (openAi_message
             (json_value
                (Demo.toolCall "access_knowledge_base"
                   (json_value {| question := Some (js "What type is Pikachu?");
                                  arg_preferred_time := None; arg_email := None |}))));
        Async.arrive
          (openAi_message
             (json_value
                (Demo.message "response.content.done"
                   (Some (js "Shall I book a training session?")))));
        Async.resume 1;
        Async.resume 0 ]
      ({| openAiWs := initialSession; streamSid := None; route_callSid := None;
          external := (Demo.outside : Ext (knowingEnv (js "Pikachu (type: Electric)"))) |}
       : World (knowingEnv (js "Pikachu (type: Electric)"))) [] in
  fullDialogue (openAiWs w')
  = js "AI: " ++ checkingMessage ++ [10%N]
    ++ js "AI: Shall I book a training session?" ++ [10%N]
  /\ sendingFunctionCallOutput (openAiWs w') = true
  /\ bookingState (openAiWs w') = awaiting_time.
Proof. vm_compute. repeat split. Qed.

Lemma knowledge_answer_kept_out_of_dialogue_witness :
  (let '(t, w1, o1) :=
     Async.handle
       (openAi_message
          (json_value
             (Demo.toolCall "access_knowledge_base"
                (json_value {| question := Some (js "What type is Pikachu?");
                               arg_preferred_time := None; arg_email := None |}))))
       ({| openAiWs := initialSession; streamSid := None; route_callSid := None;
           external := (Demo.outside : Ext (knowingEnv (js "Pikachu (type: Electric)"))) |}
        : World (knowingEnv (js "Pikachu (type: Electric)"))) in
   List.length o1 = 6%nat
   /\ match t with
      | Async.Done _ => False
      | Async.Paused rest =>
          forall w2 : World (knowingEnv (js "Pikachu (type: Electric)")),
            filter isSend (snd (rest w2))
            = [ ToOpenAi (item_create_function_call_output (js "Pikachu (type: Electric)"));
                ToOpenAi (response_create
                            (summaryInstructions (js "Pikachu (type: Electric)")) 7 150) ]
      end)
  /\ (forall w3 : World (knowingEnv (js "Pikachu (type: Electric)")),
        sendingFunctionCallOutput (openAiWs w3) = true ->
        filter isSend
          (snd (Async.handle
                  (openAi_message
                     (json_value
                        (Demo.message "response.content.done"
                           (Some (js "Want to book a training session?")))))
                  w3))
        = []).
Proof.
  pose proof
    (@knowledge_answer_kept_out_of_dialogue
       (knowingEnv (js "Pikachu (type: Electric)"))
       {| openAiWs := initialSession; streamSid := None; route_callSid := None;
          external := (Demo.outside : Ext (knowingEnv (js "Pikachu (type: Electric)"))) |}
       (Demo.toolCall "access_knowledge_base"
          (json_value {| question := Some (js "What type is Pikachu?");
                         arg_preferred_time := None; arg_email := None |}))
       (Demo.message "response.content.done"
          (Some (js "Want to book a training session?")))
       {| question := Some (js "What type is Pikachu?");
          arg_preferred_time := None; arg_email := None |}
       (js "Pikachu (type: Electric)") Demo.outside
       eq_refl eq_refl eq_refl eq_refl ltac:(discriminate) eq_refl) as [H1 H2].
  split.
  - destruct (Async.handle _ _) as [[t w1] o1].
    destruct H1 as (-> & _ & H). split; [reflexivity|].
    destruct t as [r|rest]; [exact H|].
    intros w2. now rewrite H.
  - intros w3 Hflag. now rewrite (H2 w3 Hflag).
Defined.

(** ** What finalization stores *)

Section Finalization.

Variable E : Env.

(** X19.  [finalizeConversation] never throws and never assigns to the
    session; it asks for a summary at most once; the conversation is handed
    to the store only when the summary, the caller's name and the caller's
    e-mail were asked for; and when the summary request fails, nothing is
    stored: the transcript of the call is lost but for a console error. *)
Theorem finalization_needs_summary (w : World E) :
  let '(r, w', o) := finalizeConversation w in
  r = Ok tt
  /\ openAiWs w' = openAiWs w
  /\ (count (invokes op_fetchSummary) o <= 1)%nat
  /\ ((1 <= count (invokes op_dbFinalizeConversation) o)%nat ->
      count (invokes op_fetchSummary) o = 1%nat
      /\ count (invokes op_fetchUserName) o = 1%nat
      /\ count (invokes op_extractEmailFromSummary) o = 1%nat)
  /\ (truthy (conversationId (openAiWs w)) = true -> summaryFails w ->
      o = [ ConsoleLog "Finalizing conversation:"; Invoke op_fetchSummary;
            ConsoleError "Error finalizing conversation:" ]).
Proof.
  apply post_result. unfold summaryFails.
  crun; norm;
    (split; [reflexivity|]); (split; [reflexivity|]);
    (split; [counts; lia|]);
    (split;
     [ let Hc := fresh "Hc" in
       intros Hc;
       first [ exfalso; revert Hc; counts; lia | repeat split; counts; lia ]
     | let Hid := fresh "Hid" in
       let Hf := fresh "Hf" in
       intros Hid Hf;
       try congruence;
       repeat match goal with
              | Hr : fetchChatCompletion _ op_fetchSummary _ _ = _ |- _ =>
                  rewrite Hr in Hf; clear Hr
              end;
       first [ reflexivity
             | exfalso; destruct Hf as [Hf|[? Hf]]; congruence ] ]).
Qed.

End Finalization.

Lemma finalization_needs_summary_witness :
  snd (finalizeConversation
         (Demo.world (set_conversationId (Some (js "CA1")) initialSession)
            {| Demo.failures := 0; Demo.stored_user := None;
               Demo.calendar_status := None; Demo.chrono_result := None;
               Demo.chat_text := None |}))
  = [ ConsoleLog "Finalizing conversation:"; Invoke op_fetchSummary;
      ConsoleError "Error finalizing conversation:" ].
Proof.
  pose proof (finalization_needs_summary
                (Demo.world (set_conversationId (Some (js "CA1")) initialSession)
                   {| Demo.failures := 0; Demo.stored_user := None;
                      Demo.calendar_status := None; Demo.chrono_result := None;
                      Demo.chat_text := None |})) as H.
  destruct (finalizeConversation _) as [[r w'] o].
  cbn [snd]. apply H; [reflexivity | exact I].
Defined.

Section NameExtraction.

Variable E : Env.

(** X20.  [extractUserNameFromSummary] never throws, leaves the session
    alone and calls the completion endpoint once; a name it returns is
    trimmed and is not the answer "name not found" in any casing. *)
Theorem extracted_name_is_trimmed (w : World E) (summary_ : jsstring) :
  let '(r, w', o) := extractUserNameFromSummary summary_ w in
  openAiWs w' = openAiWs w
  /\ filter isCall o = [Invoke op_fetchUserName]
  /\ exists v,
       r = Ok v
       /\ forall n, v = Some n ->
                    trim n = n
                    /\ jseqb (toLowerCase E n) (js "name not found") = false.
Proof.
  apply post_result.
  mrun; norm;
    (split; [reflexivity|]); (split; [reflexivity|]);
    eexists; (split; [reflexivity|]);
    intros n Hn; try discriminate Hn;
    injection Hn as <-; split; [apply trim_idempotent | assumption].
Qed.

End NameExtraction.

(** ** The order of the two connections, and the outcomes of the dialogue *)

Lemma run_app (E : Env) (evs1 evs2 : list Event) (w : World E) :
  run (evs1 ++ evs2) w
  = (fst (run evs2 (fst (run evs1 w))),
     snd (run evs1 w) ++ snd (run evs2 (fst (run evs1 w)))).
Proof.
  revert w. induction evs1 as [|ev evs1 IH]; intros w.
  - cbn [app run fst snd]. now destruct (run evs2 w).
  - cbn [app]. rewrite !run_cons, IH. cbn [fst snd]. now rewrite app_assoc.
Qed.

Lemma callSid_along (o : list Effect) :
  forall s s',
    accountsFor s o s' -> Forall (fun e => assignsTo F_callSid e = false) o ->
    callSid s' = callSid s.
Proof.
  induction o as [|e o IH]; intros s s' Hacc Hall.
  - cbn in Hacc. now subst.
  - pose proof (Forall_inv Hall) as Hk. apply Forall_inv_tail in Hall.
    destruct e as [| | | | | | |f b a]; try (now apply IH).
    cbn [accountsFor] in Hacc. destruct Hacc as (-> & Hc & Hacc).
    rewrite (IH _ _ Hacc Hall).
    destruct f; cbn in Hk; try discriminate; cbn in Hc; now rewrite Hc.
Qed.

(** Without a telephony start event the session's call id stays. *)
Lemma handle_callSid (E : Env) (ev : Event) (w : World E) :
  isTelephonyEvent ev "start" = false ->
  callSid (openAiWs (snd (fst (handle ev w)))) = callSid (openAiWs w).
Proof.
  intros Hstart. apply (@callSid_along (snd (handle ev w))).
  - exact (handle_accounted ev w).
  - eapply Forall_impl; [|apply (handle_each ev w)].
    intros e (_ & _ & He & _). revert He.
    destruct e as [| | | | | | |f b a]; try reflexivity.
    cbn [assignsAllowed assignsTo]. destruct f; try reflexivity.
    cbn [mayAssign]. congruence.
Qed.

Lemma handle_greeting (E : Env) (ev : Event) (w : World E) :
  isModelEvent ev "session.updated" = false
  \/ truthy (callSid (openAiWs w)) = false ->
  Forall (fun e => greetingFrame e = false) (snd (handle ev w)).
Proof.
  intros Hno. eapply Forall_impl; [|apply (handle_each ev w)].
  intros e (_ & _ & _ & He & _). revert He.
  destruct e as [f| | | | | | |]; try reflexivity.
  destruct f as [| | | |p t m|]; try reflexivity.
  cbn [sendsAllowed greetingFrame]. destruct (isGreeting m); [|reflexivity].
  intros [H1 H2]. destruct Hno; congruence.
Qed.

Lemma run_without_start (E : Env) (evs : list Event) :
  forall w : World E,
    truthy (callSid (openAiWs w)) = false ->
    Forall (fun ev => isTelephonyEvent ev "start" = false) evs ->
    truthy (callSid (openAiWs (fst (run evs w)))) = false
    /\ Forall (fun e => greetingFrame e = false) (snd (run evs w)).
Proof.
  induction evs as [|ev evs IH]; intros w Hsid Hall.
  - split; [exact Hsid | constructor].
  - pose proof (Forall_inv Hall) as Hev. apply Forall_inv_tail in Hall.
    rewrite run_cons. cbn [fst snd].
    destruct (IH (snd (fst (handle ev w)))) as [Hsid' Hrest].
    + now rewrite handle_callSid.
    + exact Hall.
    + split; [exact Hsid'|]. apply Forall_app. split; [|exact Hrest].
      apply handle_greeting. now right.
Qed.

Lemma run_without_configuration (E : Env) (evs : list Event) :
  forall w : World E,
    Forall (fun ev => isModelEvent ev "session.updated" = false) evs ->
    Forall (fun e => greetingFrame e = false) (snd (run evs w)).
Proof.
  induction evs as [|ev evs IH]; intros w Hall; [constructor|].
  pose proof (Forall_inv Hall) as Hev. apply Forall_inv_tail in Hall.
  rewrite run_cons. cbn [snd]. apply Forall_app. split; [|now apply IH].
  apply handle_greeting. now left.
Qed.

(** X25.  The greeting needs the telephony start event before the model
    confirms the configuration.  On a call whose session has no call id yet,
    after any events without a telephony start event, followed by any events
    without a [session.updated], no greeting has been sent: the start event
    came too late for it, and nothing greets the caller afterwards. *)
Theorem greeting_needs_start_before_configuration
  (E : Env) (first later : list Event) (w : World E) :
  truthy (callSid (openAiWs w)) = false ->
  Forall (fun ev => isTelephonyEvent ev "start" = false) first ->
  Forall (fun ev => isModelEvent ev "session.updated" = false) later ->
  Forall (fun e => greetingFrame e = false) (snd (run (first ++ later) w)).
Proof.
  intros Hsid Hfirst Hlater. rewrite run_app. cbn [snd].
  apply Forall_app. split.
  - now apply run_without_start.
  - now apply run_without_configuration.
Qed.

Lemma greeting_needs_start_before_configuration_witness :
  Forall (fun e => greetingFrame e = false)
    (snd (run ([ openAi_open; settle_timer;
                 openAi_message (json_value (Demo.message "session.updated" None)) ]
               ++ [ twilio_message
                      (json_value
                         {| event := Some (js "start"); media := None;
                            start := Some {| start_streamSid := Some (js "MZ1");
                                             start_callSid := Some (js "CA1") |} |});
                    openAi_message
                      (json_value
                         (Demo.message "conversation.item.input_audio_transcription.completed"
                            (Some (js "Hello?")))) ])
            (Demo.world initialSession Demo.outside))).
Proof.
  apply (@greeting_needs_start_before_configuration Demo.env).
  - reflexivity.
  - repeat constructor.
  - repeat constructor.
Defined.

(** The other order: the start event first, and the caller is greeted. *)
Example greeting_after_start :
  filter greetingFrame
    (snd (run [ twilio_message
                  (json_value
                     {| event := Some (js "start"); media := None;
                        start := Some {| start_streamSid := Some (js "MZ1");
                                         start_callSid := Some (js "CA1") |} |});
                openAi_message (json_value (Demo.message "session.updated" None)) ]
            (Demo.world initialSession Demo.outside)))
  = [ToOpenAi (response_create NEW_USER_PROMPT 7 300)].
Proof. vm_compute. reflexivity. Qed.

Section Outcomes.

Variable E : Env.

(** X26.  [askForEmail] never throws and sends one prompt.  Either it asks
    for an e-mail to be spelled, enters [awaiting_email] and leaves the
    session's e-mail alone (so also when the lookup of the caller fails); or
    an e-mail is stored for the caller, and then the session holds that
    e-mail, the prompt spells that same e-mail out, and the dialogue is in
    [confirm_existing_email]. *)
Theorem askForEmail_outcomes (w : World E) :
  let '(r, w', o) := askForEmail w in
  r = Ok tt
  /\ (bookingState (openAiWs w') = awaiting_email
      /\ email (openAiWs w') = email (openAiWs w)
      /\ filter isSend o = [ToOpenAi (response_create newEmailPrompt 7 150)]
      \/ exists stored,
           stored <> []
           /\ bookingState (openAiWs w') = confirm_existing_email
           /\ email (openAiWs w') = Some stored
           /\ filter isSend o
              = [ToOpenAi (response_create
                             (storedEmailPrompt (Email.spellOutEmail stored)) 7 150)]).
Proof.
  apply post_result.
  mrun; norm; (split; [reflexivity|]);
    first
      [ left; split; [reflexivity|]; split; [reflexivity|]; sends; reflexivity
      | right;
        match goal with
        | H : truthy (user_email ?u) = true |- _ =>
            destruct (user_email u) as [[|c stored]|] eqn:Hstored;
            try discriminate H;
            exists (c :: stored); split; [discriminate|];
            split; [reflexivity|]; split; [reflexivity|]; sends; reflexivity
        end ].
Qed.

Ltac commit_outcome :=
  crun; norm; unfold committed; proj;
  (split; [reflexivity|]);
  first [ right; sends; reflexivity
        | left; split; [sends; reflexivity|];
          split; [counts; lia|]; split; counts; lia ].

(** X27.  Each of the three commit attempts (the caller's "yes" to a
    spelled e-mail, a "yes" to the stored e-mail, the model's tool call with
    arguments that parse) leaves the dialogue in [idle] and sends exactly one
    frame: the success message, and then the calendar was called once and the
    booking and the caller's e-mail were handed to the store, or the failure
    message. *)
Theorem booking_announced_only_when_stored :
  (forall (w : World E) (e : option jsstring),
     let '(_, w', o) := handleEmailConfirmation (js "yes") e w in
     committed bookedPrompt w' o)
  /\ (forall (w : World E) (confirmation : jsstring),
        includes (js "yes") confirmation = true ->
        let '(_, w', o) := handleExistingEmailConfirmation confirmation w in
        committed bookedPromptExisting w' o)
  /\ (forall (w : World E) (response : Message) (args : FunctionArgs),
        arguments response = json_value args ->
        let '(_, w', o) := onScheduleTrainingSession response w in
        committed bookedPrompt w' o).
Proof.
  split; [|split].
  - intros w e. apply post_let.
    unfold handleEmailConfirmation. rewrite jseqb_refl.
    commit_outcome.
  - intros w confirmation Hyes. apply post_let.
    unfold handleExistingEmailConfirmation. rewrite Hyes.
    commit_outcome.
  - intros w response args Hargs. apply post_let.
    unfold onScheduleTrainingSession, parseArguments. rewrite Hargs.
    commit_outcome.
Qed.

(** X28.  The tools the configuration declares are the tools the router
    answers.  A tool call with none of the two declared names is dropped: the
    call is left as it was and nothing is sent, so the model gets no output
    for it.  A tool call with a declared name and arguments that parse is
    answered with at least one frame. *)
Theorem declared_tools_answered (w : World E) (response : Message) :
  typeIs response "response.function_call_arguments.done" = true ->
  let '(_, w', o) := handle (openAi_message (json_value response)) w in
  (Forall (fun t => nameIs response t = false) declaredTools ->
   w' = w /\ filter isSend o = [])
  /\ (forall args, arguments response = json_value args ->
      Exists (fun t => nameIs response t = true) declaredTools ->
      (1 <= count isSend o)%nat).
Proof.
  intros Hty. apply typeIs_true in Hty.
  apply post_result. unfold handle, handleOpenAiMessage.
  mstep. mstep. mstep. mstep. mstep. unfold dispatch, when.
  unfold typeIs. rewrite ?Hty. cbv beta iota. literals. cbv beta iota. cbn [andb orb].
  unfold onFunctionCall, when.
  destruct (nameIs response "access_knowledge_base") eqn:Hk;
    destruct (nameIs response "schedule_training_session") eqn:Hs;
    (mrun; norm;
     (split;
     [ let Hnone := fresh "Hnone" in
       intros Hnone; unfold declaredTools in Hnone;
       first [ split; reflexivity
             | exfalso;
               repeat match goal with
                      | H : Forall _ (_ :: _) |- _ =>
                          let H1 := fresh "Hno" in
                          let H2 := fresh "Hrest" in
                          apply Forall_cons_iff in H as [H1 H2]
                      end;
               congruence ]
     | let args := fresh "args" in
       let Hargs := fresh "Hargs" in
       let Hsome := fresh "Hsome" in
       intros args Hargs Hsome;
       first [ counts; lia
             | congruence
             | exfalso; unfold declaredTools in Hsome;
               repeat match goal with
                      | H : Exists _ (_ :: _) |- _ =>
                          apply Exists_cons in H as [H|H]
                      | H : Exists _ [] |- _ => apply Exists_nil in H
                      end;
               first [contradiction | congruence] ] ])).
Qed.

End Outcomes.

Lemma declared_tools_answered_witness :
  (1 <= count isSend
          (snd (handle
                  (openAi_message
                     (json_value
                        (Demo.toolCall "access_knowledge_base"
                           (json_value {| question := Some (js "What type is Pikachu?");
                                          arg_preferred_time := None;
                                          arg_email := None |}))))
                  (Demo.world initialSession Demo.outside))))%nat.
Proof.
  pose proof (@declared_tools_answered Demo.env
                (Demo.world initialSession Demo.outside)
                (Demo.toolCall "access_knowledge_base"
                   (json_value {| question := Some (js "What type is Pikachu?");
                                  arg_preferred_time := None; arg_email := None |}))
                eq_refl) as H.
  destruct (handle _ _) as [[r w'] o].
  cbn [snd].
  apply (proj2 H {| question := Some (js "What type is Pikachu?");
                    arg_preferred_time := None; arg_email := None |});
    [reflexivity | left; reflexivity].
Defined.

(** ** The collaborators called, event by event *)

Lemma retryEffect_calling (op : Operation) (ops : list Operation) (e : Effect) :
  In op ops -> retryEffect op e -> calling ops e.
Proof. intros Hin [->|[->|[d ->]]]; [exact Hin | exact I | exact I]. Qed.

Ltac calling_all :=
  idtac;
  lazymatch goal with
  | |- Forall _ [] => apply Forall_nil
  | |- Forall _ (_ :: _) =>
      apply Forall_cons; [first [exact I | cbn; tauto] | calling_all]
  | |- Forall _ (?o ++ _) =>
      apply Forall_app; split;
      [ match goal with
        | Ho : Forall (retryEffect _) o |- _ =>
            eapply Forall_impl; [|exact Ho];
            intros ?; apply retryEffect_calling; cbn; tauto
        end
      | calling_all ]
  | |- Forall _ ?o =>
      match goal with
      | Ho : Forall (retryEffect _) o |- _ =>
          eapply Forall_impl; [|exact Ho];
          intros ?; apply retryEffect_calling; cbn; tauto
      end
  end.

Section Calls.

Variable E : Env.

Lemma post_bookTrainingSession_calling t e (w : World E) Q :
  (forall b x o, Forall (calling bookingCalls) o -> Q (Ok b) (with_external x w) o) ->
  post (bookTrainingSession t e) w Q.
Proof.
  intros H.
  eapply post_weaken
    with (Q := fun r w' o =>
                 exists b x, r = Ok b /\ w' = with_external x w
                             /\ Forall (calling bookingCalls) o).
  - mrun; norm; do 2 eexists;
      (split; [reflexivity|]);
      (split; [first [reflexivity | symmetry; apply with_external_same]|]);
      calling_all.
  - intros r w' o (b & x & -> & -> & Ho). now apply H.
Qed.

Lemma post_updateLastConversation_calling q a (w : World E) Q :
  (forall r x o, Forall (calling [op_dbUpdateConversation]) o ->
                 Q r (with_external x w) o) ->
  post (updateLastConversation q a) w Q.
Proof.
  intros H.
  eapply post_weaken
    with (Q := fun r w' o =>
                 exists x, w' = with_external x w
                           /\ Forall (calling [op_dbUpdateConversation]) o).
  - mrun; norm; eexists;
      (split; [first [reflexivity | symmetry; apply with_external_same]|]);
      calling_all.
  - intros r w' o (x & -> & Ho). now apply H.
Qed.

Lemma post_finalizeConversation_calling (w : World E) Q :
  (forall x o, Forall (calling finalizingCalls) o -> Q (Ok tt) (with_external x w) o) ->
  post finalizeConversation w Q.
Proof.
  intros H.
  eapply post_weaken
    with (Q := fun r w' o =>
                 exists x, r = Ok tt /\ w' = with_external x w
                           /\ Forall (calling finalizingCalls) o).
  - mrun; norm; eexists;
      (split; [reflexivity|]);
      (split; [first [reflexivity | symmetry; apply with_external_same]|]);
      calling_all.
  - intros r w' o (x & -> & -> & Ho). now apply H.
Qed.

End Calls.

(** One step, the three functions that only call taken as a whole. *)
Ltac kstep :=
  lazymatch goal with
  | |- post (bookTrainingSession _ _) _ _ =>
      apply post_bookTrainingSession_calling;
      let b := fresh "b" in let x := fresh "x" in
      let o := fresh "o" in let Ho := fresh "Ho" in
      intros b x o Ho; cbv beta iota; proj
  | |- post (updateLastConversation _ _) _ _ =>
      apply post_updateLastConversation_calling;
      let r := fresh "r" in let x := fresh "x" in
      let o := fresh "o" in let Ho := fresh "Ho" in
      intros r x o Ho; destruct r; cbv beta iota; proj
  | |- post (finalizeConversation (E:=_)) _ _ =>
      apply post_finalizeConversation_calling;
      let x := fresh "x" in let o := fresh "o" in let Ho := fresh "Ho" in
      intros x o Ho; cbv beta iota; proj
  | |- _ => mstep
  end.

Ltac krun := autounfold with router; cbv beta iota; proj; repeat kstep.

(** A call that the event may make, by the tag of the event. *)
Ltac call_leaf :=
  cbv [callsAllowed mayCall endsCall isModelEvent isTelephonyEvent];
  first
    [ exact I
    | reflexivity
    | unfold typeIs, eventIs;
      repeat match goal with
             | H : type _ = Some _ |- _ => rewrite H
             end;
      reflexivity
    | repeat match goal with
             | H : eventIs _ _ = _ |- _ => rewrite H
             end;
      reflexivity ].

Ltac calls_of o :=
  match goal with
  | Ho : Forall (retryEffect _) o |- _ =>
      eapply Forall_impl; [|exact Ho];
      let e := fresh "e" in
      let d := fresh "d" in
      intros e [->|[->|[d ->]]]; call_leaf
  | Ho : Forall (calling _) o |- _ =>
      eapply Forall_impl; [|exact Ho];
      let e := fresh "e" in
      let He := fresh "He" in
      intros e He; destruct e; cbn [calling] in He; try contradiction;
      try exact I;
      cbv [bookingCalls finalizingCalls In] in He;
      repeat match goal with
             | H : _ \/ _ |- _ => destruct H as [H|H]
             end;
      try contradiction; subst; call_leaf
  end.

Ltac calls_all :=
  idtac;
  lazymatch goal with
  | |- Forall _ [] => apply Forall_nil
  | |- Forall _ (_ :: _) => apply Forall_cons; [call_leaf | calls_all]
  | |- Forall _ (?o ++ _) => apply Forall_app; split; [calls_of o | calls_all]
  | |- Forall _ ?o => calls_of o
  end.

Section CallsByEvent.

Variable E : Env.

(** X29.  Which collaborators the handler of an event may call.  The
    telephony API, the creation of the conversation and the lookup of the last
    one only on [session.updated]; the knowledge base only on a tool call; the
    calendar, the booking store and the stored booking state only on a tool
    call, a text turn or a transcription of the caller; the conversation
    update only on a text turn or a transcript; the summary request, the
    extraction of name and e-mail and the storing of the transcript only on
    the telephony stop event and on the closing of the model connection.
    Audio fragments, speech starts, telephony media and start events, the
    opening of the connections and errors call nothing. *)
Theorem calls_by_event (ev : Event) (w : World E) :
  Forall (callsAllowed ev) (snd (handle ev w)).
Proof.
  apply (@post_run E (handle ev) w (fun _ o => Forall (callsAllowed ev) o)).
  destruct ev as [| |data| | |message|].
  - krun; norm; calls_all.
  - krun; norm; calls_all.
  - destruct data as [| |r].
    + krun; norm; calls_all.
    + krun; norm; calls_all.
    + unfold handle, handleOpenAiMessage. mstep. mstep. mstep. mstep. mstep.
      by_tag r; krun; norm; calls_all.
  - krun; norm; calls_all.
  - krun; norm; calls_all.
  - krun; norm; calls_all.
  - krun; norm; calls_all.
Qed.

End CallsByEvent.

(** ** The greeting of a returning caller *)

Section GreetingFacts.

Import Greeting.

Lemma beforeFirst_without (sep : codeunit) (s : jsstring) :
  Forall (fun c => c <> sep) (beforeFirst sep s).
Proof.
  induction s as [|c s IH]; simpl; [constructor|].
  destruct (N.eqb_spec c sep); [constructor | now constructor].
Qed.

Lemma Forall_firstn (A : Type) (P : A -> Prop) (n : nat) (l : list A) :
  Forall P l -> Forall P (firstn n l).
Proof.
  intros H. revert n. induction H as [|x l Hx _ IH]; intros [|n]; simpl;
    constructor; auto.
Qed.

(** X21.  [summarizeLastTopic], for every summary: the topic has at most
    50 code units; either it has no full stop and neither begins nor ends
    with white space, or it is 47 code units without a full stop followed by
    "...". *)
Theorem summarizeLastTopic_short (summary_ : jsstring) :
  let topic := summarizeLastTopic summary_ in
  (List.length topic <= 50)%nat
  /\ (Forall (fun c => c <> FULL_STOP) topic /\ noSpaceAtHead topic
      /\ noSpaceAtHead (rev topic)
      \/ exists start,
           topic = start ++ js "..." /\ List.length start = 47%nat
           /\ Forall (fun c => c <> FULL_STOP) start /\ noSpaceAtHead start).
Proof.
  cbv zeta. unfold summarizeLastTopic.
  set (clean := dropPrefix _ _).
  assert (Hdot : Forall (fun c => c <> FULL_STOP) (trim (beforeFirst FULL_STOP clean)))
    by apply trim_Forall, beforeFirst_without.
  destruct (trim_ends (beforeFirst FULL_STOP clean)) as [Hh Hl].
  destruct (Nat.ltb_spec 50 (List.length (trim (beforeFirst FULL_STOP clean))))
    as [Hlong|Hshort].
  - assert (Hlen : List.length (firstn 47 (trim (beforeFirst FULL_STOP clean))) = 47%nat)
      by (rewrite length_firstn; lia).
    split.
    + rewrite length_app, Hlen. reflexivity.
    + right. eexists. split; [reflexivity|]. split; [exact Hlen|].
      split; [now apply Forall_firstn|].
      destruct (trim (beforeFirst FULL_STOP clean)); [exact I | exact Hh].
  - split; [exact Hshort|]. left. now repeat split.
Qed.

Lemma getSubstitution_plain (matched before after replacement : jsstring) :
  Forall (fun c => c <> DOLLAR) replacement ->
  getSubstitution matched before after replacement = replacement.
Proof.
  induction 1 as [|c r Hc Hr IH]; [reflexivity|].
  cbn [getSubstitution]. apply N.eqb_neq in Hc.
  destruct r as [|d r']; [reflexivity|].
  rewrite Hc. cbn [andb]. now rewrite IH.
Qed.

(** The first occurrence lies behind a text that has not the first code
    unit of the pattern. *)
Lemma replaceFrom_skip (c0 : codeunit) (search replacement : jsstring)
  (skipped s : jsstring) :
  Forall (fun c => c <> c0) skipped ->
  forall before,
    replaceFrom (c0 :: search) replacement before (skipped ++ s)
    = replaceFrom (c0 :: search) replacement (before ++ skipped) s.
Proof.
  induction 1 as [|c skipped Hc _ IH]; intros before.
  - now rewrite app_nil_r.
  - cbn [app replaceFrom startsWith].
    assert (Hne : (c0 =? c)%N = false) by (apply N.eqb_neq; congruence).
    rewrite Hne. cbn [andb]. rewrite IH, <- app_assoc. reflexivity.
Qed.

Lemma replaceFrom_unfold (search replacement before s : jsstring) :
  replaceFrom search replacement before s
  = if startsWith search s
    then before
         ++ getSubstitution search before (skipn (List.length search) s) replacement
         ++ skipn (List.length search) s
    else match s with
         | [] => before
         | c :: s' => replaceFrom search replacement (before ++ [c]) s'
         end.
Proof. destruct s; reflexivity. Qed.

Lemma startsWith_app (p s : jsstring) : startsWith p (p ++ s) = true.
Proof.
  induction p as [|c p IH]; [reflexivity|]. cbn. now rewrite N.eqb_refl.
Qed.

Lemma skipn_length_app (p s : jsstring) : skipn (List.length p) (p ++ s) = s.
Proof. induction p as [|c p IH]; [reflexivity | exact IH]. Qed.

Lemma replaceFrom_here (search replacement before after : jsstring) :
  Forall (fun c => c <> DOLLAR) replacement ->
  replaceFrom search replacement before (search ++ after)
  = before ++ replacement ++ after.
Proof.
  intros Hplain.
  rewrite replaceFrom_unfold, startsWith_app, skipn_length_app.
  now rewrite getSubstitution_plain.
Qed.

Lemma Forall_skipn (A : Type) (P : A -> Prop) (n : nat) (l : list A) :
  Forall P l -> Forall P (skipn n l).
Proof.
  intros H. revert n. induction H as [|x l Hx Hl IH]; intros [|n]; simpl;
    try constructor; auto.
Qed.

Lemma dropPrefix_Forall (P : codeunit -> Prop) (prefixes : list jsstring)
  (s : jsstring) : Forall P s -> Forall P (dropPrefix prefixes s).
Proof.
  intros H. induction prefixes as [|p rest IH]; simpl; [exact H|].
  destruct (startsWith p s); [now apply Forall_skipn | exact IH].
Qed.

Lemma dropFirst_unfold (alternatives : list jsstring) (s : jsstring) :
  dropFirst alternatives s
  = if existsb (fun p => startsWith p s) alternatives
    then dropPrefix alternatives s
    else match s with
         | [] => []
         | c :: s' => c :: dropFirst alternatives s'
         end.
Proof. destruct s; reflexivity. Qed.

Lemma dropFirst_Forall (P : codeunit -> Prop) (alternatives : list jsstring)
  (s : jsstring) : Forall P s -> Forall P (dropFirst alternatives s).
Proof.
  induction 1 as [|c s Hc Hs IH]; rewrite dropFirst_unfold.
  - destruct (existsb _ _); [apply dropPrefix_Forall|]; constructor.
  - destruct (existsb _ _).
    + apply dropPrefix_Forall. now constructor.
    + now constructor.
Qed.

Lemma beforeFirst_Forall (P : codeunit -> Prop) (sep : codeunit) (s : jsstring) :
  Forall P s -> Forall P (beforeFirst sep s).
Proof.
  induction 1 as [|c s Hc Hs IH]; simpl; [constructor|].
  destruct (c =? sep)%N; [constructor | now constructor].
Qed.

(** The topic is made of code units of the summary and of full stops. *)
Lemma summarizeLastTopic_Forall (P : codeunit -> Prop) (summary_ : jsstring) :
  P FULL_STOP -> Forall P summary_ -> Forall P (summarizeLastTopic summary_).
Proof.
  intros Hdot H. unfold summarizeLastTopic.
  set (topic := trim _).
  assert (Ht : Forall P topic).
  { apply trim_Forall, beforeFirst_Forall, dropPrefix_Forall, dropFirst_Forall,
      dropPrefix_Forall, H. }
  destruct (_ <? _)%nat; [|exact Ht].
  apply Forall_app. split; [now apply Forall_firstn|].
  repeat constructor; exact Hdot.
Qed.

Ltac literal_without :=
  repeat (apply Forall_cons; [discriminate|]); apply Forall_nil.

(** X22.  The prompt for a returning caller, when neither the stored name
    nor the last summary has a '$' and the name has no '{': the template with
    the name and the topic in their places. *)
Theorem returning_greeting_text (name_ : jsstring) (lastSummary : option jsstring) :
  Forall (fun c => c <> DOLLAR /\ c <> LEFT_BRACE) name_ ->
  (forall s, lastSummary = Some s -> Forall (fun c => c <> DOLLAR) s) ->
  returningUserPrompt name_ lastSummary
  = js "Nice to see you again, " ++ name_
    ++ js "! Your last conversation was about "
    ++ (if truthy lastSummary
        then summarizeLastTopic (toString lastSummary)
        else js "our introduction")
    ++ js ". Do you want to continue that topic or do you have another question?".
Proof.
  intros Hname Hsummary. unfold returningUserPrompt, replace.
  set (topic := if truthy lastSummary then _ else _).
  assert (Htopic : Forall (fun c => c <> DOLLAR) topic).
  { subst topic. destruct lastSummary as [[|c s]|]; cbn [truthy toString];
      try literal_without.
    apply summarizeLastTopic_Forall; [discriminate | now apply Hsummary]. }
  assert (Hdollar : Forall (fun c => c <> DOLLAR) name_)
    by (eapply Forall_impl; [|exact Hname]; now intros c [H _]).
  assert (Hbrace : Forall (fun c => c <> LEFT_BRACE) name_)
    by (eapply Forall_impl; [|exact Hname]; now intros c [_ H]).
  change RETURNING_USER_MESSAGE_TEMPLATE
    with (js "Nice to see you again, "
          ++ (LEFT_BRACE :: js "name}")
          ++ js "! Your last conversation was about {lastTopic}. Do you want to continue that topic or do you have another question?").
  change (js "{name}") with (LEFT_BRACE :: js "name}").
  rewrite replaceFrom_skip by literal_without.
  rewrite replaceFrom_here by exact Hdollar.
  cbn [app].
  change (js "! Your last conversation was about {lastTopic}. Do you want to continue that topic or do you have another question?")
    with (js "! Your last conversation was about "
          ++ (LEFT_BRACE :: js "lastTopic}")
          ++ js ". Do you want to continue that topic or do you have another question?").
  change (js "{lastTopic}") with (LEFT_BRACE :: js "lastTopic}").
  rewrite !app_assoc.
  rewrite <- (app_assoc _ (LEFT_BRACE :: js "lastTopic}")).
  rewrite replaceFrom_skip.
  - rewrite replaceFrom_here by exact Htopic.
    cbn [app]. now rewrite <- !app_assoc.
  - repeat (apply Forall_app; split); try assumption; literal_without.
Qed.

Lemma returning_greeting_text_witness :
  returningUserPrompt (js "Ash")
    (Some (js "The user asked about Pikachu's evolutions. The AI explained them."))
  = js "Nice to see you again, Ash! Your last conversation was about Pikachu's evolutions. Do you want to continue that topic or do you have another question?".
Proof.
  apply (@returning_greeting_text (js "Ash")
           (Some (js "The user asked about Pikachu's evolutions. The AI explained them."))).
  - repeat (apply Forall_cons; [split; discriminate|]). apply Forall_nil.
  - intros s Hs. injection Hs as <-. literal_without.
Defined.

(** A name with a replacement pattern in it is not inserted as it is. *)
Example returning_greeting_pattern_in_name :
  returningUserPrompt (js "$&") None
  = js "Nice to see you again, {name}! Your last conversation was about our introduction. Do you want to continue that topic or do you have another question?".
Proof. reflexivity. Qed.

End GreetingFacts.

(** ** The knowledge lookup *)

Section KnowledgeFacts.

Import Knowledge.

Lemma renderDocument_text (item : Document) (text : jsstring) :
  renderDocument item = Ok text -> text <> [].
Proof.
  unfold renderDocument. destruct (doc_metadata item) as [entries|]; [|discriminate].
  intros H. injection H as <-. intros Hnil.
  apply app_eq_nil in Hnil as [_ Hnil]. cbn in Hnil. discriminate Hnil.
Qed.

Lemma renderAll_texts (data : list Document) :
  forall texts,
    renderAll data = Ok texts ->
    List.length texts = List.length data /\ Forall (fun t => t <> []) texts.
Proof.
  induction data as [|item rest IH]; intros texts H; simpl in H.
  - injection H as <-. split; [reflexivity | constructor].
  - destruct (renderDocument item) as [text|] eqn:Hitem; [|discriminate].
    destruct (renderAll rest) as [texts'|]; [|discriminate].
    injection H as <-. destruct (IH _ eq_refl) as [Hlen Hall].
    split; [simpl; now rewrite Hlen|].
    constructor; [now apply (renderDocument_text item) | exact Hall].
Qed.

Lemma join_text (sep : jsstring) (parts : list jsstring) :
  parts <> [] -> Forall (fun t => t <> []) parts -> join sep parts <> [].
Proof.
  intros Hne Hall. destruct parts as [|p rest]; [congruence|].
  apply Forall_inv in Hall.
  destruct rest; simpl; [exact Hall|].
  intros H. apply app_eq_nil in H as [H _]. contradiction.
Qed.

Variable K : Sources.

(** X23.  [askSupabaseAssistant] returns no answer or a text that is not
    empty, so the router's test of the answer is a test for no answer.  An
    answer comes after the two remote calls and without a console error; no
    answer always comes with a last console entry that tells why. *)
Theorem knowledge_answer_or_nothing (question : option jsstring) (x : Ext K) :
  let '(answer, _, steps) := askSupabaseAssistant K question x in
  match answer with
  | Some text =>
      text <> []
      /\ steps = [ Log "Querying knowledge base for:"; CallEmbedding; CallSearch;
                   Log "Knowledge base answers found:" ]
  | None =>
      exists done last,
        steps = Log "Querying knowledge base for:" :: CallEmbedding :: done ++ [last]
        /\ (isFailure last = true
            \/ last = Log "No relevant documents found in Supabase.")
  end.
Proof.
  unfold askSupabaseAssistant, caught.
  destruct (fetchEmbedding K question x) as [[response|e] x1];
    [|exists [], (Failure "Error in askSupabaseAssistant:"); split; [reflexivity | now left]].
  destruct (embedding_ok response); cbn [negb];
    [|exists [], (Failure "Error fetching embedding from Azure OpenAI:");
      split; [reflexivity | now left]].
  destruct (embedding response) as [q|e];
    [|exists [], (Failure "Error in askSupabaseAssistant:"); split; [reflexivity | now left]].
  destruct (search_documents K q x1) as [[result|e] x2];
    [|exists [CallSearch], (Failure "Error in askSupabaseAssistant:");
      split; [reflexivity | now left]].
  destruct (search_error result);
    [exists [CallSearch], (Failure "Error querying Supabase:"); split; [reflexivity | now left]|].
  destruct (search_data result) as [[|item rest]|];
    try (exists [CallSearch], (Log "No relevant documents found in Supabase.");
         split; [reflexivity | now right]).
  destruct (renderAll (item :: rest)) as [texts|e] eqn:Hrender.
  - split; [|reflexivity].
    destruct (renderAll_texts _ Hrender) as [Hlen Hall].
    apply join_text; [|exact Hall].
    destruct texts; [discriminate Hlen | discriminate].
  - exists [CallSearch; Log "Knowledge base answers found:"],
      (Failure "Error in askSupabaseAssistant:").
    split; [reflexivity | now left].
Qed.

End KnowledgeFacts.

(** ** The greeting of the earlier server *)

Section ServerFacts.

Import Greeting.

(** What lies before the place of the search is kept. *)
Lemma replaceFrom_before (search replacement s : jsstring) :
  forall before,
    exists rest, replaceFrom search replacement before s = before ++ rest.
Proof.
  induction s as [|c s IH]; intros before; rewrite replaceFrom_unfold.
  - destruct (startsWith search []); eauto. exists []. now rewrite app_nil_r.
  - destruct (startsWith search (c :: s)); eauto.
    destruct (IH (before ++ [c])) as [rest ->].
    exists (c :: rest). now rewrite <- app_assoc.
Qed.

(** A text that begins with another code unit than the search string begins
    with it after the replacement. *)
Lemma replace_head (c0 h : codeunit) (search replacement s : jsstring) :
  h <> c0 ->
  exists rest, replace (c0 :: search) replacement (h :: s) = h :: rest.
Proof.
  intros Hne. unfold replace. rewrite replaceFrom_unfold.
  cbn [startsWith]. assert (H : (c0 =? h)%N = false) by (apply N.eqb_neq; congruence).
  rewrite H. cbn [andb app].
  destruct (replaceFrom_before (c0 :: search) replacement s [h]) as [rest ->].
  now exists rest.
Qed.

Import Server.

Variable O : Outside.

Lemma returning_greeting_head (n t : jsstring) :
  exists rest,
    replace (js "{lastTopic}") t (replace (js "{name}") n RETURNING_GREETING)
    = 87%N :: rest.
Proof.
  assert (Hne : 87%N <> LEFT_BRACE) by discriminate.
  destruct (@replace_head LEFT_BRACE 87%N (js "name}") n
              (js "elcome back, {name}! Last time we talked about {lastTopic}. Would you like to continue that discussion or do you have a new question?")
              Hne) as [rest1 H1].
  assert (H : replace (js "{name}") n RETURNING_GREETING = 87%N :: rest1) by exact H1.
  rewrite H.
  exact (@replace_head LEFT_BRACE 87%N (js "lastTopic}") t rest1 Hne).
Qed.

Lemma frames_app (a b : list Step) : frames (a ++ b) = frames a ++ frames b.
Proof. apply flat_map_app. Qed.

Lemma caught_greeted (e : Err) (w0 w : World O) (done : list Step) :
  sessionReady w = true ->
  Server.fullDialogue (openAiWs w) = Server.fullDialogue (openAiWs w0) ->
  Server.awaitingName (openAiWs w) = Server.awaitingName (openAiWs w0) ->
  frames done = [] -> ~ In delayed done ->
  let '(w', steps) := caught e w done in greeted w0 w' steps.
Proof.
  intros Hready Hd Ha Hframes Hdelay. unfold caught, greeted.
  split; [exact Hready|]. split.
  - intros H. apply in_app_or in H as [H|H]; [tauto|].
    destruct (invalidSid O e); cbn in H; unfold delayed in H; intuition discriminate.
  - left. split; [|now split].
    rewrite frames_app, Hframes. now destruct (invalidSid O e).
Qed.

Lemma handleIncomingCall_greeted (sid : option jsstring) (w : World O) :
  sessionReady w = true ->
  let '(w', steps) := handleIncomingCall sid w in greeted w w' steps.
Proof.
  intros Hready. unfold handleIncomingCall.
  assert (Hnone : greeted w w [Failure "Call SID is undefined"]).
  { split; [exact Hready|]. split; [|left; now repeat split].
    intros [H|[]]. discriminate. }
  destruct sid as [[|c sid]|]; try exact Hnone.
  destruct (calls_fetch_from O (c :: sid) (external w)) as [[phone|e] x1].
  2:{ apply caught_greeted; try reflexivity; try exact Hready.
      intros [H|[]]. discriminate. }
  destruct (Server.uuidv4 O x1) as [id x2].
  destruct (select_user O phone x2) as [[result|e] x3].
  2:{ apply caught_greeted; try reflexivity; try exact Hready.
      intros [H|[H|[H|[]]]]; discriminate. }
  set (looked := [CallFetch; NewId; SelectUser] ++ _).
  assert (Hlooked : frames looked = [] /\ ~ In InsertUser looked
                    /\ ~ In delayed looked).
  { subst looked. unfold delayed.
    destruct (Server.error result) as [code|];
      [destruct (jseqb code (js "PGRST116"))|]; cbn; intuition discriminate. }
  destruct Hlooked as (Hframes & Hinsert & Hdelay).
  destruct (Server.data result) as [userData|].
  - destruct (returning_greeting_head
                (orElse (Server.user_name userData) (js "trainer"))
                (orElse (last_question userData) (js "Pok" ++ [E_ACUTE] ++ js "mon")))
      as [rest Hgreeting].
    rewrite Hgreeting. unfold sendInitialGreeting.
    cbn [sessionReady with_external andb truthy]. rewrite Hready.
    cbv beta iota zeta. unfold greeted.
    cbn [sessionReady openAiWs Server.fullDialogue Server.awaitingName].
    split; [first [exact Hready | reflexivity]|]. split.
    + intros H. apply in_app_or in H as [H|H]; [tauto|].
      unfold delayed in H. cbn in H. intuition discriminate.
    + right. exists (87%N :: rest).
      split; [rewrite frames_app, Hframes; reflexivity|].
      split; [reflexivity|].
      split; (split; [|discriminate]).
      * cbn. discriminate.
      * intros H. apply in_app_or in H as [H|H]; [tauto|].
        cbn in H. intuition discriminate.
  - destruct (insert_user O phone x3) as [[failed|e] x4].
    2:{ apply caught_greeted; try reflexivity; try exact Hready.
        - rewrite frames_app, Hframes. reflexivity.
        - intros H. apply in_app_or in H as [H|[H|[]]]; [tauto | discriminate]. }
    unfold sendInitialGreeting.
    cbn [sessionReady with_external andb]. rewrite Hready.
    change (truthy (Some INITIAL_GREETING)) with true.
    cbv beta iota zeta. unfold greeted.
    cbn [sessionReady openAiWs Server.fullDialogue Server.awaitingName].
    split; [first [exact Hready | reflexivity]|]. split.
    + intros H. apply in_app_or in H as [H|H]; [tauto|].
      unfold delayed in H. destruct failed; cbn in H; intuition discriminate.
    + right. exists INITIAL_GREETING.
      split.
      { rewrite frames_app, Hframes. now destruct failed. }
      split; [reflexivity|].
      split; (split; [reflexivity|]); intros _.
      * apply jseqb_refl.
      * apply in_or_app. right. now left.
Qed.

(** X24.  The earlier server, on [session.updated]: the module's readiness
    flag is set, and so the branch of [sendInitialGreeting] that puts the
    greeting off is never taken.  Either nothing is sent and the dialogue is
    as it was, or the greeting goes out in two frames, the dialogue is begun
    anew with it, and the caller's name is awaited exactly when the greeting
    is that of a new caller, which is exactly when a row was inserted for the
    caller. *)
Theorem server_greets_when_configured (w : World O) :
  let '(w', steps) := onSessionUpdated w in
  sessionReady w' = true
  /\ ~ In (Log "Session not ready or greeting not set, delaying initial greeting") steps
  /\ (frames steps = []
      /\ Server.fullDialogue (openAiWs w') = Server.fullDialogue (openAiWs w)
      /\ Server.awaitingName (openAiWs w') = Server.awaitingName (openAiWs w)
      \/ exists greeting,
           frames steps = [item_create_assistant greeting; response_create greeting]
           /\ Server.fullDialogue (openAiWs w') = js "AI: " ++ greeting ++ [10%N]
           /\ (Server.awaitingName (openAiWs w') = true
               <-> greeting = INITIAL_GREETING)
           /\ (In InsertUser steps <-> greeting = INITIAL_GREETING)).
Proof.
  unfold onSessionUpdated.
  destruct (truthy (Server.callSid (openAiWs w))).
  - set (ready := {| openAiWs := openAiWs w; sessionReady := true;
                     external := external w |}).
    pose proof (@handleIncomingCall_greeted (Server.callSid (openAiWs w)) ready eq_refl)
      as H.
    destruct (handleIncomingCall (Server.callSid (openAiWs w)) ready) as [w' done].
    destruct H as (Hready & Hdelay & Hgreet).
    split; [exact Hready|]. split.
    + intros [H|H]; [discriminate | now apply Hdelay].
    + destruct Hgreet as [Hnone|(greeting & Hf & Hd & Ha & Hi)]; [left; exact Hnone|].
      right. exists greeting.
      split; [exact Hf|]. split; [exact Hd|]. split; [exact Ha|]. split.
      * intros [H|H]; [discriminate | now apply Hi].
      * intros H. right. now apply Hi.
  - split; [reflexivity|]. split; [|left; now repeat split].
    intros [H|[H|[]]]; discriminate.
Qed.

End ServerFacts.
